(** * juejin-download: the image synchronisation pipeline

    A shallow embedding of [utils.js], [process-images.js] and
    [fix-missing-images.js], and the properties of the pipeline that hold
    (or fail) on that code; with them the requests to the API of
    [utils.js], [batch-download.js], [main.js], and the log file and the
    level test of [lib/logger.js].

    Conventions of the embedding.
    - Text is a [string]: the sequence of its UTF-8 bytes.  The regular
      expressions of the source only name ASCII characters; the Unicode
      spaces beyond ASCII that [\s] and [trim] also accept are not modelled.
    - A JavaScript object used as a dictionary is a [gmap string _], a [Set]
      is a [gset string].
    - The file system is a finite map from paths to contents.  A JSON file
      written with [JSON.stringify] is kept in parsed form; any other file is
      text.  Directories are implicit: [ensureDirSync] has no effect, and a
      directory listing is the list of the files whose path lies directly
      under the directory.  [path.join dir name] is [dir/name]; file names
      are plain (no [/], no dot segments).
    - The network and the clock are oracles, asked through counters kept in
      the world; every network request and every start and end of a download
      is recorded in a trace.
    - The messages of the [Logger] are not part of the embedding.  Unless
      [ENABLE_FILE_LOGGING] is [false], every [log.info], [log.warn] and
      [log.error] of the four programs appends a line to the file
      [log/<prefix>-<date>.log]; the map of the files leaves these files
      out, and what it says of a log file, a path that [log_file] accepts,
      is no statement about the program.  Every property that compares the
      files before and after a run over all paths therefore excepts the
      log files. *)

From Stdlib Require Import NArith Ascii.
From stdpp Require Import gmap strings list fin_maps pretty.

(** ** JavaScript strings *)

Module JsString.

Definition code (c : ascii) : nat := nat_of_ascii c.
Definition chr (n : nat) : ascii := ascii_of_nat n.

Definition dquote : ascii := chr 34.
Definition squote : ascii := chr 39.
Definition str1 (c : ascii) : string := String c EmptyString.

Definition is_char (c d : ascii) : bool := Ascii.eqb c d.

(** [\s], on ASCII: tab, line feed, vertical tab, form feed, carriage
    return, space. *)
Definition is_space (c : ascii) : bool :=
  let n := code c in ((9 <=? n) && (n <=? 13)) || (n =? 32).

(** Canonicalisation under the [i] flag, on ASCII letters. *)
Definition lower (c : ascii) : ascii :=
  let n := code c in
  if (65 <=? n) && (n <=? 90) then chr (n + 32) else c.

Definition is_char_ci (c d : ascii) : bool := Ascii.eqb (lower c) (lower d).

Fixpoint one_of (cs : string) (c : ascii) : bool :=
  match cs with
  | EmptyString => false
  | String d r => is_char c d || one_of r c
  end.

Definition is_empty (s : string) : bool :=
  match s with EmptyString => true | _ => false end.

(** [strip eq p s]: what is left of [s] after the literal [p], if [s]
    starts with it. *)
Fixpoint strip (eq : ascii -> ascii -> bool) (p s : string) : option string :=
  match p with
  | EmptyString => Some s
  | String c p' =>
      match s with
      | String d s' => if eq d c then strip eq p' s' else None
      | EmptyString => None
      end
  end.
Definition strip_prefix := strip is_char.
Definition strip_prefix_ci := strip is_char_ci.

Definition starts_with (p s : string) : bool :=
  match strip_prefix p s with Some _ => true | None => false end.

(** The longest prefix whose characters all satisfy [f], and the rest:
    a greedy [[...]*]. *)
Fixpoint span (f : ascii -> bool) (s : string) : string * string :=
  match s with
  | String c r =>
      if f c then let '(a, b) := span f r in (String c a, b)
      else (EmptyString, s)
  | EmptyString => (EmptyString, EmptyString)
  end.

Definition take (n : nat) (s : string) : string := String.substring 0 n s.
Fixpoint drop (n : nat) (s : string) : string :=
  match n, s with
  | S n', String _ r => drop n' r
  | _, _ => s
  end.

(** [s.endsWith(p)] *)
Definition ends_with (p s : string) : bool :=
  let n := String.length s in let k := String.length p in
  (k <=? n) && String.eqb (drop (n - k) s) p.

(** [s.includes(p)] *)
Fixpoint includes (p s : string) : bool :=
  starts_with p s ||
  match s with
  | String _ r => includes p r
  | EmptyString => false
  end.

(** [s.trim()] *)
Fixpoint trim_start (s : string) : string :=
  match s with
  | String c r => if is_space c then trim_start r else s
  | EmptyString => EmptyString
  end.
Fixpoint trim_end (s : string) : string :=
  match s with
  | String c r =>
      match trim_end r with
      | EmptyString => if is_space c then EmptyString else str1 c
      | r' => String c r'
      end
  | EmptyString => EmptyString
  end.
Definition trim (s : string) : string := trim_end (trim_start s).

Fixpoint map_chars (f : ascii -> ascii) (s : string) : string :=
  match s with
  | String c r => String (f c) (map_chars f r)
  | EmptyString => EmptyString
  end.

(** The replacement patterns of [String.prototype.replace] that do not
    need a capture group: [$$], [$&], [$`] and [$']; any other [$] stands
    for itself. *)
Fixpoint substitution (before matched after repl : string) : string :=
  match repl with
  | String c r =>
      if is_char c (chr 36) then
        match r with
        | String d r' =>
            if is_char d (chr 36) then String (chr 36) (substitution before matched after r')
            else if is_char d (chr 38) then matched +:+ substitution before matched after r'
            else if is_char d (chr 96) then before +:+ substitution before matched after r'
            else if is_char d squote then after +:+ substitution before matched after r'
            else String c (substitution before matched after r)
        | EmptyString => str1 c
        end
      else String c (substitution before matched after r)
  | EmptyString => EmptyString
  end.

(** [split_at p s]: the text before and after the first occurrence of the
    literal [p] in [s]. *)
Fixpoint split_at (p s : string) : option (string * string) :=
  match strip_prefix p s with
  | Some rest => Some (EmptyString, rest)
  | None =>
      match s with
      | String c r =>
          match split_at p r with
          | Some (a, b) => Some (String c a, b)
          | None => None
          end
      | EmptyString => None
      end
  end.

(** [s.replace(p, repl)] with a string pattern: the first occurrence only. *)
Definition replace (p repl s : string) : string :=
  match split_at p s with
  | Some (before, after) => before +:+ substitution before p after repl +:+ after
  | None => s
  end.

(** How a statement or call ends: normally with a value, or by throwing
    an error with a message. *)
Inductive completion (A : Type) : Type :=
| Normal (a : A)
| Throw (message : string).
Arguments Normal {A} a.
Arguments Throw {A} message.

#[export] Instance completion_bind : MBind completion :=
  fun A B k c =>
    match c with
    | Normal a => k a
    | Throw e => Throw e
    end.

End JsString.

(** ** Node's [crypto] digests

    [crypto.createHash(alg).update(text).digest("hex")] for the two
    algorithms the program uses, on the UTF-8 bytes of the text. *)

Module Crypto.
Local Open Scope N_scope.

Definition w32 (x : N) : N := x mod 0x100000000.
Definition rotl32 (x k : N) : N :=
  w32 (N.lor (N.shiftl x k) (N.shiftr (w32 x) (32 - k))).
Definition rotr32 (x k : N) : N :=
  w32 (N.lor (N.shiftr (w32 x) k) (N.shiftl x (32 - k))).
Definition not32 (x : N) : N := N.lxor (w32 x) 0xffffffff.

Definition bytes_of_string (s : string) : list N :=
  List.map N_of_ascii (String.list_ascii_of_string s).

Fixpoint le_bytes (n : nat) (x : N) : list N :=
  match n with
  | O => []
  | S n' => (x mod 256) :: le_bytes n' (x / 256)
  end.
Definition be_bytes (n : nat) (x : N) : list N := rev (le_bytes n x).

Definition le_word (bs : list N) : N :=
  fold_right (fun b acc => b + 256 * acc) 0 bs.
Definition be_word (bs : list N) : N :=
  fold_left (fun acc b => 256 * acc + b) bs 0.

(** The byte 0x80, zero bytes up to 56 modulo 64, then the length in bits
    on 8 bytes. *)
Definition pad (len_bytes : nat -> N -> list N) (msg : list N) : list N :=
  let l := length msg in
  let zeros := ((64 - ((l + 9) mod 64)) mod 64)%nat in
  msg ++ 0x80 :: repeat 0 zeros ++ len_bytes 8%nat (8 * N.of_nat l).

Fixpoint group (fuel k : nat) (l : list N) : list (list N) :=
  match fuel with
  | O => []
  | S f =>
      match l with
      | [] => []
      | _ => firstn k l :: group f k (skipn k l)
      end
  end.
Definition blocks (l : list N) : list (list N) := group (length l) 64 l.
Definition words (dec : list N -> N) (blk : list N) : list N :=
  List.map dec (group (length blk) 4 blk).

Definition hex_digit (d : N) : ascii :=
  ascii_of_N (if d <? 10 then 48 + d else 87 + d).
Fixpoint hex_of_bytes (bs : list N) : string :=
  match bs with
  | [] => EmptyString
  | b :: r =>
      String (hex_digit (b / 16)) (String (hex_digit (b mod 16)) (hex_of_bytes r))
  end.

Module MD5.
Definition K : list N :=
  [0xd76aa478; 0xe8c7b756; 0x242070db; 0xc1bdceee; 0xf57c0faf; 0x4787c62a;
   0xa8304613; 0xfd469501; 0x698098d8; 0x8b44f7af; 0xffff5bb1; 0x895cd7be;
   0x6b901122; 0xfd987193; 0xa679438e; 0x49b40821; 0xf61e2562; 0xc040b340;
   0x265e5a51; 0xe9b6c7aa; 0xd62f105d; 0x02441453; 0xd8a1e681; 0xe7d3fbc8;
   0x21e1cde6; 0xc33707d6; 0xf4d50d87; 0x455a14ed; 0xa9e3e905; 0xfcefa3f8;
   0x676f02d9; 0x8d2a4c8a; 0xfffa3942; 0x8771f681; 0x6d9d6122; 0xfde5380c;
   0xa4beea44; 0x4bdecfa9; 0xf6bb4b60; 0xbebfbc70; 0x289b7ec6; 0xeaa127fa;
   0xd4ef3085; 0x04881d05; 0xd9d4d039; 0xe6db99e5; 0x1fa27cf8; 0xc4ac5665;
   0xf4292244; 0x432aff97; 0xab9423a7; 0xfc93a039; 0x655b59c3; 0x8f0ccc92;
   0xffeff47d; 0x85845dd1; 0x6fa87e4f; 0xfe2ce6e0; 0xa3014314; 0x4e0811a1;
   0xf7537e82; 0xbd3af235; 0x2ad7d2bb; 0xeb86d391].
Definition shifts : list N :=
  [7; 12; 17; 22; 7; 12; 17; 22; 7; 12; 17; 22; 7; 12; 17; 22;
   5; 9; 14; 20; 5; 9; 14; 20; 5; 9; 14; 20; 5; 9; 14; 20;
   4; 11; 16; 23; 4; 11; 16; 23; 4; 11; 16; 23; 4; 11; 16; 23;
   6; 10; 15; 21; 6; 10; 15; 21; 6; 10; 15; 21; 6; 10; 15; 21].

Definition regs : Type := N * N * N * N.
Definition init : regs := (0x67452301, 0xefcdab89, 0x98badcfe, 0x10325476).

Definition round (M : list N) (r : regs) (i : nat) : regs :=
  let '(A, B, C, D) := r in
  let '(F, g) :=
    if (i <? 16)%nat then
      (N.lor (N.land B C) (N.land (not32 B) D), i)
    else if (i <? 32)%nat then
      (N.lor (N.land D B) (N.land (not32 D) C), ((5 * i + 1) mod 16)%nat)
    else if (i <? 48)%nat then
      (N.lxor (N.lxor B C) D, ((3 * i + 5) mod 16)%nat)
    else
      (N.lxor C (N.lor B (not32 D)), ((7 * i) mod 16)%nat) in
  let F' := w32 (F + A + nth i K 0 + nth g M 0) in
  (D, w32 (B + rotl32 F' (nth i shifts 0)), B, C).

Definition compress (h : regs) (blk : list N) : regs :=
  let M := words le_word blk in
  let '(A, B, C, D) := fold_left (round M) (seq 0 64) h in
  let '(a0, b0, c0, d0) := h in
  (w32 (a0 + A), w32 (b0 + B), w32 (c0 + C), w32 (d0 + D)).

Definition digest (msg : list N) : list N :=
  let '(a, b, c, d) := fold_left compress (blocks (pad le_bytes msg)) init in
  le_bytes 4 a ++ le_bytes 4 b ++ le_bytes 4 c ++ le_bytes 4 d.
End MD5.

Module SHA256.
(** The constants are the first 32 bits of the fractional parts of the
    cube roots of the first 64 primes, the initial state those of the
    square roots of the first 8 primes. *)
Definition is_prime (p : N) : bool :=
  forallb (fun d => negb (p mod d =? 0)) (List.map N.of_nat (seq 2 (N.to_nat p - 2))).
Definition primes (n : nat) : list N :=
  firstn n (List.filter is_prime (List.map N.of_nat (seq 2 310))).

(** The integer part of the [k]-th root of [x], one bit at a time. *)
Fixpoint root (k x : N) (bits : nat) (r : N) : N :=
  match bits with
  | O => r
  | S b =>
      let r' := N.lor r (N.shiftl 1 (N.of_nat b)) in
      root k x b (if r' ^ k <=? x then r' else r)
  end.
Definition fraction (k p : N) : N := w32 (root k (p * 2 ^ (32 * k)) 40 0).

Definition K : list N := Eval vm_compute in List.map (fraction 3) (primes 64).
Definition init : list N := Eval vm_compute in List.map (fraction 2) (primes 8).

Definition extend (W : list N) (i : nat) : list N :=
  let w15 := nth (i - 15) W 0 in
  let w2 := nth (i - 2) W 0 in
  let s0 := N.lxor (N.lxor (rotr32 w15 7) (rotr32 w15 18)) (N.shiftr w15 3) in
  let s1 := N.lxor (N.lxor (rotr32 w2 17) (rotr32 w2 19)) (N.shiftr w2 10) in
  W ++ [w32 (nth (i - 16) W 0 + s0 + nth (i - 7) W 0 + s1)].

Definition schedule (blk : list N) : list N :=
  fold_left extend (seq 16 48) (words be_word blk).

Definition round (W : list N) (v : list N) (i : nat) : list N :=
  match v with
  | [a; b; c; d; e; f; g; h] =>
      let S1 := N.lxor (N.lxor (rotr32 e 6) (rotr32 e 11)) (rotr32 e 25) in
      let ch := N.lxor (N.land e f) (N.land (not32 e) g) in
      let t1 := w32 (h + S1 + ch + nth i K 0 + nth i W 0) in
      let S0 := N.lxor (N.lxor (rotr32 a 2) (rotr32 a 13)) (rotr32 a 22) in
      let maj := N.lxor (N.lxor (N.land a b) (N.land a c)) (N.land b c) in
      let t2 := w32 (S0 + maj) in
      [w32 (t1 + t2); a; b; c; w32 (d + t1); e; f; g]
  | _ => v
  end.

Definition compress (h : list N) (blk : list N) : list N :=
  let W := schedule blk in
  let v := fold_left (round W) (seq 0 64) h in
  List.map (fun p => w32 (fst p + snd p)) (combine h v).

Definition digest (msg : list N) : list N :=
  List.concat
    (List.map (be_bytes 4) (fold_left compress (blocks (pad be_bytes msg)) init)).
End SHA256.

Definition md5_hex (s : string) : string :=
  hex_of_bytes (MD5.digest (bytes_of_string s)).
Definition sha256_hex (s : string) : string :=
  hex_of_bytes (SHA256.digest (bytes_of_string s)).
End Crypto.

(** ** utils.js *)

Module Utils.
Import JsString.

(** The bindings of the module scope of [utils.js]: its four imports.
    The module [path] is not among them. *)
Definition imports : list string := ["got"; "fse"; "crypto"; "config"].

(** Evaluating an identifier: a [ReferenceError] when the scope does not
    bind it. *)
Definition resolve (scope : list string) (name : string) : completion unit :=
  if bool_decide (name ∈ scope) then Normal tt
  else Throw (name +:+ " is not defined").

Definition is_alpha (c : ascii) : bool :=
  let n := code (lower c) in (97 <=? n) && (n <=? 122).
Definition is_scheme_char (c : ascii) : bool :=
  let n := code c in
  is_alpha c || ((48 <=? n) && (n <=? 57)) || one_of "+-." c.

(** [new URL(url).pathname] for an absolute URL with an authority: the
    text between the authority and the first [?] or [#], [/] when that
    is empty.  [new URL] throws when there is no scheme or no host.
    (Dot segments and percent-encoding are left as written.) *)
Definition URL_pathname (url : string) : completion string :=
  let '(scheme, rest) := span is_scheme_char (trim url) in
  match scheme, strip_prefix "://" rest with
  | String c _, Some after =>
      if is_alpha c then
        let '(host, tail) := span (fun c => negb (one_of "/?#" c)) after in
        if is_empty host then Throw "Invalid URL"
        else
          let '(p, _) := span (fun c => negb (one_of "?#" c)) tail in
          Normal (if is_empty p then "/" else p)
      else Throw "Invalid URL"
  | _, _ => Throw "Invalid URL"
  end.

(** [path.basename]: the last segment, trailing slashes dropped. *)
Fixpoint drop_trailing_slashes (s : string) : string :=
  match s with
  | String c r =>
      match drop_trailing_slashes r with
      | EmptyString => if is_char c "/" then EmptyString else str1 c
      | r' => String c r'
      end
  | EmptyString => EmptyString
  end.
Fixpoint last_segment (acc s : string) : string :=
  match s with
  | EmptyString => acc
  | String c r =>
      if is_char c "/" then last_segment EmptyString r
      else last_segment (acc +:+ str1 c) r
  end.
Definition path_basename (p : string) : string :=
  last_segment EmptyString (drop_trailing_slashes p).

(** [url.match(/\.(jpg|jpeg|png|gif|webp|svg|bmp)(\?|#|$)/i)], group 1. *)
Definition extensions : list string :=
  ["jpg"; "jpeg"; "png"; "gif"; "webp"; "svg"; "bmp"].
Definition extension_here (s : string) : option string :=
  List.find
    (fun e =>
       match strip_prefix_ci e s with
       | Some EmptyString => true
       | Some (String c _) => one_of "?#" c
       | None => false
       end)
    extensions.
Fixpoint extMatch (url : string) : option string :=
  match url with
  | EmptyString => None
  | String c r =>
      match (if is_char c "." then extension_here r else None) with
      | Some e => Some (take (String.length e) r)
      | None => extMatch r
      end
  end.

Definition hash8 (url : string) : string := take 8 (Crypto.md5_hex url).

(** The [try] block of [generateImageFileName], run in a module scope. *)
Definition generateImageFileName_try (scope : list string) (url : string)
  : completion string :=
  pathname ← URL_pathname url;
  _ ← resolve scope "path";
  let fileName := path_basename pathname in
  if is_empty fileName || negb (includes "." fileName) then
    let ext := match extMatch url with Some e => e | None => "jpg" end in
    Normal (hash8 url +:+ "." +:+ ext)
  else
    Normal (map_chars
              (fun c => if one_of "<>:/\|?*" c || is_char c dquote then "_"%char else c)
              fileName).

Definition generateImageFileName_in (scope : list string) (url : string) : string :=
  match generateImageFileName_try scope url with
  | Normal fileName => fileName
  | Throw _ => hash8 url +:+ ".jpg"
  end.

(** [generateImageFileName], as [utils.js] exports it. *)
Definition generateImageFileName (url : string) : string :=
  generateImageFileName_in imports url.

Definition calculateFileHash (content : string) : string :=
  Crypto.sha256_hex content.

End Utils.

(** ** The world: files, network and clock *)

Module Node.
Import JsString.

(** What [got(url)] resolves to, or the message of the error it rejects
    with. *)
Inductive response : Type :=
| Body (rawBody : string)
| RequestError (message : string).

(** The answers of the outside world: [got o n url] to the [n]-th
    request of the run, [clock o n] to the [n]-th reading of
    [new Date().toISOString()]. *)
Record oracle : Type := {
  got : nat -> string -> response;
  clock : nat -> string;
}.

Inductive event : Type :=
| DownloadStart (localPath : string)
| Request (n : nat) (url : string)
| DownloadEnd (localPath : string) (ok : bool).

(** An entry of [mapping.json]. *)
Inductive mappingValue : Type :=
| Metadata (sourceFileHash lastProcessed : string)
| Asset (originalUrl localPath : string).

(** An entry of [missing-images.json]. *)
Record missingImage : Type := {
  originalUrl : string;
  expectedPath : string;
  localFilePath : string;
  error : string;
  sourceFile : string;
}.

Inductive content : Type :=
| Text (text : string)
| MappingJson (mapping : gmap string mappingValue)
| MissingJson (missing : gmap string missingImage).

(** The world of a run.  [files] are the files other than the log files
    of [lib/logger.js], which the functions below do not write. *)
Record world : Type := {
  files : gmap string content;
  requests : nat;
  ticks : nat;
  trace : list event;
}.

Definition join (dir name : string) : string := dir +:+ "/" +:+ name.

(** [path.dirname]: the text before the last [/]. *)
Fixpoint before_last_slash (p : string) : option string :=
  match p with
  | EmptyString => None
  | String c r =>
      match before_last_slash r with
      | Some d => Some (String c d)
      | None => if is_char c "/" then Some EmptyString else None
      end
  end.
Definition path_dirname (p : string) : string :=
  match before_last_slash p with
  | Some EmptyString => "/"
  | Some d => d
  | None => "."
  end.

Definition existsSync (w : world) (p : string) : bool :=
  bool_decide (is_Some (files w !! p)).

(** [fs.readFileSync(p, "utf-8")]; [None] when it throws. *)
Definition readFileSync (w : world) (p : string) : option content := files w !! p.

Definition readText (w : world) (p : string) : option string :=
  match files w !! p with
  | Some (Text s) => Some s
  | _ => None
  end.

(** [JSON.parse(fs.readFileSync(p, "utf-8"))] for the two JSON files;
    [None] when reading or parsing throws. *)
Definition readMapping (w : world) (p : string) : option (gmap string mappingValue) :=
  match files w !! p with
  | Some (MappingJson m) => Some m
  | _ => None
  end.
Definition readMissing (w : world) (p : string) : option (gmap string missingImage) :=
  match files w !! p with
  | Some (MissingJson m) => Some m
  | _ => None
  end.

Definition writeFileSync (p : string) (c : content) (w : world) : world :=
  {| files := <[p := c]> (files w); requests := requests w;
     ticks := ticks w; trace := trace w |}.

Definition unlinkSync (p : string) (w : world) : world :=
  {| files := delete p (files w); requests := requests w;
     ticks := ticks w; trace := trace w |}.

Definition emit (e : event) (w : world) : world :=
  {| files := files w; requests := requests w;
     ticks := ticks w; trace := trace w ++ [e] |}.

(** One request: the oracle's answer to it, and the world in which it
    has been made. *)
Definition request (o : oracle) (url : string) (w : world) : response * world :=
  (got o (requests w) url,
   {| files := files w; requests := S (requests w);
      ticks := ticks w; trace := trace w ++ [Request (requests w) url] |}).

Definition toISOString (o : oracle) (w : world) : string * world :=
  (clock o (ticks w),
   {| files := files w; requests := requests w;
      ticks := S (ticks w); trace := trace w |}).

(** [fs.readdirSync(dir)]: the names of the files directly under [dir]. *)
Definition entry_of (dir : string) (p : string) : option string :=
  match strip_prefix (dir +:+ "/") p with
  | Some name => if includes "/" name || is_empty name then None else Some name
  | None => None
  end.
Definition readdirSync (w : world) (dir : string) : list string :=
  omap (entry_of dir) (List.map fst (map_to_list (files w))).

(** The number of downloads started and not ended after each event, and
    its maximum over a trace. *)
Definition in_flight_after (n : nat) (e : event) : nat :=
  match e with
  | DownloadStart _ => S n
  | DownloadEnd _ _ => pred n
  | Request _ _ => n
  end.
Fixpoint peak_from (n : nat) (t : list event) : nat :=
  match t with
  | [] => n
  | e :: t' => Nat.max n (peak_from (in_flight_after n e) t')
  end.
Definition peak_in_flight (t : list event) : nat := peak_from 0 t.

Definition is_request (e : event) : bool :=
  match e with Request _ _ => true | _ => false end.
Definition network_calls (t : list event) : nat :=
  length (List.filter is_request t).

End Node.

(** ** lib/config.js *)

Module Config.
(** The settings read from the environment that the pipeline uses, for
    the values of [parseInt] that are natural numbers.  A [RETRY_COUNT]
    that is negative or [NaN] makes the loops over the attempts behave as
    [0] does.  For [MAX_CONCURRENT] the loop over the chunks of the source
    does not end at [0] or below, and at [NaN] it makes one empty chunk, so
    that no download is awaited: what is stated below of the awaited
    downloads is stated for a positive [maxConcurrent]. *)
Record config : Type := {
  maxConcurrent : nat;
  retryCount : nat;
}.
Definition defaultConfig : config := {| maxConcurrent := 5; retryCount := 3 |}.

Definition DOWNLOADS_DIR : string := "downloads".
Definition OUTPUT_DIR : string := "downloads-with-images".
Definition IMAGES_DIR_NAME : string := "images".
End Config.

(** ** process-images.js: extraction of the image references *)

Module Extract.
Import JsString.

Inductive syntax : Type := markdown | html.

(** An element of the array built by [extractImageUrls]; [alt] and
    [title] are only set on [markdown] elements. *)
Record imageInfo : Type := {
  fullMatch : string;
  url : string;
  type : syntax;
  alt : string;
  title : string;
}.

Definition is_quote (c : ascii) : bool := is_char c dquote || is_char c squote.

(** [https?:\/\/]: the text matched and what follows it. *)
Definition scheme (eq : ascii -> ascii -> bool) (s : string) : option (string * string) :=
  match strip eq "https://" s with
  | Some r => Some (take 8 s, r)
  | None =>
      match strip eq "http://" s with
      | Some r => Some (take 7 s, r)
      | None => None
      end
  end.

(** One attempt of [markdownRegex] at the head of [s].  In order: the
    two characters that open an image, a run without closing bracket
    (the alt text), the closing bracket and an opening parenthesis, the
    scheme, a non-empty run without space, double quote or closing
    parenthesis, optionally spaces and a title between double quotes,
    and a closing parenthesis.  Every run is followed by a character
    outside its class, so the greedy choice is the only one that can
    succeed. *)
Definition markdownRegex (s : string) : option imageInfo :=
  s1 ← strip_prefix "![" s;
  let '(alt, s2) := span (fun c => negb (is_char c "]")) s1 in
  s3 ← strip_prefix "](" s2;
  '(sch, s4) ← scheme is_char s3;
  let '(body, s5) :=
    span (fun c => negb (is_space c || is_char c dquote || is_char c ")")) s4 in
  if is_empty body then None
  else
    let url := sch +:+ body in
    let titled : option (string * string) :=
      let '(ws, s6) := span is_space s5 in
      if is_empty ws then None
      else
        s7 ← strip_prefix (str1 dquote) s6;
        let '(title, s8) := span (fun c => negb (is_char c dquote)) s7 in
        s9 ← strip_prefix (str1 dquote) s8;
        _ ← strip_prefix ")" s9;
        Some (title, ws +:+ str1 dquote +:+ title +:+ str1 dquote) in
    match titled with
    | Some (title, t) =>
        Some {| fullMatch := "![" +:+ alt +:+ "](" +:+ url +:+ t +:+ ")";
                url := trim url; type := markdown; alt := alt; title := title |}
    | None =>
        _ ← strip_prefix ")" s5;
        Some {| fullMatch := "![" +:+ alt +:+ "](" +:+ url +:+ ")";
                url := trim url; type := markdown; alt := alt;
                title := EmptyString |}
    end.

(** The part of [htmlRegex] from [src=] on, at the head of [s] and under
    the [i] flag: [src=], a quote of either kind, the scheme, a non-empty
    run without quote, a quote, a run without [>], and [>].  The URL
    captured and the number of characters matched. *)
Definition src_here (s : string) : option (string * nat) :=
  s1 ← strip_prefix_ci "src=" s;
  match s1 with
  | String q s2 =>
      if is_quote q then
        '(sch, s3) ← scheme is_char_ci s2;
        let '(body, s4) := span (fun c => negb (is_quote c)) s3 in
        if is_empty body then None
        else
          match s4 with
          | String _ s5 =>
              let '(rest, s6) := span (fun c => negb (is_char c ">")) s5 in
              match s6 with
              | String _ _ =>
                  Some (sch +:+ body,
                        6 + String.length sch + String.length body
                        + String.length rest + 1)
              | EmptyString => None
              end
          | EmptyString => None
          end
      else None
  | EmptyString => None
  end.

(** The backtracking of [\s+[^>]*] before [src=]: of the [n + 1] places
    it can stop at, the furthest one from which the rest matches. *)
Fixpoint src_last (s : string) (n : nat) : option (string * nat) :=
  match n, s with
  | S n', String _ r =>
      match src_last r n' with
      | Some (u, l) => Some (u, S l)
      | None => src_here s
      end
  | _, _ => src_here s
  end.

(** One attempt of [htmlRegex] at the head of [s]: [<img], spaces, a run
    without [>], then the part from [src=] on.  The text matched and the
    URL captured. *)
Definition htmlRegex (s : string) : option (string * string) :=
  s1 ← strip_prefix_ci "<img" s;
  match s1 with
  | String c s2 =>
      if is_space c then
        let '(run, _) := span (fun c => negb (is_char c ">")) s2 in
        '(u, l) ← src_last s2 (String.length run);
        Some (take (5 + l) s, u)
      else None
  | EmptyString => None
  end.

(** [while ((match = regex.exec(content)) !== null)] for a regular
    expression with the [g] flag that never matches the empty string:
    the matches from left to right, each search starting where the
    previous match ended.  [skip] counts the characters of the previous
    match still to pass. *)
Fixpoint exec_all {A} (regex : string -> option A) (size : A -> nat)
    (content : string) (skip : nat) : list A :=
  match content with
  | EmptyString => []
  | String _ rest =>
      match skip with
      | S k => exec_all regex size rest k
      | O =>
          match regex content with
          | Some m => m :: exec_all regex size rest (pred (size m))
          | None => exec_all regex size rest 0
          end
      end
  end.

Definition alreadyMatched (urls : list imageInfo) (m : string * string) : bool :=
  existsb
    (fun item => String.eqb (fullMatch item) (fst m) || String.eqb (url item) (trim (snd m)))
    urls.

Definition extractImageUrls (content : string) : list imageInfo :=
  let urls :=
    exec_all markdownRegex (fun i => String.length (fullMatch i)) content 0 in
  fold_left
    (fun urls m =>
       if alreadyMatched urls m then urls
       else urls ++ [{| fullMatch := fst m; url := trim (snd m); type := html;
                        alt := EmptyString; title := EmptyString |}])
    (exec_all htmlRegex (fun m => String.length (fst m)) content 0)
    urls.

End Extract.

(** ** process-images.js: the Sync Engine and the Cleanup Pass *)

Module ProcessImages.
Import JsString Node Config Extract.
Import Utils.

(** [log] is the [Logger] object that [createLogger] returns.  Its methods
    [info], [warn] and [error] return normally: they print the message and
    append it to the log file [Logger.getLogFilePath "process-images" _],
    which is not among the [files] of the world, and they are left out of
    the functions below.  The object itself is not a function, and
    applying it throws a [TypeError]. *)
Definition log_applied : completion unit := Throw "log is not a function".

(** The promise that a call of [downloadImage] returns.  The call runs up
    to its first [await] at once: the target exists and the promise is
    already fulfilled, or the first request is on its way. *)
Inductive promise : Type :=
| Fulfilled (value : bool)
| Pending (url localPath : string).

Definition downloadImage (url localPath : string) (w : world) : promise * world :=
  if existsSync w localPath then (Fulfilled true, w)
  else (Pending url localPath, emit (DownloadStart localPath) w).

(** The [for] loop of [downloadImage], from attempt number [attempt] with
    [remaining] attempts left. *)
Fixpoint attempts (o : oracle) (url localPath : string) (attempt remaining : nat)
    (w : world) : completion bool * world :=
  match remaining with
  | O => (Normal false, w)
  | S rest =>
      let '(r, w1) := request o url w in
      match r with
      | Body rawBody => (Normal true, writeFileSync localPath (Text rawBody) w1)
      | RequestError message =>
          match rest with
          | O => (Throw ("下载失败 (尝试 " +:+ pretty attempt +:+ " 次): " +:+ message), w1)
          | S _ => attempts o url localPath (S attempt) rest w1
          end
      end
  end.

Definition is_normal {A} (c : completion A) : bool :=
  match c with Normal _ => true | Throw _ => false end.

(** The rest of a call of [downloadImage], run when its promise is
    awaited. *)
Definition settle (cfg : config) (o : oracle) (pr : promise) (w : world)
  : completion bool * world :=
  match pr with
  | Fulfilled v => (Normal v, w)
  | Pending url localPath =>
      let '(r, w1) := attempts o url localPath 1 (retryCount cfg) w in
      (r, emit (DownloadEnd localPath (is_normal r)) w1)
  end.

(** [mapping._metadata && mapping._metadata.sourceFileHash]: the empty
    string when either is missing. *)
Definition lastProcessedHash (mapping : gmap string mappingValue) : string :=
  match mapping !! "_metadata" with
  | Some (Metadata h _) => h
  | _ => EmptyString
  end.

Definition allImagesExist (w : world) (imagesDir : string) (imageUrls : list imageInfo)
  : bool :=
  forallb
    (fun imageInfo => existsSync w (join imagesDir (generateImageFileName (url imageInfo))))
    imageUrls.

Definition isFileProcessed (w : world) (filePath outputFilePath mappingPath : string)
  : bool :=
  if negb (existsSync w outputFilePath) then false
  else if negb (existsSync w mappingPath) then false
  else
    match readText w filePath with
    | None => false
    | Some content =>
        let contentHash := calculateFileHash content in
        match readMapping w mappingPath with
        | None => false
        | Some mapping =>
            let last := lastProcessedHash mapping in
            if negb (is_empty last) && negb (String.eqb last contentHash) then false
            else
              let imageUrls := extractImageUrls content in
              match imageUrls with
              | [] => String.eqb last contentHash || is_empty last
              | _ =>
                  let imagesDir := join (path_dirname outputFilePath) IMAGES_DIR_NAME in
                  if negb (allImagesExist w imagesDir imageUrls) then false
                  else String.eqb last contentHash || is_empty last
              end
        end
    end.

(** The three objects that [processFolder] creates and every call of
    [processMarkdownFile] of the pass mutates. *)
Record pass : Type := {
  mapping : gmap string mappingValue;
  missingImages : gmap string missingImage;
  usedImageFiles : gset string;
}.

Record result : Type := {
  processed : bool;
  skipped : bool;
  imagesCount : nat;
  downloadedCount : nat;
  failedCount : nat;
}.

(** A value of the [downloadResults] map. *)
Record downloadResult : Type := {
  success : bool;
  imageFileName : string;
  relativeImagePath : string;
  found : imageInfo;
}.

(** An element of [downloadPromises], with what its handlers close
    over. *)
Record download : Type := {
  d_promise : promise;
  d_imageFileName : string;
  d_relativeImagePath : string;
  d_localImagePath : string;
  d_found : imageInfo;
}.

(** The variables of [processMarkdownFile] that its loops update. *)
Record locals : Type := {
  l_pass : pass;
  l_world : world;
  l_downloadedCount : nat;
  l_downloadResults : gmap string downloadResult;
  l_downloadPromises : list download;
}.

(** One turn of the loop over [imageUrls] that starts the downloads. *)
Definition start (imagesDir : string) (l : locals) (imageInfo : imageInfo) : locals :=
  let imageFileName := generateImageFileName (url imageInfo) in
  let localImagePath := join imagesDir imageFileName in
  let relativeImagePath := join IMAGES_DIR_NAME imageFileName in
  let p := l_pass l in
  let p1 :=
    {| mapping := <[imageFileName := Asset (url imageInfo) relativeImagePath]> (mapping p);
       missingImages := missingImages p;
       usedImageFiles := usedImageFiles p ∪ {[imageFileName]} |} in
  if existsSync (l_world l) localImagePath then
    {| l_pass := p1; l_world := l_world l;
       l_downloadedCount := S (l_downloadedCount l);
       l_downloadResults :=
         <[fullMatch imageInfo :=
             {| success := true; imageFileName := imageFileName;
                relativeImagePath := relativeImagePath; found := imageInfo |}]>
           (l_downloadResults l);
       l_downloadPromises := l_downloadPromises l |}
  else
    let '(pr, w1) := downloadImage (url imageInfo) localImagePath (l_world l) in
    {| l_pass := p1; l_world := w1;
       l_downloadedCount := l_downloadedCount l;
       l_downloadResults := l_downloadResults l;
       l_downloadPromises :=
         l_downloadPromises l ++
         [{| d_promise := pr; d_imageFileName := imageFileName;
             d_relativeImagePath := relativeImagePath;
             d_localImagePath := localImagePath; d_found := imageInfo |}] |}.

(** A download promise settles and its [then] or [catch] handler runs. *)
Definition finish (cfg : config) (o : oracle) (fileName : string)
    (l : locals) (d : download) : locals :=
  let '(r, w1) := settle cfg o (d_promise d) (l_world l) in
  let outcome ok :=
    {| success := ok; imageFileName := d_imageFileName d;
       relativeImagePath := d_relativeImagePath d; found := d_found d |} in
  match r with
  | Normal _ =>
      {| l_pass := l_pass l; l_world := w1;
         l_downloadedCount := S (l_downloadedCount l);
         l_downloadResults :=
           <[fullMatch (d_found d) := outcome true]> (l_downloadResults l);
         l_downloadPromises := l_downloadPromises l |}
  | Throw message =>
      let p := l_pass l in
      {| l_pass :=
           {| mapping := mapping p;
              missingImages :=
                <[d_imageFileName d :=
                    {| originalUrl := url (d_found d);
                       expectedPath := d_relativeImagePath d;
                       localFilePath := d_localImagePath d;
                       error := message;
                       sourceFile := fileName |}]> (missingImages p);
              usedImageFiles := usedImageFiles p |};
         l_world := w1;
         l_downloadedCount := l_downloadedCount l;
         l_downloadResults :=
           <[fullMatch (d_found d) := outcome false]> (l_downloadResults l);
         l_downloadPromises := l_downloadPromises l |}
  end.

(** [for (i = 0; i < l.length; i += n) chunks.push(l.slice(i, i + n))].
    The source loops for ever when [n] is [0] and [l] is not empty; for
    [n >= 1] the fuel [length l] is enough. *)
Fixpoint slices {A} (fuel n : nat) (l : list A) : list (list A) :=
  match fuel with
  | O => []
  | S f =>
      match l with
      | [] => []
      | _ => firstn n l :: slices f n (skipn n l)
      end
  end.
Definition chunks {A} (n : nat) (l : list A) : list (list A) := slices (length l) n l.

(** [for (const chunk of chunks) await Promise.all(chunk)]: the promises
    of a chunk are awaited together; they are settled here in the order
    of the chunk. *)
Definition awaitAll (cfg : config) (o : oracle) (fileName : string)
    (l : locals) (cs : list (list download)) : locals :=
  fold_left (fun l chunk => fold_left (finish cfg o fileName) chunk l) cs l.

(** The first match of the regular expression of the [src] attribute at
    the head of [s], under the [i] flag ([src=], a quote, a non-empty run
    without quote, a quote): its length. *)
Definition src_attribute (s : string) : option nat :=
  s1 ← strip_prefix_ci "src=" s;
  match s1 with
  | String q s2 =>
      if is_quote q then
        let '(v, s3) := span (fun c => negb (is_quote c)) s2 in
        match v, s3 with
        | String _ _, String _ _ => Some (6 + String.length v)
        | _, _ => None
        end
      else None
  | EmptyString => None
  end.

(** [tag.replace(regex, replacement)] for that regular expression; the
    replacement holds a relative image path, which has no [$]. *)
Fixpoint replace_src (replacement tag : string) : string :=
  match src_attribute tag with
  | Some n => replacement +:+ drop n tag
  | None =>
      match tag with
      | String c r => String c (replace_src replacement r)
      | EmptyString => EmptyString
      end
  end.

(** One turn of the loop that rewrites the links. *)
Definition rewrite (downloadResults : gmap string downloadResult)
    (newContent : string) (imageInfo : imageInfo) : string :=
  match downloadResults !! fullMatch imageInfo with
  | Some r =>
      if success r then
        match type (found r) with
        | markdown =>
            let titlePart :=
              if is_empty (title (found r)) then EmptyString
              else " " +:+ str1 dquote +:+ title (found r) +:+ str1 dquote in
            let newMarkdown :=
              "![" +:+ alt (found r) +:+ "](" +:+ relativeImagePath r
              +:+ titlePart +:+ ")" in
            replace (fullMatch imageInfo) newMarkdown newContent
        | html =>
            let newHtml :=
              replace_src
                ("src=" +:+ str1 dquote +:+ relativeImagePath r +:+ str1 dquote)
                (fullMatch imageInfo) in
            replace (fullMatch imageInfo) newHtml newContent
        end
      else newContent
  | None => newContent
  end.

(** [mapping._metadata.sourceFileHash = contentHash] and
    [mapping._metadata.lastProcessed = new Date().toISOString()]. *)
Definition setMetadata (o : oracle) (contentHash : string) (p : pass) (w : world)
  : pass * world :=
  let '(now, w1) := toISOString o w in
  ({| mapping := <["_metadata" := Metadata contentHash now]> (mapping p);
      missingImages := missingImages p;
      usedImageFiles := usedImageFiles p |}, w1).

Definition failure : result :=
  {| processed := false; skipped := false; imagesCount := 0;
     downloadedCount := 0; failedCount := 0 |}.

Definition processMarkdownFile (cfg : config) (o : oracle)
    (filePath outputDir imagesDir mappingPath : string) (p : pass) (w : world)
  : result * pass * world :=
  let fileName := path_basename filePath in
  let outputFilePath := join outputDir fileName in
  match readText w filePath with
  | None => (failure, p, w)
  | Some content =>
      let contentHash := calculateFileHash content in
      if isFileProcessed w filePath outputFilePath mappingPath then
        let names :=
          List.map (fun i => generateImageFileName (url i)) (extractImageUrls content) in
        let existingImagesCount :=
          match readMapping w mappingPath with
          | Some existingMapping =>
              length (List.filter (fun key => negb (starts_with "_" key))
                        (List.map fst (map_to_list existingMapping)))
          | None => 0
          end in
        ({| processed := true; skipped := true; imagesCount := existingImagesCount;
            downloadedCount := 0; failedCount := 0 |},
         {| mapping := mapping p; missingImages := missingImages p;
            usedImageFiles := usedImageFiles p ∪ list_to_set names |},
         w)
      else
        let imageUrls := extractImageUrls content in
        match imageUrls with
        | [] =>
            let w1 := writeFileSync outputFilePath (Text content) w in
            let '(p2, w2) := setMetadata o contentHash p w1 in
            ({| processed := true; skipped := false; imagesCount := 0;
                downloadedCount := 0; failedCount := 0 |},
             p2, writeFileSync mappingPath (MappingJson (mapping p2)) w2)
        | _ =>
            let l0 :=
              {| l_pass := p; l_world := w; l_downloadedCount := 0;
                 l_downloadResults := ∅; l_downloadPromises := [] |} in
            let l1 := fold_left (start imagesDir) imageUrls l0 in
            let l2 :=
              awaitAll cfg o fileName l1
                (chunks (maxConcurrent cfg) (l_downloadPromises l1)) in
            let newContent :=
              fold_left (rewrite (l_downloadResults l2)) imageUrls content in
            let w3 := writeFileSync outputFilePath (Text newContent) (l_world l2) in
            let '(p4, w4) := setMetadata o contentHash (l_pass l2) w3 in
            ({| processed := true; skipped := false;
                imagesCount := length imageUrls;
                downloadedCount := l_downloadedCount l2;
                failedCount := length imageUrls - l_downloadedCount l2 |},
             p4, w4)
        end
  end.

Record folderResult : Type := {
  f_processed : nat;
  f_skipped : nat;
  f_total : nat;
  f_imagesCount : nat;
  f_downloadedCount : nat;
  f_failedCount : nat;
  f_cleanedCount : nat;
}.

(** The counters of [processFolder] and the objects of the pass. *)
Record totals : Type := {
  t_pass : pass;
  t_world : world;
  t_processedCount : nat;
  t_skippedCount : nat;
  t_totalImagesCount : nat;
  t_totalDownloadedCount : nat;
  t_totalFailedCount : nat;
}.

(** One turn of the loop over the files of the folder. *)
Definition processFile (cfg : config) (o : oracle)
    (outputFolderPath imagesDir mappingPath : string) (t : totals) (file : string)
  : totals :=
  let '(r, p, w) :=
    processMarkdownFile cfg o file outputFolderPath imagesDir mappingPath
      (t_pass t) (t_world t) in
  if processed r then
    {| t_pass := p; t_world := w;
       t_processedCount := S (t_processedCount t);
       t_skippedCount := if skipped r then S (t_skippedCount t) else t_skippedCount t;
       t_totalImagesCount := t_totalImagesCount t + imagesCount r;
       t_totalDownloadedCount := t_totalDownloadedCount t + downloadedCount r;
       t_totalFailedCount := t_totalFailedCount t + failedCount r |}
  else
    {| t_pass := p; t_world := w;
       t_processedCount := t_processedCount t;
       t_skippedCount := t_skippedCount t;
       t_totalImagesCount := t_totalImagesCount t;
       t_totalDownloadedCount := t_totalDownloadedCount t;
       t_totalFailedCount := t_totalFailedCount t |}.

(** One turn of the loop that deletes the image files the pass did not
    use: the world and [cleanedCount]. *)
Definition cleanFile (imagesDir : string) (usedImageFiles : gset string)
    (s : world * nat) (imageFile : string) : world * nat :=
  if bool_decide (imageFile ∈ usedImageFiles) then s
  else (unlinkSync (join imagesDir imageFile) (fst s), S (snd s)).

(** [cleanedMapping]: the metadata, then the entry of every used image
    file that [mapping] has. *)
Definition cleanedMapping (mapping : gmap string mappingValue)
    (usedImageFiles : gset string) : gmap string mappingValue :=
  let kept :=
    match mapping !! "_metadata" with
    | Some metadata => <["_metadata" := metadata]> ∅
    | None => ∅
    end in
  fold_left
    (fun cleaned imageFile =>
       match mapping !! imageFile with
       | Some entry => <[imageFile := entry]> cleaned
       | None => cleaned
       end)
    (elements usedImageFiles) kept.

(** [processFolder folderPath outputBaseDir] for the folder
    [DOWNLOADS_DIR/folderName] and [OUTPUT_DIR], as [main] calls it.
    Beside its result it gives the objects of the pass as they are when
    it ends, and the world.  The messages of the methods of [log] are
    left out; the two applications of [log] itself are kept.  They are
    the only place where the function throws, before any document is read
    and any file of the world is written. *)
Definition processFolder (cfg : config) (o : oracle) (folderName : string) (w : world)
  : completion (folderResult * pass * world) :=
  let folderPath := join DOWNLOADS_DIR folderName in
  let outputFolderPath := join OUTPUT_DIR folderName in
  let imagesDir := join outputFolderPath IMAGES_DIR_NAME in
  let files :=
    List.map (join folderPath)
      (List.filter (ends_with ".md") (readdirSync w folderPath)) in
  let nothing :=
    {| mapping := ∅; missingImages := ∅; usedImageFiles := ∅ |} in
  match files with
  | [] =>
      Normal ({| f_processed := 0; f_skipped := 0; f_total := 0; f_imagesCount := 0;
                 f_downloadedCount := 0; f_failedCount := 0; f_cleanedCount := 0 |},
              nothing, w)
  | _ =>
      let mappingPath := join outputFolderPath "mapping.json" in
      let missingImagesPath := join outputFolderPath "missing-images.json" in
      _ ← (if existsSync w mappingPath then
             (* try { existingMapping = JSON.parse(...); log(...) }
                catch (error) { log(...) } *)
             match
               (match readMapping w mappingPath with
                | Some existingMapping => log_applied
                | None => Throw "Unexpected token"
                end)
             with
             | Normal _ => Normal tt
             | Throw _ => log_applied
             end
           else Normal tt);
      let t :=
        fold_left (processFile cfg o outputFolderPath imagesDir mappingPath) files
          {| t_pass := nothing; t_world := w; t_processedCount := 0;
             t_skippedCount := 0; t_totalImagesCount := 0;
             t_totalDownloadedCount := 0; t_totalFailedCount := 0 |} in
      let p := t_pass t in
      let '(w1, cleanedCount) :=
        fold_left (cleanFile imagesDir (usedImageFiles p))
          (readdirSync (t_world t) imagesDir) (t_world t, 0) in
      let w2 :=
        writeFileSync mappingPath
          (MappingJson (cleanedMapping (mapping p) (usedImageFiles p))) w1 in
      let w3 :=
        if negb (bool_decide (missingImages p = ∅)) then
          writeFileSync missingImagesPath (MissingJson (missingImages p)) w2
        else if existsSync w2 missingImagesPath then unlinkSync missingImagesPath w2
        else w2 in
      Normal ({| f_processed := t_processedCount t; f_skipped := t_skippedCount t;
                 f_total := length files; f_imagesCount := t_totalImagesCount t;
                 f_downloadedCount := t_totalDownloadedCount t;
                 f_failedCount := t_totalFailedCount t;
                 f_cleanedCount := cleanedCount |},
              p, w3)
  end.

End ProcessImages.

(** ** fix-missing-images.js: the Recovery Scanner *)

Module FixMissingImages.
Import JsString Node Config.

(** [tryDownloadImage]: the [for] loop from attempt number [attempt]
    with [remaining] attempts left. *)
Fixpoint attempts (o : oracle) (url localPath : string) (attempt remaining : nat)
    (w : world) : completion bool * world :=
  match remaining with
  | O => (Normal false, w)
  | S rest =>
      let '(r, w1) := request o url w in
      match r with
      | Body rawBody => (Normal true, writeFileSync localPath (Text rawBody) w1)
      | RequestError message =>
          match rest with
          | O => (Throw ("下载失败 (尝试 " +:+ pretty attempt +:+ " 次): " +:+ message), w1)
          | S _ => attempts o url localPath (S attempt) rest w1
          end
      end
  end.

Definition tryDownloadImage (cfg : config) (o : oracle) (url localPath : string)
    (w : world) : completion bool * world :=
  let '(r, w1) :=
    attempts o url localPath 1 (retryCount cfg) (emit (DownloadStart localPath) w) in
  (r, emit (DownloadEnd localPath
              (match r with Normal true => true | _ => false end)) w1).

(** An element of the [missing] array. *)
Record missingItem : Type := {
  fileName : string;
  m_originalUrl : string;
  m_expectedPath : string;
  m_error : string;
  m_sourceFile : string;
}.

(** An element of the [orphaned] array. *)
Record orphanedItem : Type := {
  o_fileName : string;
  o_filePath : string;
}.

Definition fromLedger (w : world) (imagesDir : string)
    (missing : list missingItem) (entry : string * missingImage) : list missingItem :=
  let '(fileName, info) := entry in
  if negb (existsSync w (join imagesDir fileName)) then
    missing ++
    [{| fileName := fileName;
        m_originalUrl := originalUrl info;
        m_expectedPath :=
          if is_empty (localFilePath info) then join imagesDir fileName
          else localFilePath info;
        m_error := error info;
        m_sourceFile := sourceFile info |}]
  else missing.

Definition fromMapping (w : world) (imagesDir : string)
    (missing : list missingItem) (entry : string * mappingValue) : list missingItem :=
  let '(fileName, info) := entry in
  if starts_with "_" fileName then missing
  else
    let imagePath := join imagesDir fileName in
    if negb (existsSync w imagePath) then
      if existsb (fun item => String.eqb (FixMissingImages.fileName item) fileName) missing
      then missing
      else
        missing ++
        [{| fileName := fileName;
            m_originalUrl :=
              match info with Asset u _ => u | Metadata _ _ => EmptyString end;
            m_expectedPath := imagePath;
            m_error := "文件不存在";
            m_sourceFile := "未知" |}]
    else missing.

Definition scanForMissingImages (w : world) (folderPath : string)
  : list missingItem * list orphanedItem :=
  let mappingPath := join folderPath "mapping.json" in
  let missingImagesPath := join folderPath "missing-images.json" in
  let imagesDir := join folderPath IMAGES_DIR_NAME in
  let missing1 :=
    match readMissing w missingImagesPath with
    | Some missingImages => fold_left (fromLedger w imagesDir) (map_to_list missingImages) []
    | None => []
    end in
  let missing2 :=
    match readMapping w mappingPath with
    | Some mapping => fold_left (fromMapping w imagesDir) (map_to_list mapping) missing1
    | None => missing1
    end in
  let orphaned :=
    let mapping : option (gmap string mappingValue) :=
      if existsSync w mappingPath then readMapping w mappingPath else Some ∅ in
    match mapping with
    | Some mapping =>
        List.map (fun file => {| o_fileName := file; o_filePath := join imagesDir file |})
          (List.filter (fun file => negb (bool_decide (is_Some (mapping !! file))))
             (readdirSync w imagesDir))
    | None => []
    end in
  (missing2, orphaned).

Definition updateMissingImagesFile (folderPath : string)
    (missingImages : gmap string missingImage) (w : world) : world :=
  let missingImagesPath := join folderPath "missing-images.json" in
  if bool_decide (missingImages = ∅) then
    if existsSync w missingImagesPath then unlinkSync missingImagesPath w else w
  else writeFileSync missingImagesPath (MissingJson missingImages) w.

Record result : Type := {
  fixed : nat;
  failed : nat;
  orphaned : nat;
}.

(** The variables of [processFolder] that its loop updates. *)
Record locals : Type := {
  l_world : world;
  l_missingImages : gmap string missingImage;
  l_fixedCount : nat;
  l_failedCount : nat;
}.

(** One turn of the loop over the [missing] array. *)
Definition retry (cfg : config) (o : oracle) (l : locals) (item : missingItem) : locals :=
  let '(r, w1) :=
    tryDownloadImage cfg o (m_originalUrl item) (m_expectedPath item) (l_world l) in
  match r with
  | Normal true =>
      {| l_world := w1;
         l_missingImages := delete (fileName item) (l_missingImages l);
         l_fixedCount := S (l_fixedCount l);
         l_failedCount := l_failedCount l |}
  | Normal false =>
      {| l_world := w1;
         l_missingImages := l_missingImages l;
         l_fixedCount := l_fixedCount l;
         l_failedCount := S (l_failedCount l) |}
  | Throw message =>
      {| l_world := w1;
         l_missingImages :=
           match l_missingImages l !! fileName item with
           | Some info =>
               <[fileName item :=
                   {| originalUrl := originalUrl info;
                      expectedPath := expectedPath info;
                      localFilePath := localFilePath info;
                      error := message;
                      sourceFile := sourceFile info |}]> (l_missingImages l)
           | None => l_missingImages l
           end;
         l_fixedCount := l_fixedCount l;
         l_failedCount := S (l_failedCount l) |}
  end.

(** [processFolder folderPath].  The messages of [log], which are appended
    to the log file [Logger.getLogFilePath "fix-images" _], are left out. *)
Definition processFolder (cfg : config) (o : oracle) (folderPath : string) (w : world)
  : result * world :=
  let '(missing, orphaned) := scanForMissingImages w folderPath in
  match missing, orphaned with
  | [], [] => ({| fixed := 0; failed := 0; orphaned := 0 |}, w)
  | _, _ =>
      let missingImagesPath := join folderPath "missing-images.json" in
      let missingImages :=
        match readMissing w missingImagesPath with
        | Some m => m
        | None => ∅
        end in
      let l :=
        fold_left (retry cfg o) missing
          {| l_world := w; l_missingImages := missingImages;
             l_fixedCount := 0; l_failedCount := 0 |} in
      ({| fixed := l_fixedCount l; failed := l_failedCount l;
          orphaned := length orphaned |},
       updateMissingImagesFile folderPath (l_missingImages l) (l_world l))
  end.

End FixMissingImages.

(** ** utils.js: [requestWithRetry] *)

Module Retry.
Import JsString.

(** How a call of [requestWithRetry] ends: it returns the value that
    [requestFn] resolved to, or it throws: the error of a call of
    [requestFn], or [undefined] when no call was made. *)
Inductive ending (A : Type) : Type :=
| Returned (a : A)
| Thrown (error : option string).
Arguments Returned {A} a.
Arguments Thrown {A} error.

(** The calls of [requestFn] made so far, and the milliseconds spent in
    [setTimeout]. *)
Record state : Type := {
  calls : nat;
  waited : nat;
}.

(** The [for] loop from attempt number [attempt], with [remaining] turns
    left; [requestFn n] is what the [n]-th call of [requestFn] resolves to
    or rejects with. *)
Fixpoint loop {A} (requestFn : nat -> completion A) (maxRetries retryDelay : nat)
    (attempt remaining : nat) (lastError : option string) (s : state)
  : ending A * state :=
  match remaining with
  | O => (Thrown lastError, s)
  | S rest =>
      let s1 := {| calls := S (calls s); waited := waited s |} in
      match requestFn (calls s) with
      | Normal a => (Returned a, s1)
      | Throw error =>
          if attempt =? maxRetries then (Thrown (Some error), s1)
          else
            loop requestFn maxRetries retryDelay (S attempt) rest (Some error)
              {| calls := calls s1; waited := waited s1 + retryDelay * attempt |}
      end
  end.

(** [requestWithRetry(requestFn, maxRetries, retryDelay)]; a [maxRetries]
    that is not a positive number behaves as [0]. *)
Definition requestWithRetry {A} (requestFn : nat -> completion A)
    (maxRetries retryDelay : nat) (s : state) : ending A * state :=
  loop requestFn maxRetries retryDelay 1 maxRetries None s.

End Retry.

(** ** utils.js: [replaceFileName] *)

Module FileNames.
Import JsString.

(** [replaceMap]: the nine characters that a Windows file name cannot
    hold, each with its fullwidth form (U+FF1C, U+FF1E, U+FF1A, U+FF0F,
    U+FF3C, U+FF5C, U+FF1F, U+FF0A and U+FF02, three bytes each). *)
Definition replaceMap : list (ascii * string) :=
  [("<"%char, "＜"); (">"%char, "＞"); (":"%char, "：");
   ("/"%char, "／"); ("\"%char, "＼"); ("|"%char, "｜");
   ("?"%char, "？"); ("*"%char, "＊"); (dquote, "＂")].

(** [replaceMap.get(match)] for the character [c] when it is a key of the
    map, the character itself when the regular expression does not match
    it. *)
Definition replacement (c : ascii) : string :=
  match List.find (fun entry => is_char c (fst entry)) replaceMap with
  | Some entry => snd entry
  | None => str1 c
  end.

(** [fileName.replace(regex, (match) => replaceMap.get(match))]: the
    regular expression is the alternation of the nine keys, each escaped,
    with the [g] flag. *)
Fixpoint replaceFileName (fileName : string) : string :=
  match fileName with
  | EmptyString => EmptyString
  | String c rest => replacement c +:+ replaceFileName rest
  end.

End FileNames.

(** ** utils.js: the requests to the API *)

Module Api.
Import JsString Config.

(** [config.network.retryDelay]: no variable of the environment changes
    it. *)
Definition RETRY_DELAY : nat := 1000.

(** What the API sends: a book of the shelf, a section as the booklet
    lists it, [response.data] of the booklet (the title is
    [booklet.base_info.title]) and [response.data.section] of a section. *)
Record shelfBook : Type := {
  booklet_id : string;
  shelf_title : string;
}.
Record listedSection : Type := {
  section_id : string;
  listed_title : string;
  listed_status : nat;
}.
Record bookletData : Type := {
  base_title : string;
  listed : list listedSection;
}.
Record sectionData : Type := {
  section_title : string;
  markdown_show : string;
}.

(** The answers of the API to the [n]-th request of the run, the cookie
    of [cookies.json] being sent with it: the parsed response of
    [got.post(...).json()] or the message of the error it rejects with;
    [None] is a response without the data that the caller looks for. *)
Record api : Type := {
  shelf_list : nat -> completion (option (list shelfBook));
  booklet_get : nat -> string -> completion (option bookletData);
  section_get : nat -> string -> completion (option sectionData);
}.

Record book : Type := {
  value : string;
  name : string;
}.
Record section : Type := {
  id : string;
  title : string;
  status : nat;
  index : nat;
}.
Record sectionInfo : Type := {
  info_title : string;
  content : string;
}.

(** The [catch] block of the three functions reads [error.message] and
    throws the error again; when [requestWithRetry] threw [undefined]
    (no attempt was made), reading [error.message] is itself a
    [TypeError]. *)
Definition rethrow {A} (error : option string) : completion A :=
  match error with
  | Some message => Throw message
  | None => Throw "Cannot read properties of undefined (reading 'message')"
  end.

(** The messages of the errors thrown for a response without data end
    with the text of the response, which is left out here. *)
Definition getBooks (cfg : config) (o : api) (s : Retry.state)
  : completion (list book) * Retry.state :=
  match Retry.requestWithRetry (shelf_list o) (retryCount cfg) RETRY_DELAY s with
  | (Retry.Returned (Some data), s') =>
      (Normal (List.map (fun b => {| value := booklet_id b; name := shelf_title b |}) data),
       s')
  | (Retry.Returned None, s') => (Throw "API 响应缺少 data 字段", s')
  | (Retry.Thrown error, s') => (rethrow error, s')
  end.

Definition getBookInfo (cfg : config) (o : api) (bookId : string) (s : Retry.state)
  : completion (string * list section) * Retry.state :=
  match Retry.requestWithRetry (fun n => booklet_get o n bookId)
          (retryCount cfg) RETRY_DELAY s with
  | (Retry.Returned (Some data), s') =>
      (Normal (base_title data,
               imap (fun index section =>
                       {| id := section_id section; title := listed_title section;
                          status := listed_status section; index := index + 1 |})
                 (listed data)),
       s')
  | (Retry.Returned None, s') => (Throw "获取小册信息失败", s')
  | (Retry.Thrown error, s') => (rethrow error, s')
  end.

Definition getSection (cfg : config) (o : api) (sectionId : string) (s : Retry.state)
  : completion sectionInfo * Retry.state :=
  match Retry.requestWithRetry (fun n => section_get o n sectionId)
          (retryCount cfg) RETRY_DELAY s with
  | (Retry.Returned (Some data), s') =>
      (Normal {| info_title := section_title data; content := markdown_show data |}, s')
  | (Retry.Returned None, s') => (Throw "获取章节信息失败", s')
  | (Retry.Thrown error, s') => (rethrow error, s')
  end.

End Api.

(** ** batch-download.js *)

Module BatchDownload.
Import JsString Node Config.

(** The [reason] of a decision: the file does not exist, the content has
    been updated, the content is the same, or reading the file threw (the
    message of the error, which follows in the source, is left out). *)
Inductive reason : Type :=
| fileMissing
| contentUpdated
| contentSame
| readFailed.

Record decision : Type := {
  shouldDownload : bool;
  why : reason;
}.

(** [readText] gives the text of a text file; the branch of the read
    that throws is taken for every other file of the world. *)
Definition shouldDownloadFile (w : world) (filePath newContent : string) : decision :=
  if negb (existsSync w filePath) then
    {| shouldDownload := true; why := fileMissing |}
  else
    match readText w filePath with
    | Some existingContent =>
        let existingHash := Utils.calculateFileHash existingContent in
        let newHash := Utils.calculateFileHash newContent in
        if negb (String.eqb existingHash newHash) then
          {| shouldDownload := true; why := contentUpdated |}
        else {| shouldDownload := false; why := contentSame |}
    | None => {| shouldDownload := true; why := readFailed |}
    end.

Definition is_contentUpdated (r : reason) : bool :=
  match r with contentUpdated => true | _ => false end.

(** The variables of [downloadBook] while it goes through the finished
    sections: the files, the requests made, and the three counters. *)
Record locals : Type := {
  l_world : world;
  l_requests : Retry.state;
  l_downloadedCount : nat;
  l_skippedCount : nat;
  l_updatedCount : nat;
}.

(** What [downloadBook] returns. *)
Inductive bookResult : Type :=
| Success (bookName : string)
    (downloadedCount skippedCount updatedCount totalSections : nat)
| Failure (bookName : string) (error : string).

Definition sectionPath (bookName : string) (section : Api.section) : string :=
  bookName +:+ "/" +:+ pretty (Api.index section) +:+ "."
  +:+ FileNames.replaceFileName (Api.title section) +:+ ".md".

(** One turn of the loop over the finished sections.  An error thrown in
    the turn (by [getSection]) is logged and the loop goes on. *)
Definition downloadSection (cfg : config) (o : Api.api) (bookName : string)
    (l : locals) (section : Api.section) : locals :=
  let sectionPath := sectionPath bookName section in
  match Api.getSection cfg o (Api.id section) (l_requests l) with
  | (Normal sectionInfo, s) =>
      let d := shouldDownloadFile (l_world l) sectionPath (Api.content sectionInfo) in
      if negb (shouldDownload d) then
        {| l_world := l_world l; l_requests := s;
           l_downloadedCount := l_downloadedCount l;
           l_skippedCount := S (l_skippedCount l);
           l_updatedCount := l_updatedCount l |}
      else
        {| l_world := writeFileSync sectionPath (Text (Api.content sectionInfo)) (l_world l);
           l_requests := s;
           l_downloadedCount := S (l_downloadedCount l);
           l_skippedCount := l_skippedCount l;
           l_updatedCount :=
             if existsSync (l_world l) sectionPath && is_contentUpdated (why d)
             then S (l_updatedCount l) else l_updatedCount l |}
  | (Throw _, s) =>
      {| l_world := l_world l; l_requests := s;
         l_downloadedCount := l_downloadedCount l;
         l_skippedCount := l_skippedCount l;
         l_updatedCount := l_updatedCount l |}
  end.

Definition finished (section : Api.section) : bool := Api.status section =? 1.

(** [downloadBook({bookId, name})] for the element [book] of the list of
    [getBooks], whose [value] is passed as [bookId].  The messages of
    [log], which are appended to the log file
    [Logger.getLogFilePath "batch-download" _], are left out, here and in
    [main]. *)
Definition downloadBook (cfg : config) (o : Api.api) (book : Api.book)
    (w : world) (s : Retry.state) : bookResult * world * Retry.state :=
  match Api.getBookInfo cfg o (Api.value book) s with
  | (Normal (bookName, sections), s1) =>
      let finishSections := List.filter finished sections in
      let l :=
        fold_left (downloadSection cfg o bookName) finishSections
          {| l_world := w; l_requests := s1; l_downloadedCount := 0;
             l_skippedCount := 0; l_updatedCount := 0 |} in
      (Success bookName (l_downloadedCount l) (l_skippedCount l) (l_updatedCount l)
         (length finishSections),
       l_world l, l_requests l)
  | (Throw message, s1) => (Failure (Api.name book) message, w, s1)
  end.

(** The statistics that [main] prints. *)
Record results : Type := {
  total : nat;
  success : nat;
  failed : nat;
  skipped : nat;
  totalDownloaded : nat;
  totalUpdated : nat;
  totalSkipped : nat;
}.

Record run : Type := {
  r_results : results;
  r_world : world;
  r_requests : Retry.state;
}.

(** One turn of the loop of [main] over the books; [last] is false when
    another book follows, and the loop then waits [requestDelay]. *)
Definition mainStep (cfg : config) (o : Api.api) (requestDelay : nat)
    (r : run) (book : Api.book) (last : bool) : run :=
  let '(result, w, s) := downloadBook cfg o book (r_world r) (r_requests r) in
  let res := r_results r in
  let res' :=
    match result with
    | Success _ downloadedCount skippedCount updatedCount _ =>
        {| total := total res; success := S (success res); failed := failed res;
           skipped := skipped res;
           totalDownloaded := totalDownloaded res + downloadedCount;
           totalUpdated := totalUpdated res + updatedCount;
           totalSkipped := totalSkipped res + skippedCount |}
    | Failure _ _ =>
        {| total := total res; success := success res; failed := S (failed res);
           skipped := skipped res; totalDownloaded := totalDownloaded res;
           totalUpdated := totalUpdated res; totalSkipped := totalSkipped res |}
    end in
  {| r_results := res'; r_world := w;
     r_requests :=
       if last then s
       else {| Retry.calls := Retry.calls s;
               Retry.waited := Retry.waited s + requestDelay |} |}.

Fixpoint mainLoop (cfg : config) (o : Api.api) (requestDelay : nat)
    (books : list Api.book) (r : run) : run :=
  match books with
  | [] => r
  | book :: rest =>
      mainLoop cfg o requestDelay rest
        (mainStep cfg o requestDelay r book (bool_decide (rest = [])))
  end.

(** [main]: the statistics it prints, or the message of the error with
    which it ends the process when the list of the books cannot be
    fetched. *)
Definition main (cfg : config) (o : Api.api) (requestDelay : nat)
    (w : world) (s : Retry.state) : completion results * world * Retry.state :=
  match Api.getBooks cfg o s with
  | (Normal books, s1) =>
      let r :=
        mainLoop cfg o requestDelay books
          {| r_results :=
               {| total := length books; success := 0; failed := 0; skipped := 0;
                  totalDownloaded := 0; totalUpdated := 0; totalSkipped := 0 |};
             r_world := w; r_requests := s1 |} in
      (Normal (r_results r), r_world r, r_requests r)
  | (Throw message, s1) => (Throw message, w, s1)
  end.

End BatchDownload.

(** ** main.js *)

Module Main.
Import JsString Node Config.

Definition finished (section : Api.section) : bool := Api.status section =? 1.

Definition sectionPath (bookName : string) (section : Api.section)
    (sectionInfo : Api.sectionInfo) : string :=
  bookName +:+ "/" +:+ pretty (Api.index section) +:+ "."
  +:+ FileNames.replaceFileName (Api.info_title sectionInfo) +:+ ".md".

(** The loop over the finished sections; an error thrown by [getSection]
    ends it, and [main] with it. *)
Fixpoint writeSections (cfg : config) (o : Api.api) (bookName : string)
    (finishSections : list Api.section) (w : world) (s : Retry.state)
  : completion unit * world * Retry.state :=
  match finishSections with
  | [] => (Normal (), w, s)
  | section :: rest =>
      match Api.getSection cfg o (Api.id section) s with
      | (Normal sectionInfo, s1) =>
          writeSections cfg o bookName rest
            (writeFileSync (sectionPath bookName section sectionInfo)
               (Text (Api.content sectionInfo)) w)
            s1
      | (Throw message, s1) => (Throw message, w, s1)
      end
  end.

(** [main]: [prompt books] is the [bookId] that [inquirer.prompt] returns
    for the choices [books]; [Throw] is the error that is logged before the
    process exits.  The messages of [log], which are appended to the log
    file [Logger.getLogFilePath "main" _], are left out. *)
Definition main (cfg : config) (o : Api.api) (prompt : list Api.book -> string)
    (w : world) (s : Retry.state) : completion unit * world * Retry.state :=
  match Api.getBooks cfg o s with
  | (Normal books, s1) =>
      let bookId := prompt books in
      match Api.getBookInfo cfg o bookId s1 with
      | (Normal (bookName, sections), s2) =>
          writeSections cfg o bookName (List.filter finished sections) w s2
      | (Throw message, s2) => (Throw message, w, s2)
      end
  | (Throw message, s1) => (Throw message, w, s1)
  end.

End Main.

(** ** lib/logger.js: the log file and the level of a message *)

Module Logger.
Import JsString.

(** [config.logging.logDir]: no variable of the environment changes it. *)
Definition logDir : string := "log".

(** [getLogFilePath prefix], [dateStr] being the date of the day as
    [new Date().toISOString()] begins with it. *)
Definition getLogFilePath (prefix dateStr : string) : string :=
  Node.join logDir (prefix +:+ "-" +:+ dateStr +:+ ".log").

(** What reading a property of the object [LOG_LEVELS] gives: one of its
    four levels, a property it inherits from [Object.prototype] (a
    function or an object), or [undefined]. *)
Inductive value : Type :=
| Level (n : nat)
| Inherited
| Undefined.

Definition prototype : list string :=
  ["constructor"; "__defineGetter__"; "__defineSetter__"; "hasOwnProperty";
   "__lookupGetter__"; "__lookupSetter__"; "isPrototypeOf"; "propertyIsEnumerable";
   "toString"; "valueOf"; "__proto__"; "toLocaleString"].

Definition LOG_LEVELS (key : string) : value :=
  if String.eqb key "DEBUG" then Level 0
  else if String.eqb key "INFO" then Level 1
  else if String.eqb key "WARN" then Level 2
  else if String.eqb key "ERROR" then Level 3
  else if existsb (String.eqb key) prototype then Inherited
  else Undefined.

(** [a || b]: [b] when [a] is [0] or [undefined]. *)
Definition or_else (a b : value) : value :=
  match a with
  | Level O | Undefined => b
  | _ => a
  end.

(** [config.logging.logLevel]: the environment variable [LOG_LEVEL] when
    it is set and not empty, [INFO] otherwise. *)
Definition logLevel (LOG_LEVEL : option string) : string :=
  match LOG_LEVEL with
  | Some (String c r) => String c r
  | _ => "INFO"
  end.

Definition currentLogLevel (LOG_LEVEL : option string) : value :=
  or_else (LOG_LEVELS (logLevel LOG_LEVEL)) (LOG_LEVELS "INFO").

(** [a < b] on numbers; a function or an object is not a number, and the
    comparison is then false. *)
Definition less (a b : value) : bool :=
  match a, b with
  | Level x, Level y => x <? y
  | _, _ => false
  end.

Definition formatMessage (timestamp level message : string) : string :=
  "[" +:+ timestamp +:+ "] [" +:+ level +:+ "] " +:+ message.

(** [Logger.prototype.log(level, message)] at the time [timestamp]: the
    line sent to the console (and appended to the log file when file
    logging is enabled), [None] when the message is dropped. *)
Definition log (LOG_LEVEL : option string) (timestamp level message : string)
  : option string :=
  let levelValue := LOG_LEVELS level in
  match levelValue with
  | Undefined => None
  | _ =>
      if less levelValue (currentLogLevel LOG_LEVEL) then None
      else Some (formatMessage timestamp level message)
  end.

Definition debug (LOG_LEVEL : option string) (timestamp message : string) :=
  log LOG_LEVEL timestamp "DEBUG" message.
Definition info (LOG_LEVEL : option string) (timestamp message : string) :=
  log LOG_LEVEL timestamp "INFO" message.
Definition warn (LOG_LEVEL : option string) (timestamp message : string) :=
  log LOG_LEVEL timestamp "WARN" message.
Definition error (LOG_LEVEL : option string) (timestamp message : string) :=
  log LOG_LEVEL timestamp "ERROR" message.

End Logger.

(** * The vocabulary of the properties *)

Import JsString Node Config Extract Utils ProcessImages.

Definition nameOf (i : imageInfo) : string := generateImageFileName (url i).

(** Every tag of [tags] differs, in its text and in its URL, from every
    link of [links] and from every tag before it. *)
Definition first_of_its_kind (links tags : list imageInfo) : Prop :=
  ∀ pre x post,
    tags = pre ++ x :: post →
    ∀ y, y ∈ links ++ pre → fullMatch y ≠ fullMatch x ∧ url y ≠ url x.

(** What [isFileProcessed] decides. *)
Definition fully_cached (w : world) (filePath outputFilePath mappingPath : string) : Prop :=
  existsSync w outputFilePath = true
  ∧ ∃ content mapping,
      readText w filePath = Some content
      ∧ readMapping w mappingPath = Some mapping
      ∧ (lastProcessedHash mapping = EmptyString
         ∨ lastProcessedHash mapping = calculateFileHash content)
      ∧ ∀ i, i ∈ extractImageUrls content →
             existsSync w (join (join (path_dirname outputFilePath) IMAGES_DIR_NAME)
                             (generateImageFileName (url i))) = true.

(** A download started by the loop over the references of a document. *)
Definition started (imagesDir : string) (d : download) : Prop :=
  d_imageFileName d = nameOf (d_found d)
  ∧ d_relativeImagePath d = join IMAGES_DIR_NAME (d_imageFileName d)
  ∧ d_localImagePath d = join imagesDir (d_imageFileName d)
  ∧ d_promise d = Pending (url (d_found d)) (d_localImagePath d).

Definition started_in (imagesDir : string) (p : pass) (d : download) : Prop :=
  started imagesDir d
  ∧ d_imageFileName d ∈ usedImageFiles p
  ∧ is_Some (mapping p !! d_imageFileName d).

(** The four ways through [processMarkdownFile]: the document cannot be
    read, it is skipped, it has no image, or its images are fetched and its
    links rewritten. *)
Inductive way (cfg : config) (o : oracle)
    (filePath outputDir imagesDir mappingPath : string) (p : pass) (w : world)
  : result → pass → world → Prop :=
| unreadable :
    readText w filePath = None →
    way cfg o filePath outputDir imagesDir mappingPath p w failure p w
| skip content r :
    readText w filePath = Some content →
    isFileProcessed w filePath (join outputDir (path_basename filePath)) mappingPath = true →
    processed r = true → skipped r = true → downloadedCount r = 0 →
    way cfg o filePath outputDir imagesDir mappingPath p w r
      {| mapping := mapping p; missingImages := missingImages p;
         usedImageFiles :=
           usedImageFiles p ∪ list_to_set (List.map nameOf (extractImageUrls content)) |}
      w
| copy content r :
    readText w filePath = Some content →
    isFileProcessed w filePath (join outputDir (path_basename filePath)) mappingPath = false →
    extractImageUrls content = [] →
    processed r = true → skipped r = false →
    let w1 := writeFileSync (join outputDir (path_basename filePath)) (Text content) w in
    let s := setMetadata o (calculateFileHash content) p w1 in
    way cfg o filePath outputDir imagesDir mappingPath p w r
      (fst s) (writeFileSync mappingPath (MappingJson (mapping (fst s))) (snd s))
| localise content r :
    readText w filePath = Some content →
    isFileProcessed w filePath (join outputDir (path_basename filePath)) mappingPath = false →
    extractImageUrls content ≠ [] →
    processed r = true → skipped r = false →
    let imageUrls := extractImageUrls content in
    let l1 :=
      fold_left (start imagesDir) imageUrls
        {| l_pass := p; l_world := w; l_downloadedCount := 0;
           l_downloadResults := ∅; l_downloadPromises := [] |} in
    let l2 :=
      awaitAll cfg o (path_basename filePath) l1
        (chunks (maxConcurrent cfg) (l_downloadPromises l1)) in
    let newContent := fold_left (rewrite (l_downloadResults l2)) imageUrls content in
    let w3 :=
      writeFileSync (join outputDir (path_basename filePath)) (Text newContent)
        (l_world l2) in
    let s := setMetadata o (calculateFileHash content) (l_pass l2) w3 in
    downloadedCount r = l_downloadedCount l2 →
    way cfg o filePath outputDir imagesDir mappingPath p w r (fst s) (snd s).

(** The totals with which [processFolder] enters its loop over the files. *)
Definition fresh (w : world) : totals :=
  {| t_pass := {| mapping := ∅; missingImages := ∅; usedImageFiles := ∅ |};
     t_world := w; t_processedCount := 0; t_skippedCount := 0;
     t_totalImagesCount := 0; t_totalDownloadedCount := 0; t_totalFailedCount := 0 |}.

Definition documents (w : world) (folderName : string) : list string :=
  List.map (join (join DOWNLOADS_DIR folderName))
    (List.filter (ends_with ".md") (readdirSync w (join DOWNLOADS_DIR folderName))).

(** A plain file name: not empty and without [/]. *)
Definition plain (name : string) : Prop := name ≠ EmptyString ∧ includes "/" name = false.

Definition ledger (w : world) (folderPath : string) : gmap string missingImage :=
  default ∅ (readMissing w (join folderPath "missing-images.json")).

Definition persisted (w : world) (folderPath : string) : gmap string mappingValue :=
  default ∅ (readMapping w (join folderPath "mapping.json")).

(** The ledger as the Sync Engine writes it: the file recorded for an
    entry is the one of that name in the images directory. *)
Definition ledger_as_written (w : world) (folderPath : string) : Prop :=
  ∀ k info,
    ledger w folderPath !! k = Some info →
    localFilePath info = EmptyString
    ∨ localFilePath info = join (join folderPath IMAGES_DIR_NAME) k.

Definition item_in (imagesDir : string) (item : FixMissingImages.missingItem) : Prop :=
  FixMissingImages.m_expectedPath item = join imagesDir (FixMissingImages.fileName item).

(** Every entry of [mapping] other than the metadata is the record of a
    reference met in a document of the pass: its name is in the set of
    used files and it is the name the naming function gives to its URL. *)
Definition entries_recorded (p : pass) : Prop :=
  ∀ k v, mapping p !! k = Some v →
    k = "_metadata"
    ∨ (k ∈ usedImageFiles p
       ∧ ∃ u, v = Asset u (join IMAGES_DIR_NAME k) ∧ k = generateImageFileName u).

(** Every entry of [missingImages] is a download of the pass that failed:
    its name is used, has its entry in [mapping], and its file is the one
    of that name in the images directory. *)
Definition failures_recorded (imagesDir : string) (p : pass) : Prop :=
  ∀ k info, missingImages p !! k = Some info →
    k ∈ usedImageFiles p
    ∧ is_Some (mapping p !! k)
    ∧ localFilePath info = join imagesDir k
    ∧ k = generateImageFileName (originalUrl info).




(** Two documents of the folder with the same fingerprint have the same
    text. *)
Definition fingerprints_faithful (w : world) (folderName : string) : Prop :=
  ∀ f1 f2 c1 c2,
    f1 ∈ documents w folderName → f2 ∈ documents w folderName →
    readText w f1 = Some c1 → readText w f2 = Some c2 →
    calculateFileHash c1 = calculateFileHash c2 → c1 = c2.

(** While a pass runs over the folder of the world [w0]: every used file
    has its entry in [mapping]; the documents are as they were; and
    [mapping.json], when it is there, has been written by the pass for a
    document without image and holds its fingerprint. *)
Definition used_are_mapped (w0 : world) (folderName : string) (p : pass) (w : world)
  : Prop :=
  (∀ k, k ∈ usedImageFiles p → is_Some (mapping p !! k))
  ∧ (∀ f, f ∈ documents w0 folderName → files w !! f = files w0 !! f)
  ∧ (files w !! join (join OUTPUT_DIR folderName) "mapping.json" = None
     ∨ ∃ m f c,
         files w !! join (join OUTPUT_DIR folderName) "mapping.json" = Some (MappingJson m)
         ∧ lastProcessedHash m = calculateFileHash c
         ∧ f ∈ documents w0 folderName
         ∧ readText w0 f = Some c
         ∧ extractImageUrls c = []).

(** The references of a document whose file is absent when the document
    is processed. *)
Definition absent (w : world) (imagesDir : string) (imageUrls : list imageInfo)
  : list imageInfo :=
  List.filter (fun i => negb (existsSync w (join imagesDir (nameOf i)))) imageUrls.

(** The events that a run from the world [w] to the world [w'] adds to the
    trace. *)
Definition events_since (w w' : world) : list event :=
  skipn (length (trace w)) (trace w').

(** A reference met in a document of the folder. *)
Definition referenced (w : world) (folderName : string) (i : imageInfo) : Prop :=
  ∃ file content,
    file ∈ documents w folderName
    ∧ readText w file = Some content
    ∧ i ∈ extractImageUrls content.

(** Every entry of [mapping] other than the metadata is the record of a
    reference met in a document of the folder of the world [w]: its key is
    the name of the reference and its value holds the URL of the
    reference. *)
Definition entries_referenced (w : world) (folderName : string) (p : pass) : Prop :=
  ∀ k v, mapping p !! k = Some v →
    k = "_metadata"
    ∨ ∃ i, referenced w folderName i ∧ k = nameOf i
           ∧ v = Asset (url i) (join IMAGES_DIR_NAME k).

(** The downloads that fail among [events], those whose promise is
    rejected, are the downloads of the image files that [missingImages]
    lists. *)
Definition failures_traced (imagesDir : string) (events : list event) (p : pass) : Prop :=
  ∀ localPath,
    DownloadEnd localPath false ∈ events
    ↔ ∃ k, localPath = join imagesDir k ∧ is_Some (missingImages p !! k).

(** The same of the events since the world [w0]. *)
Definition traced (imagesDir : string) (w0 w : world) (p : pass) : Prop :=
  ∃ events, trace w = trace w0 ++ events ∧ failures_traced imagesDir events p.

(** ** Characters, oracles and counts *)

(** [every f s]: all the characters of [s] satisfy [f]. *)
Fixpoint every (f : ascii → bool) (s : string) : bool :=
  match s with
  | EmptyString => true
  | String c r => f c && every f r
  end.

(** A character that [replaceFileName] replaces. *)
Definition reserved (c : ascii) : bool := one_of "<>:/\|?*" c || is_char c dquote.

(** A decimal digit. *)
Definition digit (c : ascii) : bool := one_of "0123456789" c.

(** The element of [downloadPromises] that the loop over the references
    pushes for a reference whose file is absent. *)
Definition downloadOf (imagesDir : string) (i : imageInfo) : download :=
  {| d_promise := Pending (url i) (join imagesDir (nameOf i));
     d_imageFileName := nameOf i;
     d_relativeImagePath := join IMAGES_DIR_NAME (nameOf i);
     d_localImagePath := join imagesDir (nameOf i);
     d_found := i |}.

(** The paths of the log files: whatever the prefix, the date and the
    directory from which the program is run, the name of a log file ends
    with [.log]. *)
Definition log_file (q : string) : bool := ends_with ".log" q.

(** An oracle that answers every request with an error. *)
Definition unreachable (o : oracle) : Prop :=
  ∀ n url, ∃ message, got o n url = RequestError message.

(** An oracle that answers every request with a body. *)
Definition reachable (o : oracle) : Prop :=
  ∀ n url, ∃ body, got o n url = Body body.

(** An entry of the ledger for the image file [k] of [imagesDir]. *)
Definition listed (imagesDir : string) (missing : gmap string missingImage) (k : string)
  : Prop :=
  ∃ info, missing !! k = Some info ∧ localFilePath info = join imagesDir k.

(** The locals with which the loop of the Recovery Scanner begins. *)
Definition recovery_start (w : world) (folderPath : string) : FixMissingImages.locals :=
  {| FixMissingImages.l_world := w;
     FixMissingImages.l_missingImages :=
       match readMissing w (join folderPath "missing-images.json") with
       | Some m => m
       | None => ∅
       end;
     FixMissingImages.l_fixedCount := 0;
     FixMissingImages.l_failedCount := 0 |}.

(** [suffix_of s content]: [s] is what is left of [content] after some of
    its characters. *)
Fixpoint suffix_of (s content : string) : Prop :=
  s = content ∨
  match content with
  | String _ rest => suffix_of s rest
  | EmptyString => False
  end.

(** An absolute URL of the web: it begins with [http://] or [https://],
    in either case of the letters. *)
Definition absolute (u : string) : Prop :=
  is_Some (strip_prefix_ci "http://" u) ∨ is_Some (strip_prefix_ci "https://" u).

(** [a + (a + 1) + ...], [k] terms. *)
Fixpoint sum_from (a k : nat) : nat :=
  match k with
  | O => 0
  | S k' => a + sum_from (S a) k'
  end.

(** What a run of the loop of [requestWithRetry] that made [n] calls from
    the state [s] ended with. *)
Definition retried {A} (requestFn : nat → completion A) (maxRetries retryDelay : nat)
    (attempt : nat) (lastError : option string) (s : Retry.state)
    (e : Retry.ending A) (s' : Retry.state) (n : nat) : Prop :=
  Retry.calls s' = Retry.calls s + n
  ∧ Retry.waited s' = Retry.waited s + retryDelay * sum_from attempt (n - 1)
  ∧ (∀ j, j + 1 < n → ∃ error, requestFn (Retry.calls s + j) = Throw error)
  ∧ match e with
    | Retry.Returned a => 0 < n ∧ requestFn (Retry.calls s + (n - 1)) = Normal a
    | Retry.Thrown (Some error) =>
        0 < n ∧ attempt + (n - 1) = maxRetries
        ∧ requestFn (Retry.calls s + (n - 1)) = Throw error
    | Retry.Thrown None => n = 0 ∧ lastError = None
    end.

(** An API whose answers do not depend on the time of the request. *)
Definition steady (o : Api.api) : Prop :=
  ∀ n m sectionId,
    Api.booklet_get o n sectionId = Api.booklet_get o m sectionId
    ∧ Api.section_get o n sectionId = Api.section_get o m sectionId.

(** The text that a steady API gives for a section, when [getSection]
    returns one. *)
Definition chapter (cfg : config) (o : Api.api) (sectionId : string) : option string :=
  if retryCount cfg =? 0 then None
  else
    match Api.section_get o 0 sectionId with
    | Normal (Some data) => Some (Api.markdown_show data)
    | _ => None
    end.

Definition available (cfg : config) (o : Api.api) (x : Api.section) : bool :=
  bool_decide (is_Some (chapter cfg o (Api.id x))).

(** The file of the section holds a text with the fingerprint of the text
    that the API gives for the section. *)
Definition up_to_date (cfg : config) (o : Api.api) (bookName : string) (w : world)
    (x : Api.section) : Prop :=
  ∀ c, chapter cfg o (Api.id x) = Some c →
       ∃ text, readText w (BatchDownload.sectionPath bookName x) = Some text
               ∧ calculateFileHash text = calculateFileHash c.

(** What a steady API gives for a section, when [getSection] returns. *)
Definition answer (cfg : config) (o : Api.api) (sectionId : string)
  : option Api.sectionInfo :=
  if retryCount cfg =? 0 then None
  else
    match Api.section_get o 0 sectionId with
    | Normal (Some data) =>
        Some {| Api.info_title := Api.section_title data;
                Api.content := Api.markdown_show data |}
    | _ => None
    end.

(** ** Worlds and oracles used in the examples *)

Module Scenarios.
Import JsString Node Config.

Definition world_of (fs : list (string * content)) : world :=
  {| files := list_to_map fs; requests := 0; ticks := 0; trace := [] |}.

Definition timestamps (n : nat) : string := "2026-01-01T00:00:0" +:+ pretty n +:+ ".000Z".

(** Every request is answered. *)
Definition online : oracle :=
  {| got := fun _ url => Body ("image at " +:+ url); clock := timestamps |}.

(** Every request times out. *)
Definition offline : oracle :=
  {| got := fun _ _ => RequestError "Timeout awaiting 'request' for 30000ms";
     clock := timestamps |}.

Definition nothing : ProcessImages.pass :=
  {| ProcessImages.mapping := ∅; ProcessImages.missingImages := ∅;
     ProcessImages.usedImageFiles := ∅ |}.

(** The world after a pass of the Sync Engine that ended normally. *)
Definition after_pass (o : oracle) (folderName : string) (w : world) : world :=
  match ProcessImages.processFolder defaultConfig o folderName w with
  | Normal (_, _, w') => w'
  | Throw _ => w
  end.

Definition folder : string := "downloads/book".
Definition outputFolder : string := "downloads-with-images/book".
Definition imagesFolder : string := "downloads-with-images/book/images".
Definition mappingFile : string := "downloads-with-images/book/mapping.json".

(** One document with one image. *)
Definition one_image : world :=
  world_of [("downloads/book/a.md", Text "See ![fig](http://h/a.png).")].

(** One document with six images. *)
Definition six_links : string :=
  "![1](http://h/1.png) ![2](http://h/2.png) ![3](http://h/3.png) "
  +:+ "![4](http://h/4.png) ![5](http://h/5.png) ![6](http://h/6.png)".
Definition six_images : world := world_of [("downloads/book/a.md", Text six_links)].

(** Two documents without image. *)
Definition two_documents : world :=
  world_of [("downloads/book/a.md", Text "Chapter one.");
            ("downloads/book/b.md", Text "Chapter two.")].


(** The result of a pass that ended normally. *)
Definition no_pass : ProcessImages.folderResult * ProcessImages.pass * world :=
  ({| ProcessImages.f_processed := 0; ProcessImages.f_skipped := 0;
      ProcessImages.f_total := 0; ProcessImages.f_imagesCount := 0;
      ProcessImages.f_downloadedCount := 0; ProcessImages.f_failedCount := 0;
      ProcessImages.f_cleanedCount := 0 |},
   nothing, world_of []).
Definition outcome
    (c : completion (ProcessImages.folderResult * ProcessImages.pass * world))
  : ProcessImages.folderResult * ProcessImages.pass * world :=
  match c with Normal x => x | Throw _ => no_pass end.

(** The first pass over [one_image] when every request times out. *)
Definition failed_pass :=
  outcome (ProcessImages.processFolder defaultConfig offline "book" one_image).

(** The first pass over [two_documents]. *)
Definition first_pass :=
  outcome (ProcessImages.processFolder defaultConfig online "book" two_documents).

End Scenarios.

(** ** More collections for the examples *)

Module Cases.
Import JsString Node Config.

(** The collection of [Scenarios.one_image] when its image file is there
    from an earlier time, beside an image file that no document uses. *)
Definition images_from_before : world :=
  Scenarios.world_of
    [("downloads/book/a.md", Text "See ![fig](http://h/a.png).");
     ("downloads-with-images/book/images/9ef77880.jpg", Text "fetched earlier");
     ("downloads-with-images/book/images/old.jpg", Text "not used any more")].

Definition pass_over_images :=
  Scenarios.outcome
    (ProcessImages.processFolder defaultConfig Scenarios.online "book" images_from_before).

(** The collection of [Scenarios.one_image] after a pass that downloaded
    the image, with a ledger that still lists it. *)
Definition stale_ledger : world :=
  writeFileSync "downloads-with-images/book/missing-images.json"
    (MissingJson
       {["9ef77880.jpg" :=
           {| originalUrl := "http://h/a.png";
              expectedPath := "images/9ef77880.jpg";
              localFilePath := "downloads-with-images/book/images/9ef77880.jpg";
              error := "Timeout awaiting 'request' for 30000ms";
              sourceFile := "a.md" |}]})
    (Scenarios.after_pass Scenarios.online "book" Scenarios.one_image).

(** An API with one book of three sections: the second one is still
    being written, and every request for the third one fails. *)
Definition shelf : Api.api :=
  {| Api.shelf_list := fun _ =>
       Normal (Some [{| Api.booklet_id := "7001"; Api.shelf_title := "Book" |}]);
     Api.booklet_get := fun _ _ =>
       Normal (Some {| Api.base_title := "Book";
                       Api.listed :=
                         [{| Api.section_id := "s1"; Api.listed_title := "What is a <div>?";
                             Api.listed_status := 1 |};
                          {| Api.section_id := "s2"; Api.listed_title := "Draft";
                             Api.listed_status := 0 |};
                          {| Api.section_id := "s3"; Api.listed_title := "The end";
                             Api.listed_status := 1 |}] |});
     Api.section_get := fun _ sectionId =>
       if String.eqb sectionId "s3" then Throw "Timeout awaiting 'request' for 30000ms"
       else Normal (Some {| Api.section_title := "What is a <div>?";
                            Api.markdown_show := "Text of " +:+ sectionId |}) |}.

Definition the_book : Api.book := {| Api.value := "7001"; Api.name := "Book" |}.

Definition no_request : Retry.state := {| Retry.calls := 0; Retry.waited := 0 |}.

Definition first_download :=
  BatchDownload.downloadBook defaultConfig shelf the_book (Scenarios.world_of []) no_request.

(** The first pass over [Scenarios.one_image] when every request is
    answered, and the collection when the text of its document has been
    edited since. *)
Definition synced :=
  Scenarios.outcome
    (ProcessImages.processFolder defaultConfig Scenarios.online "book" Scenarios.one_image).
Definition edited : world :=
  writeFileSync "downloads/book/a.md" (Text "See the new ![fig](http://h/b.png).")
    synced.2.



End Cases.

(** * Properties *)

#[local] Arguments String.append : simpl nomatch.

(** ** Strings and paths *)

Lemma is_empty_true (s : string) : is_empty s = true ↔ s = EmptyString.
Proof. destruct s; simpl; split; intros H; congruence. Qed.

Lemma append_inv_head (a b c : string) : a +:+ b = a +:+ c → b = c.
Proof. induction a as [|x a IH]; simpl; intros H; [done|]. injection H. auto. Qed.

Lemma join_inj (dir a b : string) : join dir a = join dir b → a = b.
Proof.
  unfold join. intros H. apply append_inv_head in H. simpl in H. by injection H.
Qed.

Lemma append_assoc (a b c : string) : (a +:+ b) +:+ c = a +:+ (b +:+ c).
Proof. induction a as [|x a IH]; simpl; [done|]. f_equal. exact IH. Qed.

Lemma join_join (dir a b : string) : join (join dir a) b = join dir (a +:+ "/" +:+ b).
Proof. unfold join. by rewrite !append_assoc. Qed.

(** The file to which a [Logger] appends is a log file, whatever its
    prefix and the date. *)
Lemma getLogFilePath_log_file (prefix dateStr : string) :
  log_file (Logger.getLogFilePath prefix dateStr) = true.
Proof.
  assert (E : Logger.getLogFilePath prefix dateStr
              = (Logger.logDir +:+ "/" +:+ prefix +:+ "-" +:+ dateStr) +:+ ".log").
  { unfold Logger.getLogFilePath, join. by rewrite !append_assoc. }
  rewrite E. clear E. unfold log_file.
  generalize (Logger.logDir +:+ "/" +:+ prefix +:+ "-" +:+ dateStr). intros a.
  unfold ends_with.
  assert (Hlen : String.length (a +:+ ".log") = String.length a + 4).
  { induction a as [|c a IH]; simpl; [done|]. by rewrite IH. }
  rewrite Hlen. replace (String.length ".log") with 4 by done.
  replace (String.length a + 4 - 4) with (String.length a) by lia.
  assert (Hdrop : drop (String.length a) (a +:+ ".log") = ".log").
  { clear Hlen. induction a as [|c a IH]; simpl; [done|]. exact IH. }
  rewrite Hdrop. apply andb_true_iff. split; [apply Nat.leb_le; lia|done].
Qed.

Lemma image_not_ledger (folderPath k : string) :
  join (join folderPath IMAGES_DIR_NAME) k ≠ join folderPath "missing-images.json".
Proof. rewrite join_join. intros H. apply join_inj in H. discriminate. Qed.

Lemma image_not_mapping (folderPath k : string) :
  join (join folderPath IMAGES_DIR_NAME) k ≠ join folderPath "mapping.json".
Proof. rewrite join_join. intros H. apply join_inj in H. discriminate. Qed.

Lemma mapping_not_ledger (folderPath : string) :
  join folderPath "mapping.json" ≠ join folderPath "missing-images.json".
Proof. intros H. apply join_inj in H. discriminate. Qed.

Lemma output_not_input (a b : string) : join OUTPUT_DIR a ≠ join DOWNLOADS_DIR b.
Proof. unfold join, OUTPUT_DIR, DOWNLOADS_DIR. simpl. discriminate. Qed.

Lemma markdown_not_mapping (name : string) :
  ends_with ".md" name = true → name ≠ "mapping.json".
Proof. intros H ->. vm_compute in H. discriminate. Qed.

Lemma includes_slash_cons (c : ascii) (r : string) :
  includes "/" (String c r) = is_char c "/" || includes "/" r.
Proof.
  simpl. unfold starts_with, strip_prefix. simpl. by destruct (is_char c "/").
Qed.

Lemma plain_not_image (folderPath name n : string) :
  includes "/" name = false →
  join folderPath name ≠ join (join folderPath IMAGES_DIR_NAME) n.
Proof.
  intros Hplain E. rewrite join_join in E. apply join_inj in E. subst name.
  vm_compute in Hplain. discriminate.
Qed.

Lemma last_segment_plain (acc s : string) :
  includes "/" s = false → last_segment acc s = acc +:+ s.
Proof.
  revert acc. induction s as [|c r IH]; intros acc Hs.
  - simpl. induction acc as [|x acc IHa]; simpl; [done|]. by rewrite <- IHa.
  - rewrite includes_slash_cons in Hs. apply orb_false_iff in Hs as [Hc Hr].
    simpl. rewrite Hc, IH by done. unfold str1. rewrite append_assoc. done.
Qed.

Lemma last_segment_after_slash (acc d name : string) :
  last_segment acc (d +:+ String "/" name) = last_segment EmptyString name.
Proof.
  revert acc. induction d as [|c d IH]; intros acc; simpl.
  - done.
  - destruct (is_char c "/"); apply IH.
Qed.

Lemma drop_trailing_slashes_plain (a b : string) :
  plain b → drop_trailing_slashes (a +:+ b) = a +:+ b.
Proof.
  intros [Hne Hb].
  assert (Hb' : drop_trailing_slashes b = b).
  { clear Hne. induction b as [|c r IH]; [done|].
    rewrite includes_slash_cons in Hb. apply orb_false_iff in Hb as [Hc Hr].
    simpl. rewrite IH by done. destruct r; [by rewrite Hc|done]. }
  induction a as [|c a IH]; simpl; [done|].
  rewrite IH. destruct (a +:+ b) eqn:E; [|done].
  destruct a; simpl in E; [congruence|discriminate].
Qed.

Lemma path_basename_join (dir name : string) :
  plain name → path_basename (join dir name) = name.
Proof.
  intros Hplain. unfold path_basename, join.
  rewrite <- append_assoc, drop_trailing_slashes_plain by done.
  rewrite append_assoc. simpl.
  rewrite last_segment_after_slash, last_segment_plain by apply Hplain. done.
Qed.

Lemma before_last_slash_plain (name : string) :
  includes "/" name = false → before_last_slash name = None.
Proof.
  induction name as [|c r IH]; [done|]. rewrite includes_slash_cons.
  intros [Hc Hr]%orb_false_iff. simpl. by rewrite IH, Hc.
Qed.

Lemma path_dirname_join (dir name : string) :
  dir ≠ EmptyString → plain name → path_dirname (join dir name) = dir.
Proof.
  intros Hdir [_ Hname]. unfold path_dirname, join.
  assert (H : before_last_slash (dir +:+ String "/" name) = Some dir).
  { clear Hdir. induction dir as [|c d IH]; simpl.
    - by rewrite before_last_slash_plain.
    - by rewrite IH. }
  change (dir +:+ "/" +:+ name) with (dir +:+ String "/" name).
  rewrite H. by destruct dir.
Qed.

Lemma entry_of_plain (dir p name : string) :
  entry_of dir p = Some name → plain name ∧ p = join dir name.
Proof.
  unfold entry_of, strip_prefix.
  assert (Hstrip : ∀ a s rest, strip is_char a s = Some rest → s = a +:+ rest).
  { induction a as [|x a IH]; intros s rest; simpl.
    - by intros [= ->].
    - destruct s as [|y s]; [done|]. unfold is_char.
      destruct (Ascii.eqb y x) eqn:E; [|done]. apply Ascii.eqb_eq in E as ->.
      intros H. by rewrite (IH s rest H). }
  destruct (strip is_char (dir +:+ "/") p) as [n|] eqn:E; [|done].
  destruct (includes "/" n) eqn:Hn; [done|]. destruct (is_empty n) eqn:He; [done|].
  simpl. intros [= <-]. split.
  - split; [|done]. intros ->. done.
  - apply Hstrip in E. unfold join. by rewrite E, append_assoc.
Qed.

Lemma readdirSync_plain (w : world) (dir name : string) :
  name ∈ readdirSync w dir → plain name ∧ is_Some (files w !! join dir name).
Proof.
  unfold readdirSync. intros H. apply list_elem_of_omap in H as (p & Hp & He).
  apply entry_of_plain in He as [Hplain ->]. split; [done|].
  apply list_elem_of_fmap in Hp as ([p' c] & -> & Hpc). simpl.
  apply elem_of_map_to_list in Hpc. by rewrite Hpc.
Qed.

Lemma documents_elem (w : world) (folderName file : string) :
  file ∈ documents w folderName →
  ∃ name, file = join (join DOWNLOADS_DIR folderName) name
          ∧ plain name ∧ ends_with ".md" name = true.
Proof.
  unfold documents. intros H. apply list_elem_of_fmap in H as (name & -> & Hname).
  apply list_elem_of_In, filter_In in Hname as [Hname Hmd].
  apply list_elem_of_In, readdirSync_plain in Hname as [Hplain _]. eauto.
Qed.

Lemma document_not_written (w : world) (folderName file x : string) :
  file ∈ documents w folderName →
  file ≠ join (join OUTPUT_DIR folderName) x.
Proof.
  intros (name & -> & _)%documents_elem. rewrite !join_join. apply not_eq_sym.
  apply output_not_input.
Qed.

(** ** Loops *)

Section Loops.
Context {A B : Type} (f : A → B → A).

Lemma fold_left_invariant (P : A → Prop) (l : list B) (a : A) :
  P a → (∀ a b, b ∈ l → P a → P (f a b)) → P (fold_left f l a).
Proof.
  revert a. induction l as [|b l IH]; intros a Ha Hstep; simpl; [done|].
  apply IH.
  - apply Hstep; [by left|done].
  - intros a' b' Hb'. apply Hstep. by right.
Qed.


Lemma fold_left_concat (ls : list (list B)) (a : A) :
  fold_left (fun a l => fold_left f l a) ls a = fold_left f (List.concat ls) a.
Proof.
  revert a. induction ls as [|l ls IH]; intros a; simpl; [done|].
  by rewrite fold_left_app, IH.
Qed.
End Loops.

(** For a chunk size of at least one the chunks, put end to end, are the
    list: the fuel of [slices] is enough. *)
Lemma slices_concat {A} (n : nat) (l : list A) (fuel : nat) :
  0 < n → length l ≤ fuel → List.concat (slices fuel n l) = l.
Proof.
  intros Hn. revert l. induction fuel as [|fuel IH]; intros l Hlen; simpl.
  { destruct l; [done|simpl in Hlen; lia]. }
  destruct l as [|x l]; [done|].
  change (List.concat (firstn n (x :: l) :: slices fuel n (skipn n (x :: l))))
    with (firstn n (x :: l) ++ List.concat (slices fuel n (skipn n (x :: l)))).
  rewrite IH; [apply firstn_skipn|].
  rewrite length_skipn. simpl in *. lia.
Qed.

Lemma chunks_concat {A} (n : nat) (l : list A) :
  0 < n → List.concat (chunks n l) = l.
Proof. intros Hn. by apply slices_concat. Qed.

Lemma slices_elem {A} (n : nat) (l : list A) (fuel : nat) (x : A) :
  x ∈ List.concat (slices fuel n l) → x ∈ l.
Proof.
  revert l. induction fuel as [|fuel IH]; intros l; simpl.
  { intros H. by apply elem_of_nil in H. }
  destruct l as [|y l]; [done|].
  change (List.concat (firstn n (y :: l) :: slices fuel n (skipn n (y :: l))))
    with (firstn n (y :: l) ++ List.concat (slices fuel n (skipn n (y :: l)))).
  intros H. apply elem_of_app in H as [H|H].
  - rewrite <- (firstn_skipn n (y :: l)). apply elem_of_app. by left.
  - apply IH in H. rewrite <- (firstn_skipn n (y :: l)). apply elem_of_app. by right.
Qed.

Lemma awaitAll_fold (cfg : config) (o : oracle) (fileName : string) (l : locals)
    (cs : list (list download)) :
  awaitAll cfg o fileName l cs = fold_left (finish cfg o fileName) (List.concat cs) l.
Proof. apply fold_left_concat. Qed.

(** ** Files are only changed where they are written *)

Lemma existsSync_is_Some (w : world) (p : string) :
  existsSync w p = true ↔ is_Some (files w !! p).
Proof. unfold existsSync. apply bool_decide_eq_true. Qed.

Lemma existsSync_None (w : world) (p : string) :
  existsSync w p = false ↔ files w !! p = None.
Proof.
  unfold existsSync. rewrite bool_decide_eq_false, <- eq_None_not_Some. done.
Qed.

Lemma existsSync_ext (w w' : world) (p : string) :
  files w' !! p = files w !! p → existsSync w' p = existsSync w p.
Proof. unfold existsSync. by intros ->. Qed.

Lemma existsSync_write (q path : string) (c : content) (w : world) :
  existsSync w q = true → existsSync (writeFileSync path c w) q = true.
Proof.
  intros Hq. apply existsSync_is_Some. apply existsSync_is_Some in Hq. simpl.
  destruct (decide (path = q)) as [->|Hne].
  - by rewrite lookup_insert_eq.
  - by rewrite lookup_insert_ne.
Qed.

Lemma readText_ext (w w' : world) (p : string) :
  files w' !! p = files w !! p → readText w' p = readText w p.
Proof. unfold readText. by intros ->. Qed.

Lemma files_emit (e : event) (w : world) : files (emit e w) = files w.
Proof. done. Qed.

Lemma attempts_files (o : oracle) (url localPath : string) (remaining attempt : nat)
    (w : world) :
  match FixMissingImages.attempts o url localPath attempt remaining w with
  | (Normal true, w') => ∃ body, files w' = <[localPath := Text body]> (files w)
  | (Normal false, w') => remaining = 0 ∧ files w' = files w
  | (Throw _, w') => remaining ≠ 0 ∧ files w' = files w
  end.
Proof.
  revert attempt w. induction remaining as [|rest IH]; intros attempt w; simpl; [done|].
  destruct (got o (requests w) url) as [body|message].
  - by exists body.
  - destruct rest as [|rest']; [done|].
    specialize (IH (S attempt)
      {| files := files w; requests := S (requests w); ticks := ticks w;
         trace := trace w ++ [Request (requests w) url] |}).
    destruct (FixMissingImages.attempts _ _ _ _ _ _) as [[[]|] w']; simpl in *;
      try done; destruct IH; split; done.
Qed.

Lemma attempts_same (o : oracle) (url localPath : string) (remaining attempt : nat)
    (w : world) :
  ProcessImages.attempts o url localPath attempt remaining w
  = FixMissingImages.attempts o url localPath attempt remaining w.
Proof.
  revert attempt w. induction remaining as [|rest IH]; intros attempt w; simpl; [done|].
  destruct (got o (requests w) url); [done|]. destruct rest; [done|]. apply IH.
Qed.

(** [tryDownloadImage] writes the body to its target or leaves the files as
    they are; it returns [true] exactly when it has written. *)
Lemma tryDownloadImage_files (cfg : config) (o : oracle) (url localPath : string)
    (w : world) :
  match FixMissingImages.tryDownloadImage cfg o url localPath w with
  | (Normal true, w') => ∃ body, files w' = <[localPath := Text body]> (files w)
  | (_, w') => files w' = files w
  end.
Proof.
  unfold FixMissingImages.tryDownloadImage.
  pose proof (attempts_files o url localPath (retryCount cfg) 1
                (emit (DownloadStart localPath) w)) as H.
  destruct (FixMissingImages.attempts _ _ _ _ _ _) as [[[]|] w']; simpl in *.
  - done.
  - by destruct H.
  - by destruct H.
Qed.

(** ** Fingerprints *)

Lemma sha256_round_length (W v : list N) (i : nat) :
  length (Crypto.SHA256.round W v i) = length v.
Proof.
  destruct v as [|a [|b [|c [|d [|e [|f [|g [|h [|x t]]]]]]]]]; reflexivity.
Qed.

Lemma sha256_compress_length (h blk : list N) :
  length (Crypto.SHA256.compress h blk) = length h.
Proof.
  unfold Crypto.SHA256.compress.
  rewrite length_map, length_combine.
  assert (H : ∀ l v, length (fold_left (Crypto.SHA256.round (Crypto.SHA256.schedule blk)) l v)
                     = length v).
  { induction l as [|i l IH]; intros v; simpl; [done|].
    by rewrite IH, sha256_round_length. }
  rewrite H. lia.
Qed.

(** A fingerprint is never the empty string, which [isFileProcessed] reads
    as a missing one. *)
Lemma calculateFileHash_not_empty (content : string) :
  calculateFileHash content ≠ EmptyString.
Proof.
  unfold calculateFileHash, Crypto.sha256_hex, Crypto.SHA256.digest.
  assert (H : ∀ blocks h, length (fold_left Crypto.SHA256.compress blocks h) = length h).
  { induction blocks as [|b blocks IH]; intros h; simpl; [done|].
    by rewrite IH, sha256_compress_length. }
  specialize (H (Crypto.blocks (Crypto.pad Crypto.be_bytes (Crypto.bytes_of_string content)))
                Crypto.SHA256.init).
  destruct (fold_left Crypto.SHA256.compress _ _) as [|x t]; [discriminate H|].
  change (List.concat (List.map (Crypto.be_bytes 4) (x :: t)))
    with (Crypto.be_bytes 4 x ++ List.concat (List.map (Crypto.be_bytes 4) t)).
  unfold Crypto.be_bytes. simpl Crypto.le_bytes.
  simpl rev. simpl app. discriminate.
Qed.

(** ** The naming function *)

Lemma generateImageFileName_hash (url : string) :
  generateImageFileName url = hash8 url +:+ ".jpg".
Proof.
  unfold generateImageFileName, generateImageFileName_in, generateImageFileName_try.
  destruct (URL_pathname url) as [pathname|e]; reflexivity.
Qed.

(** C4 (the code departs from the claim).  [utils.js] does not import
    [path], so the [try] block of [generateImageFileName] always ends in a
    [ReferenceError] and the [catch] block names the file: the first eight
    hexadecimal digits of the MD5 of the URL and [.jpg], whatever the path
    segment of the URL is.  With [path] in scope the same code gives the
    base name of the path segment. *)
Theorem generateImageFileName_without_path :
  generateImageFileName "https://example.com/img/photo.png" = "945c338c.jpg"
  ∧ generateImageFileName_in ("path" :: imports) "https://example.com/img/photo.png"
    = "photo.png"
  ∧ ∀ url, generateImageFileName url = take 8 (Crypto.md5_hex url) +:+ ".jpg".
Proof.
  split; [vm_compute; reflexivity|].
  split; [vm_compute; reflexivity|].
  exact generateImageFileName_hash.
Qed.

(** ** The extractor *)

Lemma alreadyMatched_false (urls : list imageInfo) (m : string * string) :
  alreadyMatched urls m = false →
  ∀ y, y ∈ urls → fullMatch y ≠ fst m ∧ url y ≠ trim (snd m).
Proof.
  unfold alreadyMatched. intros Hnone y Hy.
  assert (Hy' : String.eqb (fullMatch y) (fst m) || String.eqb (url y) (trim (snd m))
                = false).
  { destruct (_ || _) eqn:E; [|done]. rewrite <- Hnone. symmetry.
    apply existsb_exists. exists y. split; [by apply list_elem_of_In|done]. }
  apply orb_false_iff in Hy' as [H1 H2]. by apply String.eqb_neq in H1, H2.
Qed.

(** C7 (the code departs from the claim).  Every inline link is
    extracted.  A tag is dropped when its text or its URL equals that of
    any element already in the array, an earlier tag included: the tags
    extracted differ from each other and from the links in text and in
    URL.  So of two tags with the same URL only the first one is
    extracted, whereas two inline links with the same URL are both
    extracted. *)
Theorem extractImageUrls_drops_second_tag :
  (∀ content,
     ∃ tags,
       extractImageUrls content
       = exec_all markdownRegex (fun i => String.length (fullMatch i)) content 0 ++ tags
       ∧ Forall (fun i => type i = html) tags
       ∧ first_of_its_kind
           (exec_all markdownRegex (fun i => String.length (fullMatch i)) content 0) tags)
  ∧ extractImageUrls "<img src='http://h/a.png'> <img alt='again' src='http://h/a.png'>"
    = [{| fullMatch := "<img src='http://h/a.png'>"; url := "http://h/a.png";
          type := html; alt := EmptyString; title := EmptyString |}]
  ∧ List.map fullMatch
      (extractImageUrls "![one](http://h/a.png) ![again](http://h/a.png)")
    = ["![one](http://h/a.png)"; "![again](http://h/a.png)"].
Proof.
  split; [|split; vm_compute; reflexivity].
  intros content. unfold extractImageUrls.
  set (links := exec_all markdownRegex _ content 0).
  apply (fold_left_invariant _
           (fun urls =>
              ∃ tags, urls = links ++ tags ∧ Forall (fun i => type i = html) tags
                      ∧ first_of_its_kind links tags)).
  - exists []. split; [by rewrite app_nil_r|]. split; [constructor|].
    intros pre x post E. by destruct pre.
  - intros urls m _ (tags & -> & Hhtml & Hfirst).
    destruct (alreadyMatched (links ++ tags) m) eqn:Hseen; [by exists tags|].
    eexists (tags ++ [_]). split; [by rewrite app_assoc|]. split.
    + apply Forall_app. split; [done|]. by apply Forall_singleton.
    + intros pre x post E y Hy.
      destruct post as [|x' post] using rev_ind.
      * apply app_inj_tail in E as [<- <-]. simpl.
        by apply (alreadyMatched_false (links ++ tags) m).
      * clear IHpost. rewrite app_comm_cons, app_assoc in E.
        apply app_inj_tail in E as [E _]. by apply (Hfirst pre x post).
Qed.

(** ** Change detection *)

Lemma allImagesExist_spec (w : world) (imagesDir : string) (imageUrls : list imageInfo) :
  allImagesExist w imagesDir imageUrls = true ↔
  ∀ i, i ∈ imageUrls → existsSync w (join imagesDir (generateImageFileName (url i))) = true.
Proof.
  unfold allImagesExist. rewrite forallb_forall. split; intros H i Hi; apply H.
  - by apply list_elem_of_In.
  - by apply list_elem_of_In.
Qed.

Lemma isFileProcessed_spec (w : world) (filePath outputFilePath mappingPath : string) :
  isFileProcessed w filePath outputFilePath mappingPath = true
  ↔ fully_cached w filePath outputFilePath mappingPath.
Proof.
  unfold isFileProcessed, fully_cached.
  destruct (existsSync w outputFilePath) eqn:Hout; simpl;
    [|split; [discriminate|intros [? _]; discriminate]].
  destruct (existsSync w mappingPath) eqn:Hmap; simpl.
  2:{ split; [discriminate|]. intros (_ & c & m & _ & Hm & _).
      unfold existsSync, readMapping in *.
      destruct (files w !! mappingPath) eqn:E; [|discriminate].
      rewrite bool_decide_eq_false in Hmap. destruct Hmap; eauto. }
  destruct (readText w filePath) as [content|] eqn:Hc.
  2:{ split; [discriminate|]. intros (_ & c & m & ? & _). discriminate. }
  destruct (readMapping w mappingPath) as [m|] eqn:Hm.
  2:{ split; [discriminate|]. intros (_ & c & m & _ & ? & _). discriminate. }
  set (last := lastProcessedHash m).
  assert (Hlast : String.eqb last (calculateFileHash content) || is_empty last = true
                  ↔ last = EmptyString ∨ last = calculateFileHash content).
  { rewrite orb_true_iff, String.eqb_eq, is_empty_true. tauto. }
  destruct (negb (is_empty last) && negb (String.eqb last (calculateFileHash content)))
    eqn:Hne.
  { split; [discriminate|]. intros (_ & c & m' & Hc' & Hm' & Hh & _).
    simplify_eq. apply andb_true_iff in Hne as [H1 H2].
    apply negb_true_iff in H1, H2. apply Hlast in Hh.
    rewrite H1, H2 in Hh. discriminate. }
  assert (Hok : last = EmptyString ∨ last = calculateFileHash content).
  { apply Hlast. apply andb_false_iff in Hne as [H|H]; apply negb_false_iff in H;
      rewrite H; auto using orb_true_r. }
  destruct (extractImageUrls content) as [|i0 rest] eqn:Hex.
  - rewrite Hlast. split; [|tauto]. intros _. split; [done|].
    exists content, m. repeat split; auto. intros i Hi. rewrite Hex in Hi.
    by apply elem_of_nil in Hi.
  - destruct (allImagesExist w _ (i0 :: rest)) eqn:Hall; simpl.
    + rewrite Hlast. split; [|tauto]. intros _. split; [done|].
      exists content, m. repeat split; auto. rewrite Hex.
      by apply allImagesExist_spec.
    + split; [discriminate|]. intros (_ & c & m' & Hc' & Hm' & _ & Hi).
      simplify_eq. rewrite Hex in Hi. apply allImagesExist_spec in Hi. congruence.
Qed.

(** ** The steps of the Sync Engine *)

Lemma start_effect (imagesDir : string) (l : locals) (i : imageInfo) :
  let l' := start imagesDir l i in
  mapping (l_pass l')
  = <[nameOf i := Asset (url i) (join IMAGES_DIR_NAME (nameOf i))]> (mapping (l_pass l))
  ∧ missingImages (l_pass l') = missingImages (l_pass l)
  ∧ usedImageFiles (l_pass l') = usedImageFiles (l_pass l) ∪ {[nameOf i]}
  ∧ files (l_world l') = files (l_world l)
  ∧ requests (l_world l') = requests (l_world l)
  ∧ ((existsSync (l_world l) (join imagesDir (nameOf i)) = true
      ∧ l_world l' = l_world l
      ∧ l_downloadPromises l' = l_downloadPromises l)
     ∨ (existsSync (l_world l) (join imagesDir (nameOf i)) = false
        ∧ trace (l_world l') = trace (l_world l) ++ [DownloadStart (join imagesDir (nameOf i))]
        ∧ ∃ d, started imagesDir d ∧ d_found d = i
               ∧ l_downloadPromises l' = l_downloadPromises l ++ [d])).
Proof.
  unfold start, nameOf, downloadImage.
  destruct (existsSync (l_world l) _) eqn:E; simpl.
  - repeat split; auto.
  - repeat split; auto. right. repeat split; auto.
    eexists. split; [|split]; cycle 2.
    + reflexivity.
    + unfold started, nameOf. simpl. done.
    + reflexivity.
Qed.

Lemma finish_effect (cfg : config) (o : oracle) (fileName imagesDir : string)
    (l : locals) (d : download) :
  started imagesDir d →
  let l' := finish cfg o fileName l d in
  mapping (l_pass l') = mapping (l_pass l)
  ∧ usedImageFiles (l_pass l') = usedImageFiles (l_pass l)
  ∧ l_downloadPromises l' = l_downloadPromises l
  ∧ ((∃ body,
        files (l_world l') = <[d_localImagePath d := Text body]> (files (l_world l))
        ∧ missingImages (l_pass l') = missingImages (l_pass l))
     ∨ (retryCount cfg = 0
        ∧ files (l_world l') = files (l_world l)
        ∧ missingImages (l_pass l') = missingImages (l_pass l))
     ∨ (retryCount cfg ≠ 0
        ∧ files (l_world l') = files (l_world l)
        ∧ ∃ message,
            missingImages (l_pass l')
            = <[d_imageFileName d :=
                  {| originalUrl := url (d_found d);
                     expectedPath := d_relativeImagePath d;
                     localFilePath := d_localImagePath d;
                     error := message;
                     sourceFile := fileName |}]> (missingImages (l_pass l)))).
Proof.
  intros (_ & _ & _ & Hpr). unfold finish, settle. rewrite Hpr, attempts_same.
  pose proof (attempts_files o (url (d_found d)) (d_localImagePath d) (retryCount cfg) 1
                (l_world l)) as H.
  destruct (FixMissingImages.attempts _ _ _ _ _ _) as [[[]|message] w']; simpl.
  - destruct H as [body H]. repeat split; auto. left. eauto.
  - destruct H as [H0 H]. repeat split; auto.
  - destruct H as [H0 H]. repeat split; auto. right. right. eauto.
Qed.

Lemma setMetadata_effect (o : oracle) (contentHash : string) (p : pass) (w : world) :
  mapping (fst (setMetadata o contentHash p w))
  = <["_metadata" := Metadata contentHash (clock o (ticks w))]> (mapping p)
  ∧ missingImages (fst (setMetadata o contentHash p w)) = missingImages p
  ∧ usedImageFiles (fst (setMetadata o contentHash p w)) = usedImageFiles p
  ∧ files (snd (setMetadata o contentHash p w)) = files w
  ∧ requests (snd (setMetadata o contentHash p w)) = requests w
  ∧ trace (snd (setMetadata o contentHash p w)) = trace w.
Proof. done. Qed.

Lemma processMarkdownFile_way (cfg : config) (o : oracle)
    (filePath outputDir imagesDir mappingPath : string) (p : pass) (w : world) :
  let '(r, p', w') :=
    processMarkdownFile cfg o filePath outputDir imagesDir mappingPath p w in
  way cfg o filePath outputDir imagesDir mappingPath p w r p' w'.
Proof.
  unfold processMarkdownFile.
  destruct (readText w filePath) as [content|] eqn:Hread; [|by constructor].
  destruct (isFileProcessed w filePath _ mappingPath) eqn:Hskip.
  { by eapply skip. }
  destruct (extractImageUrls content) as [|i rest] eqn:Hex.
  { pose proof (copy cfg o filePath outputDir imagesDir mappingPath p w content
                  {| processed := true; skipped := false; imagesCount := 0;
                     downloadedCount := 0; failedCount := 0 |} Hread Hskip Hex
                  eq_refl eq_refl) as H. exact H. }
  assert (Hne : extractImageUrls content ≠ []) by (by rewrite Hex).
  pose proof (localise cfg o filePath outputDir imagesDir mappingPath p w content) as H.
  rewrite Hex in H. eapply H; done.
Qed.

Lemma processFile_way (cfg : config) (o : oracle)
    (outputFolderPath imagesDir mappingPath : string) (t : totals) (file : string) :
  let t' := processFile cfg o outputFolderPath imagesDir mappingPath t file in
  ∃ r, way cfg o file outputFolderPath imagesDir mappingPath (t_pass t) (t_world t)
         r (t_pass t') (t_world t').
Proof.
  unfold processFile.
  pose proof (processMarkdownFile_way cfg o file outputFolderPath imagesDir mappingPath
                (t_pass t) (t_world t)) as H.
  destruct (processMarkdownFile _ _ _ _ _ _ _ _) as [[r p] w].
  exists r. by destruct (processed r).
Qed.

Lemma start_loop_files (imagesDir : string) (imageUrls : list imageInfo) (l : locals) :
  Forall (started imagesDir) (l_downloadPromises l) →
  let l' := fold_left (start imagesDir) imageUrls l in
  files (l_world l') = files (l_world l)
  ∧ Forall (started imagesDir) (l_downloadPromises l').
Proof.
  intros Hj.
  apply (fold_left_invariant (start imagesDir)
           (fun l' => files (l_world l') = files (l_world l)
                      ∧ Forall (started imagesDir) (l_downloadPromises l'))).
  - done.
  - intros l' i _ [Hf Hs].
    destruct (start_effect imagesDir l' i) as (_ & _ & _ & Hfiles & _ & Hcase).
    simpl in *. split; [congruence|].
    destruct Hcase as [(_ & _ & ->)|(_ & _ & d & Hd & _ & ->)]; [done|].
    apply Forall_app. split; [done|]. by apply Forall_singleton.
Qed.

Lemma finish_loop_frame (cfg : config) (o : oracle) (fileName imagesDir : string)
    (ds : list download) (l : locals) (q : string) :
  Forall (started imagesDir) ds →
  (∀ n, q ≠ join imagesDir n) →
  files (l_world (fold_left (finish cfg o fileName) ds l)) !! q = files (l_world l) !! q.
Proof.
  intros Hds Hq. revert l. induction Hds as [|d ds Hd _ IH]; intros l; simpl; [done|].
  rewrite IH.
  destruct (finish_effect cfg o fileName imagesDir l d Hd)
    as (_ & _ & _ & [(body & Hf & _)|[(_ & Hf & _)|(_ & Hf & _)]]); simpl in *;
    rewrite Hf; [|done|done].
  destruct Hd as (_ & _ & Hl & _). rewrite Hl. by apply lookup_insert_ne.
Qed.

(** The files that a run of [processMarkdownFile] leaves as they are: all
    but the output document, [mapping.json] and the image files. *)
Lemma way_frame (cfg : config) (o : oracle)
    (filePath outputDir imagesDir mappingPath : string) (p : pass) (w : world)
    (r : result) (p' : pass) (w' : world) (q : string) :
  way cfg o filePath outputDir imagesDir mappingPath p w r p' w' →
  q ≠ join outputDir (path_basename filePath) →
  (∀ n, q ≠ join imagesDir n) →
  files w' !! q = files w !! q
  ∨ (q = mappingPath
     ∧ ∃ content timestamp,
         readText w filePath = Some content
         ∧ extractImageUrls content = []
         ∧ files w' !! mappingPath
           = Some (MappingJson
                     (<["_metadata" := Metadata (calculateFileHash content) timestamp]>
                        (mapping p)))).
Proof.
  intros Hway Hout Himg.
  destruct Hway as [|content r _ _ _ _ _|content r Hread _ Hnone _ _ w1 s
                    |content r _ _ _ _ _ imageUrls l1 l2 newContent w3 s _].
  - by left.
  - by left.
  - subst s w1. simpl. destruct (decide (q = mappingPath)) as [->|Hne].
    + right. split; [done|]. exists content, (clock o (ticks w)).
      by rewrite lookup_insert_eq.
    + left. by rewrite !lookup_insert_ne.
  - left. subst s w3. simpl. rewrite lookup_insert_ne by done.
    unfold l2. rewrite awaitAll_fold.
    destruct (start_loop_files imagesDir imageUrls
                {| l_pass := p; l_world := w; l_downloadedCount := 0;
                   l_downloadResults := ∅; l_downloadPromises := [] |})
      as [Hfiles Hstarted]; [constructor|].
    fold l1 in Hfiles, Hstarted. simpl in Hfiles.
    rewrite (finish_loop_frame cfg o (path_basename filePath) imagesDir); [by rewrite Hfiles| |done].
    rewrite Forall_forall in Hstarted. apply Forall_forall. intros d Hd.
    apply Hstarted. by apply slices_elem in Hd.
Qed.

(** ** The Concurrency Governor *)

Lemma absent_ext (w w' : world) (imagesDir : string) (imageUrls : list imageInfo) :
  files w' = files w → absent w' imagesDir imageUrls = absent w imagesDir imageUrls.
Proof.
  intros Hfiles. unfold absent. induction imageUrls as [|i rest IH]; simpl; [done|].
  rewrite IH. by rewrite (existsSync_ext w w') by (by rewrite Hfiles).
Qed.

Lemma start_loop_trace (imagesDir : string) (imageUrls : list imageInfo) (l : locals) :
  trace (l_world (fold_left (start imagesDir) imageUrls l))
  = trace (l_world l)
    ++ List.map (fun i => DownloadStart (join imagesDir (nameOf i)))
         (absent (l_world l) imagesDir imageUrls).
Proof.
  revert l. induction imageUrls as [|i rest IH]; intros l; simpl.
  { by rewrite app_nil_r. }
  rewrite IH.
  destruct (start_effect imagesDir l i) as (_ & _ & _ & Hfiles & _ & Hcase).
  simpl in Hfiles, Hcase. rewrite (absent_ext (l_world l)) by done.
  destruct Hcase as [(Hi & -> & _)|(Hi & -> & _)]; rewrite Hi; simpl; [done|].
  by rewrite <- app_assoc.
Qed.

Lemma attempts_trace (o : oracle) (url localPath : string) (remaining attempt : nat)
    (w : world) :
  trace w `prefix_of` trace (snd (attempts o url localPath attempt remaining w)).
Proof.
  revert attempt w. induction remaining as [|rest IH]; intros attempt w; simpl; [done|].
  destruct (got o (requests w) url) as [body|message]; simpl.
  - by apply prefix_app_r.
  - destruct rest as [|rest']; [by apply prefix_app_r|].
    etrans; [|apply IH]. by apply prefix_app_r.
Qed.

Lemma finish_trace (cfg : config) (o : oracle) (fileName : string) (l : locals)
    (d : download) :
  trace (l_world l) `prefix_of` trace (l_world (finish cfg o fileName l d)).
Proof.
  unfold finish, settle. destruct (d_promise d) as [v|url localPath]; simpl; [done|].
  pose proof (attempts_trace o url localPath (retryCount cfg) 1 (l_world l)) as H.
  destruct (attempts o url localPath 1 (retryCount cfg) (l_world l)) as [[b|m] w1];
    simpl in *; by apply prefix_app_r.
Qed.

Lemma awaitAll_trace (cfg : config) (o : oracle) (fileName : string) (l : locals)
    (cs : list (list download)) :
  trace (l_world l) `prefix_of` trace (l_world (awaitAll cfg o fileName l cs)).
Proof.
  rewrite awaitAll_fold.
  apply (fold_left_invariant (finish cfg o fileName)
           (fun l' => trace (l_world l) `prefix_of` trace (l_world l'))); [done|].
  intros l' d _ Hl'. etrans; [exact Hl'|apply finish_trace].
Qed.

Lemma peak_from_le (n : nat) (t : list event) : n ≤ peak_from n t.
Proof. destruct t; simpl; lia. Qed.

Lemma peak_from_starts (n : nat) (paths : list string) (t : list event) :
  n + length paths ≤ peak_from n (List.map DownloadStart paths ++ t).
Proof.
  revert n. induction paths as [|q paths IH]; intros n; simpl.
  - pose proof (peak_from_le n t). lia.
  - specialize (IH (S n)). lia.
Qed.

(** C1 (the code departs from the claim).  The loop over the references
    calls [downloadImage] for every reference whose file is absent, and
    each call starts its download at once; the chunks only group the
    promises that are then awaited.  So the downloads in flight while a
    document is processed are as many as its references with an absent
    file, whatever the configured bound is: with the default bound of five,
    a document with six absent images has six downloads in flight. *)
Theorem downloads_in_flight_exceed_bound :
  (∀ cfg o filePath outputDir imagesDir mappingPath p w content,
     readText w filePath = Some content →
     isFileProcessed w filePath (join outputDir (path_basename filePath)) mappingPath
     = false →
     let '(_, _, w') :=
       processMarkdownFile cfg o filePath outputDir imagesDir mappingPath p w in
     length (absent w imagesDir (extractImageUrls content))
     ≤ peak_in_flight (events_since w w'))
  ∧ let '(r, _, w) :=
      processMarkdownFile defaultConfig Scenarios.online "downloads/book/a.md"
        Scenarios.outputFolder Scenarios.imagesFolder Scenarios.mappingFile
        Scenarios.nothing Scenarios.six_images in
    maxConcurrent defaultConfig = 5
    ∧ downloadedCount r = 6
    ∧ firstn 6 (trace w)
      = List.map (fun n => DownloadStart (join Scenarios.imagesFolder n))
          ["cd827285.jpg"; "24e66f16.jpg"; "5d1f3759.jpg";
           "10631fc3.jpg"; "da559dd4.jpg"; "d25e6fd5.jpg"]
    ∧ peak_in_flight (trace w) = 6.
Proof.
  split; [|vm_compute; repeat split; reflexivity].
  intros cfg o filePath outputDir imagesDir mappingPath p w content Hread Hskip.
  pose proof (processMarkdownFile_way cfg o filePath outputDir imagesDir mappingPath p w)
    as Hway.
  destruct (processMarkdownFile _ _ _ _ _ _ _ _) as [[r p'] w'].
  destruct Hway as [Hnone|c r _ Hyes _ _ _|c r Hc _ Hnoimage _ _ w1 s
                    |c r Hc _ _ _ _ imageUrls l1 l2 newContent w3 s _].
  - congruence.
  - congruence.
  - rewrite Hread in Hc. injection Hc as <-. rewrite Hnoimage. simpl. lia.
  - rewrite Hread in Hc. injection Hc as <-. subst s w3. simpl.
    destruct (awaitAll_trace cfg o (path_basename filePath) l1
                (chunks (maxConcurrent cfg) (l_downloadPromises l1))) as [rest Hrest].
    fold l2 in Hrest. unfold events_since. rewrite Hrest. unfold l1.
    rewrite start_loop_trace. simpl. rewrite <- app_assoc, drop_app_length.
    fold imageUrls.
    pose proof (peak_from_starts 0
                  (List.map (fun i => join imagesDir (nameOf i)) (absent w imagesDir imageUrls))
                  rest) as H.
    rewrite List.map_map, length_map in H. exact H.
Qed.

Lemma downloads_in_flight_exceed_bound_witness :
  (readText Scenarios.six_images "downloads/book/a.md" = Some Scenarios.six_links
   ∧ isFileProcessed Scenarios.six_images "downloads/book/a.md"
       (join Scenarios.outputFolder (path_basename "downloads/book/a.md"))
       Scenarios.mappingFile = false)
  ∧ let '(_, _, w') :=
      processMarkdownFile defaultConfig Scenarios.online "downloads/book/a.md"
        Scenarios.outputFolder Scenarios.imagesFolder Scenarios.mappingFile
        Scenarios.nothing Scenarios.six_images in
    length (absent Scenarios.six_images Scenarios.imagesFolder
              (extractImageUrls Scenarios.six_links))
    ≤ peak_in_flight (events_since Scenarios.six_images w').
Proof.
  assert (H1 : readText Scenarios.six_images "downloads/book/a.md"
               = Some Scenarios.six_links) by (vm_compute; reflexivity).
  assert (H2 : isFileProcessed Scenarios.six_images "downloads/book/a.md"
                 (join Scenarios.outputFolder (path_basename "downloads/book/a.md"))
                 Scenarios.mappingFile = false) by (vm_compute; reflexivity).
  split; [exact (conj H1 H2)|].
  destruct downloads_in_flight_exceed_bound as [H _].
  exact (H defaultConfig Scenarios.online
           "downloads/book/a.md" Scenarios.outputFolder Scenarios.imagesFolder
           Scenarios.mappingFile Scenarios.nothing Scenarios.six_images
           Scenarios.six_links H1 H2).
Defined.

(** ** A sync pass *)

Lemma cleanedMapping_fold (m : gmap string mappingValue) (names : list string)
    (kept : gmap string mappingValue) (k : string) :
  (∀ k v, kept !! k = Some v → m !! k = Some v) →
  fold_left
    (fun cleaned imageFile =>
       match m !! imageFile with
       | Some entry => <[imageFile := entry]> cleaned
       | None => cleaned
       end)
    names kept !! k
  = if decide (k ∈ names) then m !! k else kept !! k.
Proof.
  revert kept. induction names as [|n names IH]; intros kept Hsub; simpl.
  { done. }
  rewrite IH.
  - destruct (decide (k ∈ names)) as [Hin|Hout].
    + by rewrite decide_True by (by right).
    + destruct (decide (k = n)) as [->|Hne].
      * rewrite decide_True by (by left).
        destruct (m !! n) as [entry|] eqn:E; [by rewrite lookup_insert_eq|].
        destruct (kept !! n) as [v|] eqn:E'; [|done]. apply Hsub in E'. congruence.
      * rewrite decide_False by (by intros [?|?]%elem_of_cons).
        destruct (m !! n); [by rewrite lookup_insert_ne|done].
  - intros k' v. destruct (m !! n) as [entry|] eqn:E; [|apply Hsub].
    intros Hk'. apply lookup_insert_Some in Hk' as [[<- <-]|[_ Hk']]; [done|by apply Hsub].
Qed.

(** The mapping that the Cleanup Pass persists: the metadata and the
    entries of the used files, as [mapping] has them. *)
Lemma cleanedMapping_lookup (m : gmap string mappingValue) (used : gset string)
    (k : string) :
  cleanedMapping m used !! k
  = if decide (k = "_metadata" ∨ k ∈ used) then m !! k else None.
Proof.
  unfold cleanedMapping. rewrite cleanedMapping_fold.
  - destruct (decide (k ∈ elements used)) as [Hin|Hout].
    + rewrite decide_True; [done|]. right. by apply elem_of_elements.
    + destruct (decide (k = "_metadata")) as [->|Hne].
      * rewrite decide_True by (by left).
        destruct (m !! "_metadata"); [by rewrite lookup_insert_eq|done].
      * rewrite decide_False.
        -- destruct (m !! "_metadata"); [by rewrite lookup_insert_ne|done].
        -- intros [?|?]; [done|]. by apply Hout, elem_of_elements.
  - intros k' v. destruct (m !! "_metadata") as [metadata|] eqn:E; [|done].
    intros Hk'. by apply lookup_insert_Some in Hk' as [[<- <-]|[_ Hk']].
Qed.

Lemma cleanFile_fold (imagesDir : string) (used : gset string) (names : list string)
    (s : world * nat) (q : string) :
  (∀ n, q = join imagesDir n → n ∈ used) →
  files (fst (fold_left (cleanFile imagesDir used) names s)) !! q = files (fst s) !! q.
Proof.
  intros Hq. revert s. induction names as [|n names IH]; intros s; simpl; [done|].
  rewrite IH. unfold cleanFile. case_bool_decide as Hn; [done|]. simpl.
  apply lookup_delete_ne. intros E. symmetry in E. by apply Hq in E.
Qed.

(** A pass that ends normally after it found documents: no [mapping.json]
    was there when it began, and it ends by persisting the cleaned mapping
    and the ledger. *)
Lemma processFolder_normal (cfg : config) (o : oracle) (folderName : string) (w : world)
    (r : folderResult) (p : pass) (w' : world) :
  processFolder cfg o folderName w = Normal (r, p, w') →
  f_total r ≠ 0 →
  let outputFolderPath := join OUTPUT_DIR folderName in
  let imagesDir := join outputFolderPath IMAGES_DIR_NAME in
  let mappingPath := join outputFolderPath "mapping.json" in
  let t :=
    fold_left (processFile cfg o outputFolderPath imagesDir mappingPath)
      (documents w folderName) (fresh w) in
  existsSync w mappingPath = false
  ∧ p = t_pass t
  ∧ readMapping w' mappingPath = Some (cleanedMapping (mapping p) (usedImageFiles p))
  ∧ ledger w' outputFolderPath = missingImages p
  ∧ ∀ q, (∀ n, q = join imagesDir n → n ∈ usedImageFiles p) →
         q ≠ mappingPath → q ≠ join outputFolderPath "missing-images.json" →
         files w' !! q = files (t_world t) !! q.
Proof.
  intros Hrun Htotal outputFolderPath imagesDir mappingPath t. subst t.
  unfold processFolder in Hrun. fold (documents w folderName) in Hrun.
  fold outputFolderPath imagesDir mappingPath in Hrun. fold (fresh w) in Hrun.
  destruct (documents w folderName) as [|file rest] eqn:Hdocs.
  { injection Hrun as <- _ _. done. }
  set (t := fold_left (processFile cfg o outputFolderPath imagesDir mappingPath)
              (file :: rest) (fresh w)) in *.
  destruct (existsSync w mappingPath) eqn:Hexists.
  { destruct (readMapping w mappingPath); discriminate. }
  cbv beta iota delta [mbind completion_bind] in Hrun.
  destruct (fold_left (cleanFile imagesDir (usedImageFiles (t_pass t)))
              (readdirSync (t_world t) imagesDir) (t_world t, 0))
    as [w1 cleanedCount] eqn:Hclean.
  injection Hrun as _ <- <-.
  assert (Hw1 : ∀ q, (∀ n, q = join imagesDir n → n ∈ usedImageFiles (t_pass t)) →
                     files w1 !! q = files (t_world t) !! q).
  { intros q Hq.
    pose proof (cleanFile_fold imagesDir (usedImageFiles (t_pass t))
                  (readdirSync (t_world t) imagesDir) (t_world t, 0) q Hq) as H.
    by rewrite Hclean in H. }
  split; [done|]. split; [done|].
  set (w2 := writeFileSync mappingPath
               (MappingJson (cleanedMapping (mapping (t_pass t)) (usedImageFiles (t_pass t))))
               w1).
  pose proof (mapping_not_ledger outputFolderPath) as Hne. fold mappingPath in Hne.
  case_bool_decide as Hempty; simpl.
  - destruct (existsSync w2 (join outputFolderPath "missing-images.json")) eqn:E.
    + split; [|split].
      * unfold readMapping, w2. simpl.
        by rewrite lookup_delete_ne, lookup_insert_eq.
      * unfold ledger, readMissing. simpl. by rewrite lookup_delete_eq, Hempty.
      * intros q Hq H1 H2. simpl.
        rewrite lookup_delete_ne, lookup_insert_ne by done. by apply Hw1.
    + split; [|split].
      * unfold readMapping, w2. simpl. by rewrite lookup_insert_eq.
      * apply existsSync_None in E. unfold ledger, readMissing. by rewrite E, Hempty.
      * intros q Hq H1 H2. simpl. rewrite lookup_insert_ne by done. by apply Hw1.
  - split; [|split].
    + unfold readMapping, w2. simpl.
      by rewrite lookup_insert_ne, lookup_insert_eq.
    + unfold ledger, readMissing. simpl. by rewrite lookup_insert_eq.
    + intros q Hq H1 H2. simpl. rewrite !lookup_insert_ne by done. by apply Hw1.
Qed.

(** The counters of a pass. *)
Lemma processFile_skipped (cfg : config) (o : oracle)
    (outputFolderPath imagesDir mappingPath : string) (t : totals) (file : string) :
  let t' := processFile cfg o outputFolderPath imagesDir mappingPath t file in
  t_skippedCount t' ≤ S (t_skippedCount t)
  ∧ (existsSync (t_world t) mappingPath = false → t_skippedCount t' = t_skippedCount t).
Proof.
  unfold processFile.
  pose proof (processMarkdownFile_way cfg o file outputFolderPath imagesDir mappingPath
                (t_pass t) (t_world t)) as Hway.
  destruct (processMarkdownFile _ _ _ _ _ _ _ _) as [[r p] w].
  destruct (processed r) eqn:Hp; simpl; [|split; [lia|done]].
  destruct (skipped r) eqn:Hs; [|split; [lia|done]].
  split; [lia|]. intros Habsent.
  destruct Hway as [|content r _ Hskip _ _ _|content r _ _ _ _ Hs' w1 s
                    |content r _ _ _ _ Hs' imageUrls l1 l2 newContent w3 s _];
    try (simpl in *; congruence).
  apply isFileProcessed_spec in Hskip as (_ & c & m & _ & Hm & _).
  unfold readMapping in Hm. apply existsSync_None in Habsent. by rewrite Habsent in Hm.
Qed.

Lemma pass_skipped (cfg : config) (o : oracle)
    (outputFolderPath imagesDir mappingPath : string) (docs : list string) (t : totals) :
  t_skippedCount (fold_left (processFile cfg o outputFolderPath imagesDir mappingPath) docs t)
  ≤ t_skippedCount t + length docs.
Proof.
  revert t. induction docs as [|file docs IH]; intros t; simpl; [lia|].
  etrans; [apply IH|].
  pose proof (processFile_skipped cfg o outputFolderPath imagesDir mappingPath t file)
    as [H _]. simpl in H. lia.
Qed.

Lemma processFolder_counts (cfg : config) (o : oracle) (folderName : string) (w : world)
    (r : folderResult) (p : pass) (w' : world) :
  processFolder cfg o folderName w = Normal (r, p, w') →
  f_total r ≠ 0 →
  f_skipped r < f_total r.
Proof.
  intros Hrun Htotal. unfold processFolder in Hrun.
  fold (documents w folderName) in Hrun. fold (fresh w) in Hrun.
  destruct (documents w folderName) as [|file rest] eqn:Hdocs.
  { injection Hrun as <- _ _. done. }
  destruct (existsSync w (join (join OUTPUT_DIR folderName) "mapping.json")) eqn:Hexists.
  { destruct (readMapping w _); discriminate. }
  cbv beta iota delta [mbind completion_bind] in Hrun.
  destruct (fold_left (cleanFile _ _) _ _) as [w1 cleanedCount].
  injection Hrun as <- _ _. simpl.
  pose proof (pass_skipped cfg o (join OUTPUT_DIR folderName)
                (join (join OUTPUT_DIR folderName) IMAGES_DIR_NAME)
                (join (join OUTPUT_DIR folderName) "mapping.json") rest
                (processFile cfg o (join OUTPUT_DIR folderName)
                   (join (join OUTPUT_DIR folderName) IMAGES_DIR_NAME)
                   (join (join OUTPUT_DIR folderName) "mapping.json") (fresh w) file))
    as H1.
  pose proof (processFile_skipped cfg o (join OUTPUT_DIR folderName)
                (join (join OUTPUT_DIR folderName) IMAGES_DIR_NAME)
                (join (join OUTPUT_DIR folderName) "mapping.json") (fresh w) file)
    as [_ H2].
  simpl in H2. rewrite H2 in H1 by done. simpl in H1. lia.
Qed.

Lemma failed_pass_run :
  processFolder defaultConfig Scenarios.offline "book" Scenarios.one_image
  = Normal (Scenarios.failed_pass.1.1, Scenarios.failed_pass.1.2, Scenarios.failed_pass.2)
  ∧ f_total Scenarios.failed_pass.1.1 ≠ 0.
Proof. split; [vm_compute; reflexivity|vm_compute; discriminate]. Defined.

(** ** What the mapping and the ledger of a pass hold *)

Lemma start_recorded (imagesDir : string) (l : locals) (i : imageInfo) :
  entries_recorded (l_pass l) → failures_recorded imagesDir (l_pass l) →
  Forall (started_in imagesDir (l_pass l)) (l_downloadPromises l) →
  let l' := start imagesDir l i in
  entries_recorded (l_pass l') ∧ failures_recorded imagesDir (l_pass l')
  ∧ Forall (started_in imagesDir (l_pass l')) (l_downloadPromises l').
Proof.
  intros He Hf Hj.
  destruct (start_effect imagesDir l i) as (Hm & Hmi & Hu & _ & _ & Hjobs).
  simpl. split; [|split].
  - intros k v. rewrite Hm, Hu. intros Hk.
    apply lookup_insert_Some in Hk as [[<- <-]|[Hne Hk]].
    + right. split; [by apply elem_of_union_r, elem_of_singleton|]. by exists (url i).
    + destruct (He k v Hk) as [->|[Hused Hv]]; [by left|]. right. split; [by apply elem_of_union_l|done].
  - intros k info. rewrite Hmi, Hm, Hu. intros Hk.
    destruct (Hf k info Hk) as (H1 & H2 & H3 & H4).
    split; [by apply elem_of_union_l|]. split; [|done].
    destruct (decide (nameOf i = k)) as [->|Hne].
    + by rewrite lookup_insert_eq.
    + by rewrite lookup_insert_ne.
  - assert (Hold : Forall (started_in imagesDir (l_pass (start imagesDir l i)))
                     (l_downloadPromises l)).
    { eapply Forall_impl; [exact Hj|]. intros d (H1 & H2 & H3).
      split; [done|]. rewrite Hm, Hu. split; [by apply elem_of_union_l|].
      destruct (decide (nameOf i = d_imageFileName d)) as [->|Hne].
      - by rewrite lookup_insert_eq.
      - by rewrite lookup_insert_ne. }
    destruct Hjobs as [(_ & _ & ->)|(_ & _ & d & Hd & Hi & ->)]; [done|].
    apply Forall_app. split; [done|]. apply Forall_singleton.
    split; [done|]. rewrite Hm, Hu. destruct Hd as (Hn & _). rewrite Hn, Hi.
    split; [by apply elem_of_union_r, elem_of_singleton|]. by rewrite lookup_insert_eq.
Qed.

Lemma finish_recorded (cfg : config) (o : oracle) (fileName imagesDir : string)
    (l : locals) (d : download) :
  entries_recorded (l_pass l) → failures_recorded imagesDir (l_pass l) →
  started_in imagesDir (l_pass l) d →
  let l' := finish cfg o fileName l d in
  entries_recorded (l_pass l') ∧ failures_recorded imagesDir (l_pass l')
  ∧ mapping (l_pass l') = mapping (l_pass l)
  ∧ usedImageFiles (l_pass l') = usedImageFiles (l_pass l).
Proof.
  intros He Hf (Hd & Hused & Hmapped).
  destruct (finish_effect cfg o fileName imagesDir l d Hd) as (Hm & Hu & _ & Hcase).
  simpl. split; [|split; [|done]].
  - intros k v. rewrite Hm, Hu. apply He.
  - intros k info. rewrite Hm, Hu.
    destruct Hcase as [(body & _ & ->)|[(_ & _ & ->)|(_ & _ & message & ->)]];
      [apply Hf|apply Hf|].
    intros Hk. apply lookup_insert_Some in Hk as [[<- <-]|[Hne Hk]]; [|by apply Hf].
    simpl. destruct Hd as (Hn & _ & Hl & _). split; [done|]. split; [done|].
    split; [done|]. by rewrite Hn.
Qed.

Lemma processMarkdownFile_recorded (cfg : config) (o : oracle)
    (filePath outputDir imagesDir mappingPath : string) (p : pass) (w : world)
    (r : result) (p' : pass) (w' : world) :
  way cfg o filePath outputDir imagesDir mappingPath p w r p' w' →
  entries_recorded p → failures_recorded imagesDir p →
  entries_recorded p' ∧ failures_recorded imagesDir p'.
Proof.
  intros Hway He Hf.
  assert (Hmeta : ∀ h q x, entries_recorded q → failures_recorded imagesDir q →
            entries_recorded (fst (setMetadata o h q x))
            ∧ failures_recorded imagesDir (fst (setMetadata o h q x))).
  { intros h q x Hq1 Hq2. split.
    - intros k v. simpl. intros Hk.
      apply lookup_insert_Some in Hk as [[<- <-]|[Hne Hk]]; [by left|by apply Hq1].
    - intros k info. simpl. intros Hk. destruct (Hq2 k info Hk) as (H1 & H2 & H3).
      split; [done|]. split; [|done].
      destruct (decide ("_metadata" = k)) as [<-|Hne].
      + by rewrite lookup_insert_eq.
      + by rewrite lookup_insert_ne. }
  destruct Hway as [|content r _ _ _ _ _|content r _ _ _ _ _ w1 s
                    |content r _ _ _ _ _ imageUrls l1 l2 newContent w3 s _].
  - done.
  - split.
    + intros k v Hk. destruct (He k v Hk) as [->|[Hused Hv]]; [by left|].
      right. simpl. split; [by apply elem_of_union_l|done].
    + intros k info Hk. destruct (Hf k info Hk) as (H1 & H2). simpl.
      split; [by apply elem_of_union_l|done].
  - by apply Hmeta.
  - subst s.
    set (P := fun l => entries_recorded (l_pass l) ∧ failures_recorded imagesDir (l_pass l)
                       ∧ Forall (started_in imagesDir (l_pass l)) (l_downloadPromises l)).
    assert (H1 : P l1).
    { apply (fold_left_invariant (start imagesDir) P).
      - unfold P. simpl. split; [done|]. split; [done|]. constructor.
      - intros l i _ (Ha & Hb & Hc). by apply start_recorded. }
    destruct H1 as (Ha & Hb & Hc).
    set (Q := fun l => entries_recorded (l_pass l) ∧ failures_recorded imagesDir (l_pass l)
                       ∧ mapping (l_pass l) = mapping (l_pass l1)
                       ∧ usedImageFiles (l_pass l) = usedImageFiles (l_pass l1)).
    assert (H2 : Q l2).
    { unfold l2. rewrite awaitAll_fold.
      apply (fold_left_invariant (finish cfg o (path_basename filePath)) Q).
      - unfold Q. done.
      - intros l d Hd (Hx & Hy & Hm & Hu).
        apply slices_elem in Hd.
        rewrite Forall_forall in Hc. destruct (Hc d Hd) as (Hs & Hs1 & Hs2).
        destruct (finish_recorded cfg o (path_basename filePath) imagesDir l d Hx Hy)
          as (Hx' & Hy' & Hm' & Hu').
        { split; [done|]. by rewrite Hm, Hu. }
        unfold Q. split; [done|]. split; [done|]. split; congruence. }
    destruct H2 as (Hx & Hy & _). by apply Hmeta.
Qed.

Lemma pass_recorded (cfg : config) (o : oracle)
    (outputFolderPath imagesDir mappingPath : string) (files : list string) (w : world) :
  let t :=
    fold_left (processFile cfg o outputFolderPath imagesDir mappingPath) files (fresh w) in
  entries_recorded (t_pass t) ∧ failures_recorded imagesDir (t_pass t).
Proof.
  apply (fold_left_invariant _
           (fun t => entries_recorded (t_pass t) ∧ failures_recorded imagesDir (t_pass t))).
  - split; intros k v Hk; simpl in Hk; by rewrite lookup_empty in Hk.
  - intros t file _ [He Hf].
    destruct (processFile_way cfg o outputFolderPath imagesDir mappingPath t file)
      as [r Hway].
    by eapply processMarkdownFile_recorded.
Qed.

(** The ledger that a sync pass persists is as the recovery pass expects
    it. *)
Lemma sync_ledger_as_written (cfg : config) (o : oracle) (folderName : string)
    (w : world) (r : folderResult) (p : pass) (w' : world) :
  processFolder cfg o folderName w = Normal (r, p, w') →
  f_total r ≠ 0 →
  ledger_as_written w' (join OUTPUT_DIR folderName).
Proof.
  intros Hrun Htotal k info Hk.
  destruct (processFolder_normal cfg o folderName w r p w' Hrun Htotal)
    as (_ & Hp & _ & Hledger & _).
  destruct (pass_recorded cfg o (join OUTPUT_DIR folderName)
              (join (join OUTPUT_DIR folderName) IMAGES_DIR_NAME)
              (join (join OUTPUT_DIR folderName) "mapping.json")
              (documents w folderName) w) as [_ Hf].
  simpl in Hf. rewrite <- Hp in Hf. rewrite Hledger in Hk.
  right. by apply (Hf k info Hk).
Qed.

(** ** The Cleanup Pass *)

Lemma processMarkdownFile_used_mapped (cfg : config) (o : oracle) (w0 : world)
    (folderName file : string) (p : pass) (w : world)
    (r : result) (p' : pass) (w' : world) :
  let outputFolderPath := join OUTPUT_DIR folderName in
  fingerprints_faithful w0 folderName →
  file ∈ documents w0 folderName →
  way cfg o file outputFolderPath (join outputFolderPath IMAGES_DIR_NAME)
    (join outputFolderPath "mapping.json") p w r p' w' →
  used_are_mapped w0 folderName p w →
  used_are_mapped w0 folderName p' w'.
Proof.
  intros outputFolderPath Hfaithful Hfile Hway (Hused & Hdocs & Hmapping).
  destruct (documents_elem w0 folderName file Hfile) as (name & Hname & Hplain & Hmd).
  assert (Hbase : path_basename file = name) by (rewrite Hname; by apply path_basename_join).
  (* the files that matter are not the output document nor image files *)
  assert (Hframe : ∀ q,
            q = join outputFolderPath "mapping.json" ∨ q ∈ documents w0 folderName →
            q ≠ join outputFolderPath (path_basename file)
            ∧ ∀ n, q ≠ join (join outputFolderPath IMAGES_DIR_NAME) n).
  { intros q [->|Hq].
    - split.
      + rewrite Hbase. intros E. apply join_inj in E.
        symmetry in E. by apply markdown_not_mapping in E.
      + intros n E. symmetry in E. by apply image_not_mapping in E.
    - split.
      + by apply (document_not_written w0 folderName).
      + intros n. unfold outputFolderPath. rewrite join_join.
        by apply (document_not_written w0 folderName). }
  assert (Hdocs' : ∀ f, f ∈ documents w0 folderName → files w' !! f = files w0 !! f).
  { intros f Hf. rewrite <- (Hdocs f Hf).
    destruct (Hframe f (or_intror Hf)) as [H1 H2].
    destruct (way_frame _ _ _ _ _ _ _ _ _ _ _ f Hway H1 H2) as [?|[-> _]]; [done|].
    exfalso. revert Hf. unfold outputFolderPath. intros Hf.
    by apply (document_not_written w0 folderName _ "mapping.json") in Hf. }
  assert (Hmapping' :
    files w' !! join outputFolderPath "mapping.json" = None
    ∨ ∃ m f c,
        files w' !! join outputFolderPath "mapping.json" = Some (MappingJson m)
        ∧ lastProcessedHash m = calculateFileHash c
        ∧ f ∈ documents w0 folderName
        ∧ readText w0 f = Some c
        ∧ extractImageUrls c = []).
  { destruct (Hframe _ (or_introl eq_refl)) as [H1 H2].
    destruct (way_frame _ _ _ _ _ _ _ _ _ _ _ _ Hway H1 H2)
      as [E|(_ & content & timestamp & Hread & Hnone & E)].
    - by rewrite E.
    - right. eexists _, file, content. split; [exact E|].
      split; [|split; [done|split; [|done]]].
      + unfold lastProcessedHash. by rewrite lookup_insert_eq.
      + rewrite <- Hread. symmetry. apply readText_ext. by apply Hdocs. }
  split; [|split; done].
  assert (Hmeta : ∀ h q x,
            (∀ k, k ∈ usedImageFiles q → is_Some (mapping q !! k)) →
            ∀ k, k ∈ usedImageFiles (fst (setMetadata o h q x)) →
                 is_Some (mapping (fst (setMetadata o h q x)) !! k)).
  { intros h q x Hq k Hk. simpl in *.
    destruct (decide ("_metadata" = k)) as [<-|Hne].
    - by rewrite lookup_insert_eq.
    - rewrite lookup_insert_ne by done. by apply Hq. }
  destruct Hway as [|content r Hread Hskip _ _ _|content r _ _ _ _ _ w1 s
                    |content r _ _ _ _ _ imageUrls l1 l2 newContent w3 s _].
  - done.
  - (* skipped: the document has the text of a document without image *)
    apply isFileProcessed_spec in Hskip as (_ & c' & m & Hc' & Hm & Hlast & _).
    rewrite Hread in Hc'. injection Hc' as <-.
    destruct Hmapping as [Hnone|(m' & f & c & Hfile' & Hm' & Hf & Hc & Hnoimage)].
    { unfold readMapping in Hm. fold outputFolderPath in Hnone.
      by rewrite Hnone in Hm. }
    unfold readMapping in Hm. fold outputFolderPath in Hfile'.
    rewrite Hfile' in Hm. injection Hm as <-.
    assert (Hsame : c = content).
    { apply (Hfaithful f file); [done|done|done| |].
      - rewrite <- Hread. symmetry. apply readText_ext. by apply Hdocs.
      - destruct Hlast as [Hempty|Hlast]; [|congruence].
        rewrite Hm' in Hempty. by apply calculateFileHash_not_empty in Hempty. }
    subst c. simpl. rewrite Hnoimage. simpl. intros k Hk. apply Hused.
    by apply elem_of_union in Hk as [Hk|Hk%elem_of_empty].
  - subst s. by apply Hmeta.
  - subst s. apply Hmeta.
    assert (H1 : ∀ k, k ∈ usedImageFiles (l_pass l1) → is_Some (mapping (l_pass l1) !! k)).
    { apply (fold_left_invariant (start (join outputFolderPath IMAGES_DIR_NAME))
               (fun l => ∀ k, k ∈ usedImageFiles (l_pass l) →
                              is_Some (mapping (l_pass l) !! k))).
      - done.
      - intros l i _ Hl k.
        destruct (start_effect (join outputFolderPath IMAGES_DIR_NAME) l i)
          as (Hm & _ & Hu & _). simpl in *. rewrite Hm, Hu. intros Hk.
        destruct (decide (nameOf i = k)) as [<-|Hne].
        + by rewrite lookup_insert_eq.
        + rewrite lookup_insert_ne by done. apply Hl.
          apply elem_of_union in Hk as [Hk|Hk%elem_of_singleton]; [done|by destruct Hne]. }
    destruct (start_loop_files (join outputFolderPath IMAGES_DIR_NAME) imageUrls
                {| l_pass := p; l_world := w; l_downloadedCount := 0;
                   l_downloadResults := ∅; l_downloadPromises := [] |})
      as [_ Hstarted]; [constructor|].
    fold l1 in Hstarted. rewrite Forall_forall in Hstarted.
    unfold l2. rewrite awaitAll_fold.
    apply (fold_left_invariant (finish cfg o (path_basename file))
             (fun l => ∀ k, k ∈ usedImageFiles (l_pass l) →
                            is_Some (mapping (l_pass l) !! k))).
    + done.
    + intros l d Hd Hl k. apply slices_elem in Hd.
      destruct (finish_effect cfg o (path_basename file)
                  (join outputFolderPath IMAGES_DIR_NAME) l d (Hstarted d Hd))
        as (Hm & Hu & _). simpl in *. rewrite Hm, Hu. apply Hl.
Qed.

Lemma pass_used_mapped (cfg : config) (o : oracle) (folderName : string) (w : world) :
  let outputFolderPath := join OUTPUT_DIR folderName in
  fingerprints_faithful w folderName →
  existsSync w (join outputFolderPath "mapping.json") = false →
  let t :=
    fold_left
      (processFile cfg o outputFolderPath (join outputFolderPath IMAGES_DIR_NAME)
         (join outputFolderPath "mapping.json"))
      (documents w folderName) (fresh w) in
  used_are_mapped w folderName (t_pass t) (t_world t).
Proof.
  intros outputFolderPath Hfaithful Habsent.
  apply (fold_left_invariant _
           (fun t => used_are_mapped w folderName (t_pass t) (t_world t))).
  - split; [|split].
    + intros k Hk. simpl in Hk. by apply not_elem_of_empty in Hk.
    + done.
    + left. by apply existsSync_None.
  - intros t file Hfile Ht.
    destruct (processFile_way cfg o outputFolderPath
                (join outputFolderPath IMAGES_DIR_NAME)
                (join outputFolderPath "mapping.json") t file) as [r Hway].
    by eapply processMarkdownFile_used_mapped.
Qed.

Lemma two_documents_faithful : fingerprints_faithful Scenarios.two_documents "book".
Proof.
  intros f1 f2 c1 c2 Hf1 Hf2 Hc1 Hc2 Hhash.
  vm_compute in Hf1, Hf2.
  apply elem_of_cons in Hf1 as [->|Hf1%list_elem_of_singleton];
    apply elem_of_cons in Hf2 as [->|Hf2%list_elem_of_singleton]; subst;
    vm_compute in Hc1, Hc2; injection Hc1 as <-; injection Hc2 as <-;
    first [reflexivity|vm_compute in Hhash; discriminate].
Defined.

(** After a sync pass that found documents and ended normally, the
    persisted mapping file holds the metadata entry of the mapping record
    as it is, and its other keys are exactly the asset names used by the
    pass; at least one document of the pass has not been skipped.
    (Documents of the folder are told apart by their fingerprints.) *)
Lemma cleanup_persists_metadata_and_used (cfg : config) (o : oracle)
    (folderName : string) (w : world) (r : folderResult) (p : pass) (w' : world) :
  processFolder cfg o folderName w = Normal (r, p, w') →
  f_total r ≠ 0 →
  fingerprints_faithful w folderName →
  let outputFolderPath := join OUTPUT_DIR folderName in
  readMapping w' (join outputFolderPath "mapping.json")
  = Some (persisted w' outputFolderPath)
  ∧ persisted w' outputFolderPath !! "_metadata" = mapping p !! "_metadata"
  ∧ (∀ k, k ≠ "_metadata" →
          (is_Some (persisted w' outputFolderPath !! k) ↔ k ∈ usedImageFiles p))
  ∧ f_skipped r < f_total r.
Proof.
  intros Hrun Htotal Hfaithful outputFolderPath.
  destruct (processFolder_normal cfg o folderName w r p w' Hrun Htotal)
    as (Habsent & Hp & Hmapping & _).
  fold outputFolderPath in Habsent, Hp, Hmapping.
  destruct (pass_used_mapped cfg o folderName w Hfaithful Habsent) as (Hused & _).
  fold outputFolderPath in Hused. rewrite <- Hp in Hused.
  assert (Hpersisted : persisted w' outputFolderPath
                       = cleanedMapping (mapping p) (usedImageFiles p)).
  { unfold persisted. by rewrite Hmapping. }
  split; [by rewrite Hpersisted|]. rewrite Hpersisted.
  split; [|split].
  - rewrite cleanedMapping_lookup. by rewrite decide_True by (by left).
  - intros k Hne. rewrite cleanedMapping_lookup. case_decide as Hk.
    + destruct Hk as [?|Hk]; [done|]. split; [done|]. intros _. by apply Hused.
    + split; [by intros [? ?]|]. intros Hk'. destruct Hk. by right.
  - by apply (processFolder_counts cfg o folderName w r p w').
Qed.

Lemma cleanup_persists_metadata_and_used_witness :
  (processFolder defaultConfig Scenarios.online "book" Scenarios.two_documents
   = Normal (Scenarios.first_pass.1.1, Scenarios.first_pass.1.2, Scenarios.first_pass.2)
   ∧ f_total Scenarios.first_pass.1.1 ≠ 0)
  ∧ persisted Scenarios.first_pass.2 (join OUTPUT_DIR "book") !! "_metadata"
    = mapping Scenarios.first_pass.1.2 !! "_metadata"
  ∧ f_skipped Scenarios.first_pass.1.1 < f_total Scenarios.first_pass.1.1.
Proof.
  assert (H1 : processFolder defaultConfig Scenarios.online "book" Scenarios.two_documents
               = Normal (Scenarios.first_pass.1.1, Scenarios.first_pass.1.2, Scenarios.first_pass.2))
    by (vm_compute; reflexivity).
  assert (H2 : f_total Scenarios.first_pass.1.1 ≠ 0) by (vm_compute; discriminate).
  split; [by split|].
  pose proof (cleanup_persists_metadata_and_used defaultConfig Scenarios.online "book"
                Scenarios.two_documents _ _ _ H1 H2 two_documents_faithful)
    as (_ & Hmeta & _ & Hskipped).
  by split.
Defined.

(** ** The Recovery Scanner *)





Lemma fromLedger_fold (w : world) (imagesDir : string)
    (entries : list (string * missingImage)) (acc : list FixMissingImages.missingItem) :
  (∀ k info, (k, info) ∈ entries →
     localFilePath info = EmptyString ∨ localFilePath info = join imagesDir k) →
  Forall (item_in imagesDir) acc →
  let missing := fold_left (FixMissingImages.fromLedger w imagesDir) entries acc in
  Forall (item_in imagesDir) missing
  ∧ List.map FixMissingImages.fileName missing
    = List.map FixMissingImages.fileName acc
      ++ List.filter (fun k => negb (existsSync w (join imagesDir k)))
           (List.map fst entries).
Proof.
  revert acc. induction entries as [|[k info] rest IH]; intros acc Hwf Hacc; simpl.
  { by rewrite app_nil_r. }
  assert (Hrest : ∀ k info, (k, info) ∈ rest →
            localFilePath info = EmptyString ∨ localFilePath info = join imagesDir k).
  { intros ???. eapply Hwf. by right. }
  destruct (existsSync w (join imagesDir k)) eqn:E; simpl.
  - by apply IH.
  - edestruct (IH (acc ++
      [{| FixMissingImages.fileName := k;
          FixMissingImages.m_originalUrl := originalUrl info;
          FixMissingImages.m_expectedPath :=
            if is_empty (localFilePath info) then join imagesDir k else localFilePath info;
          FixMissingImages.m_error := error info;
          FixMissingImages.m_sourceFile := sourceFile info |}])) as [H1 H2]; [done| |].
    + apply Forall_app. split; [done|]. apply Forall_singleton. unfold item_in. simpl.
      destruct (Hwf k info) as [->| ->]; [by left|done|].
      by destruct (is_empty _).
    + split; [done|]. rewrite H2, map_app. simpl. by rewrite <- app_assoc.
Qed.

Lemma fromMapping_fold (w : world) (imagesDir : string)
    (entries : list (string * mappingValue)) (acc : list FixMissingImages.missingItem) :
  Forall (item_in imagesDir) acc →
  NoDup (List.map FixMissingImages.fileName acc) →
  let missing := fold_left (FixMissingImages.fromMapping w imagesDir) entries acc in
  Forall (item_in imagesDir) missing
  ∧ NoDup (List.map FixMissingImages.fileName missing)
  ∧ ∀ k, k ∈ List.map FixMissingImages.fileName acc →
         k ∈ List.map FixMissingImages.fileName missing.
Proof.
  revert acc. induction entries as [|[k info] rest IH]; intros acc Hacc Hnd; simpl.
  { done. }
  destruct (starts_with "_" k); [by apply IH|].
  destruct (existsSync w (join imagesDir k)); simpl; [by apply IH|].
  destruct (existsb _ acc) eqn:E; [by apply IH|].
  edestruct (IH (acc ++
      [{| FixMissingImages.fileName := k;
          FixMissingImages.m_originalUrl :=
            match info with Asset u _ => u | Metadata _ _ => EmptyString end;
          FixMissingImages.m_expectedPath := join imagesDir k;
          FixMissingImages.m_error := "文件不存在";
          FixMissingImages.m_sourceFile := "未知" |}])) as (H1 & H2 & H3).
  - apply Forall_app. split; [done|]. by apply Forall_singleton.
  - rewrite map_app. simpl. apply NoDup_app. split; [done|]. split.
    + intros x Hx Hx'. apply list_elem_of_singleton in Hx'. subst x.
      apply list_elem_of_fmap in Hx as (item & Hk & Hitem).
      assert (existsb (fun item => String.eqb (FixMissingImages.fileName item) k) acc
              = true) as Hc; [|congruence].
      apply existsb_exists. exists item. split; [by apply list_elem_of_In|].
      by apply String.eqb_eq.
    + apply NoDup_singleton.
  - split; [done|]. split; [done|]. intros x Hx. apply H3. rewrite map_app.
    apply elem_of_app. by left.
Qed.

Lemma scan_missing (w : world) (folderPath : string)
    (missing : list FixMissingImages.missingItem)
    (orphaned : list FixMissingImages.orphanedItem) :
  ledger_as_written w folderPath →
  FixMissingImages.scanForMissingImages w folderPath = (missing, orphaned) →
  let imagesDir := join folderPath IMAGES_DIR_NAME in
  Forall (item_in imagesDir) missing
  ∧ NoDup (List.map FixMissingImages.fileName missing)
  ∧ ∀ k, k ∈ dom (ledger w folderPath) →
         existsSync w (join imagesDir k) = false →
         k ∈ List.map FixMissingImages.fileName missing.
Proof.
  intros Hwf Hscan imagesDir. unfold FixMissingImages.scanForMissingImages in Hscan.
  fold imagesDir in Hscan. injection Hscan as <- _.
  set (missing1 :=
         match readMissing w (join folderPath "missing-images.json") with
         | Some missingImages =>
             fold_left (FixMissingImages.fromLedger w imagesDir)
               (map_to_list missingImages) []
         | None => []
         end).
  assert (H1 : Forall (item_in imagesDir) missing1
               ∧ NoDup (List.map FixMissingImages.fileName missing1)
               ∧ ∀ k, k ∈ dom (ledger w folderPath) →
                      existsSync w (join imagesDir k) = false →
                      k ∈ List.map FixMissingImages.fileName missing1).
  { unfold missing1, ledger_as_written, ledger in *.
    destruct (readMissing w (join folderPath "missing-images.json")) as [m|]; simpl in *.
    - destruct (fromLedger_fold w imagesDir (map_to_list m) []) as [Ha Hb].
      + intros k info Hk. apply (Hwf k info). by apply elem_of_map_to_list.
      + constructor.
      + split; [done|]. rewrite Hb. simpl. split.
        * apply NoDup_ListNoDup, List.NoDup_filter, NoDup_ListNoDup,
            NoDup_fst_map_to_list.
        * intros k Hk Habs. apply list_elem_of_In, filter_In. split.
          -- apply list_elem_of_In. apply elem_of_dom in Hk as [info Hk].
             apply list_elem_of_fmap. exists (k, info). split; [done|].
             by apply elem_of_map_to_list.
          -- by rewrite Habs.
    - split; [constructor|]. split; [constructor|]. intros k Hk.
      by apply elem_of_dom in Hk as [? Hk]. }
  destruct H1 as (Ha & Hb & Hc).
  destruct (readMapping w (join folderPath "mapping.json")) as [m|]; [|done].
  destruct (fromMapping_fold w imagesDir (map_to_list m) missing1 Ha Hb) as (Hd & He & Hf).
  split; [done|]. split; [done|]. intros k Hk Habs. by apply Hf, Hc.
Qed.

Lemma ledger_updated (folderPath : string) (missingImages : gmap string missingImage)
    (w : world) :
  ledger (FixMissingImages.updateMissingImagesFile folderPath missingImages w) folderPath
  = missingImages.
Proof.
  unfold FixMissingImages.updateMissingImagesFile, ledger, readMissing.
  case_bool_decide as Hempty.
  - subst. destruct (existsSync w _) eqn:E; simpl.
    + by rewrite lookup_delete_eq.
    + apply existsSync_None in E. by rewrite E.
  - simpl. by rewrite lookup_insert_eq.
Qed.

Lemma files_updated (folderPath : string) (missingImages : gmap string missingImage)
    (w : world) (p : string) :
  p ≠ join folderPath "missing-images.json" →
  files (FixMissingImages.updateMissingImagesFile folderPath missingImages w) !! p
  = files w !! p.
Proof.
  intros Hp. unfold FixMissingImages.updateMissingImagesFile.
  case_bool_decide; [destruct (existsSync w _)|]; simpl;
    rewrite ?lookup_delete_ne, ?lookup_insert_ne; done.
Qed.



(** ** Files and ledger after a pass *)











(** ** The Recovery Scanner writes image files and the ledger *)




(** ** The names of the image files *)

Lemma hex_digit_hex (d : N) :
  (d < 16)%N → one_of "0123456789abcdef" (Crypto.hex_digit d) = true.
Proof.
  intros Hd.
  assert (H : d ∈ List.map N.of_nat (seq 0 16)).
  { apply list_elem_of_In, in_map_iff. exists (N.to_nat d). split; [lia|].
    apply in_seq. lia. }
  simpl in H. repeat (apply elem_of_cons in H as [->|H]; [reflexivity|]).
  by apply elem_of_nil in H.
Qed.

Lemma every_not_includes (c : ascii) (s : string) :
  every (fun d => negb (is_char d c)) s = true → includes (str1 c) s = false.
Proof.
  induction s as [|d r IH]; simpl; [done|].
  intros H. apply andb_true_iff in H as [Hd Hr]. rewrite (IH Hr).
  unfold starts_with, strip_prefix. simpl. apply negb_true_iff in Hd. by rewrite Hd.
Qed.

Lemma hash8_hex (url : string) :
  String.length (hash8 url) = 8
  ∧ every (one_of "0123456789abcdef") (hash8 url) = true.
Proof.
  unfold hash8, Crypto.md5_hex, Crypto.MD5.digest.
  destruct (fold_left _ _ _) as [[[a b] c] d].
  assert (Hbyte : ∀ x, (x mod 256 < 256)%N) by (intros x; apply N.mod_lt; lia).
  change (Crypto.le_bytes 4 a)
    with [(a mod 256)%N; (a / 256 mod 256)%N; (a / 256 / 256 mod 256)%N;
          (a / 256 / 256 / 256 mod 256)%N].
  cbn [app Crypto.hex_of_bytes take String.substring].
  split; [reflexivity|].
  cbn [every]. rewrite !andb_true_iff.
  repeat split; apply hex_digit_hex;
    first [apply N.Div0.div_lt_upper_bound; apply Hbyte | apply N.mod_lt; lia].
Qed.

(** X1.  Whatever the URL, the name that [generateImageFileName] gives is
    eight lower-case hexadecimal digits followed by [.jpg]: twelve
    characters, not empty and without [/], so that the image is a file
    directly under the images directory. *)
Theorem generateImageFileName_safe (url : string) :
  (∃ h, generateImageFileName url = h +:+ ".jpg"
        ∧ String.length h = 8
        ∧ every (one_of "0123456789abcdef") h = true)
  ∧ String.length (generateImageFileName url) = 12
  ∧ plain (generateImageFileName url).
Proof.
  rewrite generateImageFileName_hash. destruct (hash8_hex url) as [Hlen Hhex].
  split; [by exists (hash8 url)|].
  destruct (hash8 url) as [|c1 [|c2 [|c3 [|c4 [|c5 [|c6 [|c7 [|c8 [|c9 r]]]]]]]]];
    try discriminate.
  split; [reflexivity|]. split; [discriminate|].
  apply (every_not_includes "/"). cbn [every] in Hhex.
  rewrite !andb_true_iff in Hhex. destruct Hhex as (H1&H2&H3&H4&H5&H6&H7&H8&_).
  assert (Hne : ∀ c, one_of "0123456789abcdef" c = true → negb (is_char c "/") = true).
  { intros c Hc. destruct (is_char c "/") eqn:E; [|done].
    apply Ascii.eqb_eq in E. subst c. vm_compute in Hc. discriminate. }
  cbn. rewrite !Hne by done. reflexivity.
Qed.

(** ** The references of a document *)

Lemma strip_append (a r : string) : strip is_char a (a +:+ r) = Some r.
Proof.
  induction a as [|c a IH]; simpl; [done|].
  unfold is_char at 1. by rewrite Ascii.eqb_refl.
Qed.

Lemma suffix_of_refl (s : string) : suffix_of s s.
Proof. destruct s; by left. Qed.

Lemma exec_all_elem {A} (regex : string → option A) (size : A → nat)
    (content : string) (skip : nat) (m : A) :
  m ∈ exec_all regex size content skip →
  ∃ s, suffix_of s content ∧ regex s = Some m.
Proof.
  revert skip. induction content as [|c rest IH]; intros skip Hm; simpl in Hm.
  { by apply elem_of_nil in Hm. }
  assert (Hrest : ∀ k, m ∈ exec_all regex size rest k →
            ∃ s, suffix_of s (String c rest) ∧ regex s = Some m).
  { intros k Hk. destruct (IH k Hk) as (s & Hs & Hr). exists s. split; [by right|done]. }
  destruct skip as [|k]; [|by apply (Hrest k)].
  destruct (regex (String c rest)) as [m'|] eqn:E; [|by apply (Hrest 0)].
  apply elem_of_cons in Hm as [->|Hm]; [|by eapply Hrest].
  exists (String c rest). split; [by left|done].
Qed.

Lemma strip_inv (eq : ascii → ascii → bool) (p s r : string) :
  strip eq p s = Some r →
  s = take (String.length p) s +:+ r
  ∧ ∀ r', strip eq p (take (String.length p) s +:+ r') = Some r'.
Proof.
  revert s. induction p as [|c p IH]; intros s; simpl.
  { intros [= ->]. destruct r; split; done. }
  destruct s as [|d s]; [done|]. destruct (eq d c) eqn:E; [|done].
  intros H. destruct (IH s H) as [H1 H2]. unfold take in *. simpl.
  split; [by rewrite <- H1|]. intros r'. by rewrite E.
Qed.

Lemma strip_exact (p s r : string) : strip is_char p s = Some r → s = p +:+ r.
Proof.
  revert s. induction p as [|c p IH]; intros s; simpl.
  { by intros [= ->]. }
  destruct s as [|d s]; [done|]. unfold is_char at 1.
  destruct (Ascii.eqb d c) eqn:E; [|done]. apply Ascii.eqb_eq in E as ->.
  intros H. by rewrite (IH s H).
Qed.

Lemma span_app (f : ascii → bool) (s a b : string) : span f s = (a, b) → s = a +:+ b.
Proof.
  revert a b. induction s as [|c s IH]; intros a b; simpl.
  { by intros [= <- <-]. }
  destruct (f c); [|by intros [= <- <-]].
  destruct (span f s) as [a' b']. intros [= <- <-]. simpl. by rewrite (IH a' b').
Qed.

Lemma scheme_inv (eq : ascii → ascii → bool) (s sch rest : string) :
  scheme eq s = Some (sch, rest) →
  s = sch +:+ rest
  ∧ ((∀ r', strip eq "http://" (sch +:+ r') = Some r')
     ∨ (∀ r', strip eq "https://" (sch +:+ r') = Some r'))
  ∧ ∃ c t, sch = String c t ∧ eq c "h"%char = true.
Proof.
  unfold scheme.
  destruct (strip eq "https://" s) as [r|] eqn:E1.
  - intros [= <- <-]. destruct (strip_inv eq _ _ _ E1) as [H1 H2]. simpl in H1, H2.
    split; [done|]. split; [by right|].
    destruct s as [|c s]; [done|]. simpl in E1. destruct (eq c "h"%char) eqn:E; [|done].
    unfold take. simpl. eauto.
  - destruct (strip eq "http://" s) as [r|] eqn:E2; [|done].
    intros [= <- <-]. destruct (strip_inv eq _ _ _ E2) as [H1 H2]. simpl in H1, H2.
    split; [done|]. split; [by left|].
    destruct s as [|c s]; [done|]. simpl in E2. destruct (eq c "h"%char) eqn:E; [|done].
    unfold take. simpl. eauto.
Qed.

Lemma lower_space (c : ascii) : is_space (lower c) = is_space c.
Proof. destruct c as [[] [] [] [] [] [] [] []]; reflexivity. Qed.

Lemma is_char_ci_space (c d : ascii) :
  is_char_ci c d = true → is_space c = is_space d.
Proof.
  unfold is_char_ci. intros H. apply Ascii.eqb_eq in H.
  by rewrite <- (lower_space c), H, lower_space.
Qed.

Lemma is_char_space (c d : ascii) : is_char c d = true → is_space c = is_space d.
Proof. unfold is_char. intros H. by apply Ascii.eqb_eq in H as ->. Qed.

Lemma strip_every (eq : ascii → ascii → bool) (p s r : string) :
  (∀ c d, eq c d = true → is_space c = is_space d) →
  every (fun c => negb (is_space c)) p = true →
  strip eq p s = Some r →
  every (fun c => negb (is_space c)) (take (String.length p) s) = true.
Proof.
  intros Heq. revert s. induction p as [|c p IH]; intros s Hp; simpl.
  { intros _. by destruct s. }
  simpl in Hp. apply andb_true_iff in Hp as [Hc Hp].
  destruct s as [|d s]; [done|]. destruct (eq d c) eqn:E; [|done].
  intros H. unfold take in *. simpl. rewrite (Heq d c E), Hc. by apply IH.
Qed.

Lemma trim_end_keeps (p b : string) :
  every (fun c => negb (is_space c)) p = true → ∃ x, trim_end (p +:+ b) = p +:+ x.
Proof.
  induction p as [|c p IH]; simpl; [by eauto|].
  intros H. apply andb_true_iff in H as [Hc Hp]. apply negb_true_iff in Hc.
  destruct (IH Hp) as [x Hx]. rewrite Hx, Hc.
  destruct (p +:+ x) eqn:E.
  - exists EmptyString. destruct p; [done|discriminate].
  - exists x. simpl. by rewrite E.
Qed.

Lemma scheme_absolute (eq : ascii → ascii → bool) (s sch rest body : string) :
  (∀ c d, eq c d = true → is_space c = is_space d) →
  (∀ c d, eq c d = true → is_char_ci c d = true) →
  scheme eq s = Some (sch, rest) →
  absolute (trim (sch +:+ body)).
Proof.
  intros Hspace Hci Hs.
  assert (Hlift : ∀ p x r, strip eq p x = Some r → strip is_char_ci p x = Some r).
  { induction p as [|c p IH]; intros x r; simpl; [done|].
    destruct x as [|d x]; [done|]. destruct (eq d c) eqn:E; [|done].
    rewrite (Hci d c E). apply IH. }
  assert (Hsch : every (fun c => negb (is_space c)) sch = true
                 ∧ ((∀ r', strip is_char_ci "http://" (sch +:+ r') = Some r')
                    ∨ (∀ r', strip is_char_ci "https://" (sch +:+ r') = Some r'))).
  { unfold scheme in Hs.
    destruct (strip eq "https://" s) as [r|] eqn:E1.
    - injection Hs as <- <-. split.
      + by apply (strip_every eq "https://" s r).
      + right. intros r'. apply Hlift. by apply (strip_inv eq "https://" s r).
    - destruct (strip eq "http://" s) as [r|] eqn:E2; [|done].
      injection Hs as <- <-. split.
      + by apply (strip_every eq "http://" s r).
      + left. intros r'. apply Hlift. by apply (strip_inv eq "http://" s r). }
  destruct Hsch as [Hevery Hstrip].
  assert (Hstart : trim_start (sch +:+ body) = sch +:+ body).
  { destruct sch as [|c t].
    - destruct Hstrip as [H|H]; specialize (H EmptyString); discriminate.
    - simpl in *. apply andb_true_iff in Hevery as [Hc _].
      apply negb_true_iff in Hc. by rewrite Hc. }
  unfold trim. rewrite Hstart. destruct (trim_end_keeps sch body Hevery) as [x ->].
  unfold absolute, strip_prefix_ci. destruct Hstrip as [H|H]; rewrite H; eauto.
Qed.

(** A match of [markdownRegex] at the head of [s]: its text is the
    beginning of [s], and its URL is absolute. *)
Lemma markdownRegex_match (s : string) (i : imageInfo) :
  markdownRegex s = Some i →
  (∃ rest, s = fullMatch i +:+ rest) ∧ absolute (url i) ∧ type i = markdown.
Proof.
  unfold markdownRegex.
  destruct (strip_prefix "![" s) as [s1|] eqn:E1; [|done]. simpl.
  destruct (span _ s1) as [alt s2] eqn:E2.
  destruct (strip_prefix "](" s2) as [s3|] eqn:E3; [|done]. simpl.
  destruct (scheme is_char s3) as [[sch s4]|] eqn:E4; [|done]. simpl.
  destruct (span _ s4) as [body s5] eqn:E5.
  destruct (is_empty body); [done|].
  apply strip_exact in E1, E3. apply span_app in E2, E5.
  assert (Habs : absolute (trim (sch +:+ body))).
  { apply (scheme_absolute is_char s3 sch s4 body); [apply is_char_space| |done].
    intros c d H. unfold is_char in H. apply Ascii.eqb_eq in H as ->.
    unfold is_char_ci. apply Ascii.eqb_refl. }
  destruct (scheme_inv is_char s3 sch s4 E4) as (E4' & _).
  assert (Hplain : ∀ rest, s5 = ")" +:+ rest →
            s = ("![" +:+ alt +:+ "](" +:+ (sch +:+ body) +:+ ")") +:+ rest).
  { intros rest ->. rewrite E1, E2, E3, E4', E5. by rewrite !append_assoc. }
  destruct (span is_space s5) as [ws s6] eqn:E6.
  destruct (is_empty ws).
  { destruct (strip_prefix ")" s5) as [rest|] eqn:E; [|done]. simpl.
    intros [= <-]. simpl. apply strip_exact in E.
      split; [exists rest; by apply Hplain|done]. }
  destruct (strip_prefix (str1 dquote) s6) as [s7|] eqn:E7; simpl.
  2:{ destruct (strip_prefix ")" s5) as [rest|] eqn:E; [|done]. simpl.
      intros [= <-]. simpl. apply strip_exact in E.
      split; [exists rest; by apply Hplain|done]. }
  destruct (span _ s7) as [title s8] eqn:E8.
  destruct (strip_prefix (str1 dquote) s8) as [s9|] eqn:E9; simpl.
  2:{ destruct (strip_prefix ")" s5) as [rest|] eqn:E; [|done]. simpl.
      intros [= <-]. simpl. apply strip_exact in E.
      split; [exists rest; by apply Hplain|done]. }
  destruct (strip_prefix ")" s9) as [rest|] eqn:E10; simpl.
  2:{ destruct (strip_prefix ")" s5) as [rest|] eqn:E; [|done]. simpl.
      intros [= <-]. simpl. apply strip_exact in E.
      split; [exists rest; by apply Hplain|done]. }
  intros [= <-]. cbn [fullMatch url type]. split; [|done]. exists rest.
  apply span_app in E6, E8. apply strip_exact in E7, E9, E10.
  rewrite E1, E2, E3, E4', E5, E6, E7, E8, E9, E10.
  repeat (progress (simpl; rewrite ?append_assoc)). reflexivity.
Qed.

Lemma take_prefix (n : nat) (s : string) : ∃ rest, s = take n s +:+ rest.
Proof.
  unfold take. revert n. induction s as [|c s IH]; intros n.
  - exists EmptyString. by destruct n.
  - destruct n as [|n]; simpl; [by eauto|].
    destruct (IH n) as [rest Hrest]. exists rest. by rewrite <- Hrest.
Qed.

Lemma src_here_absolute (s u : string) (l : nat) :
  src_here s = Some (u, l) → absolute (trim u).
Proof.
  unfold src_here.
  destruct (strip_prefix_ci "src=" s) as [s1|]; [|done]. simpl.
  destruct s1 as [|q s2]; [done|]. destruct (is_quote q); [|done].
  destruct (scheme is_char_ci s2) as [[sch s3]|] eqn:E; [|done]. simpl.
  destruct (span _ s3) as [body s4]. destruct (is_empty body); [done|].
  destruct s4 as [|c s5]; [done|]. destruct (span _ s5) as [rest s6].
  destruct s6; [done|]. intros [= <- _].
  apply (scheme_absolute is_char_ci s2 sch s3 body); [apply is_char_ci_space|done|done].
Qed.

Lemma src_last_absolute (s u : string) (n l : nat) :
  src_last s n = Some (u, l) → absolute (trim u).
Proof.
  revert s l. induction n as [|n IH]; intros s l.
  { destruct s; apply src_here_absolute. }
  destruct s as [|c r]; [apply src_here_absolute|]. simpl.
  destruct (src_last r n) as [[u' l']|] eqn:E.
  - intros [= <- _]. by apply (IH r l').
  - apply src_here_absolute.
Qed.

(** A match of [htmlRegex] at the head of [s]: its text is the beginning
    of [s], and the URL it captures is absolute once trimmed. *)
Lemma htmlRegex_match (s fullMatch u : string) :
  htmlRegex s = Some (fullMatch, u) →
  (∃ rest, s = fullMatch +:+ rest) ∧ absolute (trim u).
Proof.
  unfold htmlRegex.
  destruct (strip_prefix_ci "<img" s) as [s1|]; [|done]. simpl.
  destruct s1 as [|c s2]; [done|]. destruct (is_space c); [|done].
  destruct (span _ s2) as [run rest].
  destruct (src_last s2 (String.length run)) as [[u' l]|] eqn:E; [|done]. simpl.
  intros [= <- <-]. split; [apply take_prefix|by eapply src_last_absolute].
Qed.

Lemma includes_suffix (p s content rest : string) :
  suffix_of s content → s = p +:+ rest → includes p content = true.
Proof.
  intros Hs ->. induction content as [|c content IH].
  - destruct Hs as [Hs|[]]. destruct p; [done|discriminate].
  - simpl. destruct Hs as [<-|Hs].
    + unfold starts_with, strip_prefix. rewrite strip_append. done.
    + rewrite (IH Hs). apply orb_true_r.
Qed.

(** X2.  A reference returned by [extractImageUrls] has a URL that begins
    with [http://] or [https://], in either case of the letters, and its
    [fullMatch] occurs in the document, character for character. *)
Theorem extracted_references_are_absolute_and_verbatim (content : string) (i : imageInfo) :
  i ∈ extractImageUrls content →
  absolute (url i) ∧ includes (fullMatch i) content = true.
Proof.
  unfold extractImageUrls.
  set (links := exec_all markdownRegex _ content 0).
  intros Hi.
  assert (Hall : ∀ j, j ∈ links →
            absolute (url j) ∧ includes (fullMatch j) content = true).
  { intros j Hj. apply exec_all_elem in Hj as (s & Hs & Hm).
    apply markdownRegex_match in Hm as ([rest Hrest] & Habs & _).
    split; [done|]. by apply (includes_suffix _ s content rest). }
  revert Hi. apply (fold_left_invariant _
    (fun urls => ∀ j, j ∈ urls →
                      absolute (url j) ∧ includes (fullMatch j) content = true)
    (exec_all htmlRegex (fun m => String.length (fst m)) content 0) links Hall).
  intros urls m Hm Hurls j. destruct (alreadyMatched urls m); [by apply Hurls|].
  intros Hj. apply elem_of_app in Hj as [Hj|Hj]; [by apply Hurls|].
  apply list_elem_of_singleton in Hj. subst j. simpl.
  apply exec_all_elem in Hm as (s & Hs & Hm). destruct m as [fm u].
  apply htmlRegex_match in Hm as ([rest Hrest] & Habs).
  split; [done|]. by apply (includes_suffix _ s content rest).
Qed.

Lemma extracted_references_are_absolute_and_verbatim_witness :
  {| fullMatch := "![fig](http://h/a.png)"; url := "http://h/a.png"; type := markdown;
     alt := "fig"; title := EmptyString |}
  ∈ extractImageUrls "See ![fig](http://h/a.png)."
  ∧ absolute "http://h/a.png"
  ∧ includes "![fig](http://h/a.png)" "See ![fig](http://h/a.png)." = true.
Proof.
  assert (H : {| fullMatch := "![fig](http://h/a.png)"; url := "http://h/a.png";
                 type := markdown; alt := "fig"; title := EmptyString |}
              ∈ extractImageUrls "See ![fig](http://h/a.png).")
    by (vm_compute; by left).
  split; [exact H|].
  exact (extracted_references_are_absolute_and_verbatim _ _ H).
Defined.

(** ** The statistics of a document *)

Lemma absent_all (w : world) (imagesDir : string) (imageUrls : list imageInfo) :
  (∀ i, i ∈ imageUrls → existsSync w (join imagesDir (nameOf i)) = false) →
  absent w imagesDir imageUrls = imageUrls.
Proof.
  unfold absent. induction imageUrls as [|i rest IH]; intros Hall; simpl; [done|].
  rewrite (Hall i) by (by left). simpl. rewrite IH; [done|].
  intros j Hj. apply Hall. by right.
Qed.

Lemma absent_elem (w : world) (imagesDir : string) (imageUrls : list imageInfo)
    (i : imageInfo) :
  i ∈ absent w imagesDir imageUrls ↔
  i ∈ imageUrls ∧ existsSync w (join imagesDir (nameOf i)) = false.
Proof.
  unfold absent. rewrite list_elem_of_In, filter_In, <- list_elem_of_In.
  by rewrite negb_true_iff.
Qed.

Lemma start_loop_summary (imagesDir : string) (imageUrls : list imageInfo) (l : locals) :
  let l1 := fold_left (start imagesDir) imageUrls l in
  l_downloadPromises l1
  = l_downloadPromises l
    ++ List.map (downloadOf imagesDir) (absent (l_world l) imagesDir imageUrls)
  ∧ l_downloadedCount l1 + length (absent (l_world l) imagesDir imageUrls)
    = l_downloadedCount l + length imageUrls
  ∧ requests (l_world l1) = requests (l_world l)
  ∧ files (l_world l1) = files (l_world l)
  ∧ missingImages (l_pass l1) = missingImages (l_pass l)
  ∧ (absent (l_world l) imagesDir imageUrls = imageUrls →
     l_downloadResults l1 = l_downloadResults l).
Proof.
  revert l. induction imageUrls as [|i rest IH]; intros l; simpl.
  { rewrite app_nil_r. repeat split; auto. }
  destruct (IH (start imagesDir l i)) as (H1 & H2 & H3 & H4 & H5 & H6).
  assert (Hfiles : files (l_world (start imagesDir l i)) = files (l_world l)).
  { by destruct (start_effect imagesDir l i) as (_ & _ & _ & H & _). }
  rewrite (absent_ext (l_world l)) in H1, H2, H6 by done.
  rewrite H1, H3, H4, H5. clear H1 H3 H4 H5.
  unfold start in *. fold (nameOf i) in *. unfold downloadImage in *.
  destruct (existsSync (l_world l) (join imagesDir (nameOf i))) eqn:E; simpl in *.
  - repeat split; auto; [lia|]. intros Habs. exfalso.
    assert (Hlen : length (absent (l_world l) imagesDir rest) ≤ length rest).
    { unfold absent. apply List.filter_length_le. }
    rewrite Habs in Hlen. simpl in Hlen. lia.
  - rewrite <- app_assoc. repeat split; auto; [lia|].
    intros Habs. injection Habs as Habs. by rewrite H6.
Qed.

Lemma attempts_requests (o : oracle) (url localPath : string) (remaining attempt : nat)
    (w : world) :
  let w' := snd (attempts o url localPath attempt remaining w) in
  requests w ≤ requests w' ≤ requests w + remaining.
Proof.
  revert attempt w. induction remaining as [|rest IH]; intros attempt w; simpl; [lia|].
  destruct (got o (requests w) url) as [body|message]; simpl; [lia|].
  destruct rest as [|rest']; [simpl; lia|].
  specialize (IH (S attempt)
    {| files := files w; requests := S (requests w); ticks := ticks w;
       trace := trace w ++ [Request (requests w) url] |}).
  cbn [requests] in IH. lia.
Qed.

Lemma finish_counts (cfg : config) (o : oracle) (fileName : string) (l : locals)
    (d : download) :
  let l' := finish cfg o fileName l d in
  requests (l_world l) ≤ requests (l_world l') ≤ requests (l_world l) + retryCount cfg
  ∧ l_downloadedCount l ≤ l_downloadedCount l' ≤ S (l_downloadedCount l).
Proof.
  unfold finish, settle. destruct (d_promise d) as [v|url localPath]; simpl; [lia|].
  pose proof (attempts_requests o url localPath (retryCount cfg) 1 (l_world l)) as H.
  destruct (attempts o url localPath 1 (retryCount cfg) (l_world l)) as [[b|m] w1];
    simpl in *; lia.
Qed.

Lemma finish_loop_counts (cfg : config) (o : oracle) (fileName : string)
    (ds : list download) (l : locals) :
  let l' := fold_left (finish cfg o fileName) ds l in
  requests (l_world l) ≤ requests (l_world l')
  ∧ requests (l_world l') ≤ requests (l_world l) + retryCount cfg * length ds
  ∧ l_downloadedCount l ≤ l_downloadedCount l'
  ∧ l_downloadedCount l' ≤ l_downloadedCount l + length ds.
Proof.
  revert l. induction ds as [|d ds IH]; intros l; simpl; [lia|].
  specialize (IH (finish cfg o fileName l d)). simpl in IH.
  pose proof (finish_counts cfg o fileName l d) as H. simpl in H. nia.
Qed.

Lemma processMarkdownFile_processed (cfg : config) (o : oracle)
    (filePath outputDir imagesDir mappingPath : string) (p : pass) (w : world)
    (content : string) :
  readText w filePath = Some content →
  isFileProcessed w filePath (join outputDir (path_basename filePath)) mappingPath = false →
  let imageUrls := extractImageUrls content in
  let l1 :=
    fold_left (start imagesDir) imageUrls
      {| l_pass := p; l_world := w; l_downloadedCount := 0;
         l_downloadResults := ∅; l_downloadPromises := [] |} in
  let l2 :=
    awaitAll cfg o (path_basename filePath) l1
      (chunks (maxConcurrent cfg) (l_downloadPromises l1)) in
  let '(r, p', w') :=
    processMarkdownFile cfg o filePath outputDir imagesDir mappingPath p w in
  processed r = true ∧ skipped r = false
  ∧ imagesCount r = length imageUrls
  ∧ downloadedCount r = l_downloadedCount l2
  ∧ failedCount r = length imageUrls - l_downloadedCount l2
  ∧ missingImages p' = missingImages (l_pass l2)
  ∧ requests w' = requests (l_world l2)
  ∧ (join outputDir (path_basename filePath) ≠ mappingPath →
     files w' !! join outputDir (path_basename filePath)
     = Some (Text (fold_left (rewrite (l_downloadResults l2)) imageUrls content)))
  ∧ ∀ q, q ≠ join outputDir (path_basename filePath) → q ≠ mappingPath →
         files w' !! q = files (l_world l2) !! q.
Proof.
  intros Hread Hskip. unfold processMarkdownFile. rewrite Hread, Hskip.
  destruct (extractImageUrls content) as [|i rest] eqn:Hex.
  - simpl. repeat split; auto.
    + intros E. rewrite lookup_insert_ne by done. by rewrite lookup_insert_eq.
    + intros q H1 H2. by rewrite !lookup_insert_ne.
  - cbv zeta. simpl. repeat split; auto.
    + intros _. by rewrite lookup_insert_eq.
    + intros q H1 H2. by rewrite lookup_insert_ne.
Qed.

(** X3.  For a document that is read and not skipped, [imagesCount] is
    the number of references extracted from it, every reference is counted
    once, as downloaded or as failed, and the references whose file is on
    disk are all counted as downloaded.  [MAX_CONCURRENT] is positive: with
    [0] the loop over the chunks does not end. *)
Theorem document_statistics_add_up (cfg : config) (o : oracle)
    (filePath outputDir imagesDir mappingPath : string) (p : pass) (w : world)
    (content : string) :
  0 < maxConcurrent cfg →
  readText w filePath = Some content →
  isFileProcessed w filePath (join outputDir (path_basename filePath)) mappingPath = false →
  let '(r, _, _) :=
    processMarkdownFile cfg o filePath outputDir imagesDir mappingPath p w in
  imagesCount r = length (extractImageUrls content)
  ∧ downloadedCount r + failedCount r = imagesCount r
  ∧ length (extractImageUrls content)
    ≤ downloadedCount r + length (absent w imagesDir (extractImageUrls content)).
Proof.
  intros Hchunk Hread Hskip.
  pose proof (processMarkdownFile_processed cfg o filePath outputDir imagesDir mappingPath
                p w content Hread Hskip) as H.
  destruct (processMarkdownFile _ _ _ _ _ _ _ _) as [[r p'] w'].
  destruct H as (_ & _ & Himages & Hdown & Hfailed & _).
  set (l0 := {| l_pass := p; l_world := w; l_downloadedCount := 0;
                l_downloadResults := ∅; l_downloadPromises := [] |}) in *.
  destruct (start_loop_summary imagesDir (extractImageUrls content) l0)
    as (Hjobs & Hcount & _).
  set (l1 := fold_left (start imagesDir) (extractImageUrls content) l0) in *.
  rewrite awaitAll_fold, chunks_concat in Hdown, Hfailed by done.
  pose proof (finish_loop_counts cfg o (path_basename filePath) (l_downloadPromises l1) l1)
    as (_ & _ & Hlow & Hhigh).
  assert (Hlen : length (l_downloadPromises l1)
                 = length (absent w imagesDir (extractImageUrls content))).
  { rewrite Hjobs. simpl. apply length_map. }
  simpl in Hcount. lia.
Qed.

Lemma document_statistics_add_up_witness :
  (0 < maxConcurrent defaultConfig
   ∧ readText Scenarios.six_images "downloads/book/a.md" = Some Scenarios.six_links
   ∧ isFileProcessed Scenarios.six_images "downloads/book/a.md"
       (join Scenarios.outputFolder (path_basename "downloads/book/a.md"))
       Scenarios.mappingFile = false)
  ∧ let '(r, _, _) :=
      processMarkdownFile defaultConfig Scenarios.offline "downloads/book/a.md"
        Scenarios.outputFolder Scenarios.imagesFolder Scenarios.mappingFile
        Scenarios.nothing Scenarios.six_images in
    imagesCount r = length (extractImageUrls Scenarios.six_links)
    ∧ downloadedCount r + failedCount r = imagesCount r
    ∧ length (extractImageUrls Scenarios.six_links)
      ≤ downloadedCount r
        + length (absent Scenarios.six_images Scenarios.imagesFolder
                    (extractImageUrls Scenarios.six_links)).
Proof.
  assert (H1 : 0 < maxConcurrent defaultConfig) by (vm_compute; lia).
  assert (H2 : readText Scenarios.six_images "downloads/book/a.md"
               = Some Scenarios.six_links) by (vm_compute; reflexivity).
  assert (H3 : isFileProcessed Scenarios.six_images "downloads/book/a.md"
                 (join Scenarios.outputFolder (path_basename "downloads/book/a.md"))
                 Scenarios.mappingFile = false) by (vm_compute; reflexivity).
  split; [exact (conj H1 (conj H2 H3))|].
  exact (document_statistics_add_up defaultConfig Scenarios.offline "downloads/book/a.md"
           Scenarios.outputFolder Scenarios.imagesFolder Scenarios.mappingFile
           Scenarios.nothing Scenarios.six_images Scenarios.six_links H1 H2 H3).
Defined.

(** X4.  Processing a document makes at most [RETRY_COUNT] requests for
    each reference whose file is absent, and no other request. *)
Theorem document_requests_are_bounded (cfg : config) (o : oracle)
    (filePath outputDir imagesDir mappingPath : string) (p : pass) (w : world)
    (content : string) :
  0 < maxConcurrent cfg →
  readText w filePath = Some content →
  let '(_, _, w') :=
    processMarkdownFile cfg o filePath outputDir imagesDir mappingPath p w in
  requests w ≤ requests w'
  ∧ requests w'
    ≤ requests w + retryCount cfg * length (absent w imagesDir (extractImageUrls content)).
Proof.
  intros Hchunk Hread.
  destruct (isFileProcessed w filePath (join outputDir (path_basename filePath)) mappingPath)
    eqn:Hskip.
  { unfold processMarkdownFile. rewrite Hread, Hskip. simpl. lia. }
  pose proof (processMarkdownFile_processed cfg o filePath outputDir imagesDir mappingPath
                p w content Hread Hskip) as H.
  destruct (processMarkdownFile _ _ _ _ _ _ _ _) as [[r p'] w'].
  destruct H as (_ & _ & _ & _ & _ & _ & Hrequests & _). rewrite Hrequests.
  set (l0 := {| l_pass := p; l_world := w; l_downloadedCount := 0;
                l_downloadResults := ∅; l_downloadPromises := [] |}) in *.
  destruct (start_loop_summary imagesDir (extractImageUrls content) l0)
    as (Hjobs & _ & Hreq & _).
  set (l1 := fold_left (start imagesDir) (extractImageUrls content) l0) in *.
  rewrite awaitAll_fold, chunks_concat by done.
  pose proof (finish_loop_counts cfg o (path_basename filePath) (l_downloadPromises l1) l1)
    as (Hlow & Hhigh & _).
  assert (Hlen : length (l_downloadPromises l1)
                 = length (absent w imagesDir (extractImageUrls content))).
  { rewrite Hjobs. simpl. apply length_map. }
  simpl in Hreq. rewrite Hlen in Hhigh. lia.
Qed.

Lemma document_requests_are_bounded_witness :
  (0 < maxConcurrent defaultConfig
   ∧ readText Scenarios.six_images "downloads/book/a.md" = Some Scenarios.six_links)
  ∧ let '(_, _, w') :=
      processMarkdownFile defaultConfig Scenarios.offline "downloads/book/a.md"
        Scenarios.outputFolder Scenarios.imagesFolder Scenarios.mappingFile
        Scenarios.nothing Scenarios.six_images in
    requests Scenarios.six_images ≤ requests w'
    ∧ requests w'
      ≤ requests Scenarios.six_images
        + retryCount defaultConfig
          * length (absent Scenarios.six_images Scenarios.imagesFolder
                      (extractImageUrls Scenarios.six_links)).
Proof.
  assert (H1 : 0 < maxConcurrent defaultConfig) by (vm_compute; lia).
  assert (H2 : readText Scenarios.six_images "downloads/book/a.md"
               = Some Scenarios.six_links) by (vm_compute; reflexivity).
  split; [exact (conj H1 H2)|].
  exact (document_requests_are_bounded defaultConfig Scenarios.offline
           "downloads/book/a.md" Scenarios.outputFolder Scenarios.imagesFolder
           Scenarios.mappingFile Scenarios.nothing Scenarios.six_images
           Scenarios.six_links H1 H2).
Defined.

(** ** Downloads that are not attempted, downloads that all fail *)

Lemma finish_without_attempt (cfg : config) (o : oracle) (fileName imagesDir : string)
    (l : locals) (i : imageInfo) :
  retryCount cfg = 0 →
  let l' := finish cfg o fileName l (downloadOf imagesDir i) in
  l_pass l' = l_pass l
  ∧ files (l_world l') = files (l_world l)
  ∧ requests (l_world l') = requests (l_world l)
  ∧ l_downloadedCount l' = S (l_downloadedCount l).
Proof. intros Hretry. unfold finish, settle. simpl. by rewrite Hretry. Qed.

Lemma finish_loop_without_attempt (cfg : config) (o : oracle)
    (fileName imagesDir : string) (refs : list imageInfo) (l : locals) :
  retryCount cfg = 0 →
  let l' := fold_left (finish cfg o fileName) (List.map (downloadOf imagesDir) refs) l in
  l_pass l' = l_pass l
  ∧ files (l_world l') = files (l_world l)
  ∧ requests (l_world l') = requests (l_world l)
  ∧ l_downloadedCount l' = l_downloadedCount l + length refs.
Proof.
  intros Hretry. revert l. induction refs as [|i refs IH]; intros l; simpl.
  { repeat split; auto. }
  destruct (IH (finish cfg o fileName l (downloadOf imagesDir i))) as (H1 & H2 & H3 & H4).
  destruct (finish_without_attempt cfg o fileName imagesDir l i Hretry)
    as (H1' & H2' & H3' & H4').
  simpl in *. rewrite H1, H2, H3, H4, H1', H2', H3', H4'. repeat split; auto with lia.
Qed.

(** X5.  With [RETRY_COUNT] set to [0] the loop of [downloadImage] makes no
    attempt and the function returns [false] without throwing; the [then]
    branch of its caller does not look at the value.  So every reference of
    a processed document is counted as downloaded and none as failed, while
    no request is made, nothing is added to the ledger, and, log files
    apart, no file other than the output document and [mapping.json] is
    written: not one image file. *)
Theorem no_retry_counts_as_downloaded (cfg : config) (o : oracle)
    (filePath outputDir imagesDir mappingPath : string) (p : pass) (w : world)
    (content : string) :
  retryCount cfg = 0 →
  0 < maxConcurrent cfg →
  readText w filePath = Some content →
  isFileProcessed w filePath (join outputDir (path_basename filePath)) mappingPath = false →
  let '(r, p', w') :=
    processMarkdownFile cfg o filePath outputDir imagesDir mappingPath p w in
  requests w' = requests w
  ∧ downloadedCount r = length (extractImageUrls content)
  ∧ failedCount r = 0
  ∧ missingImages p' = missingImages p
  ∧ ∀ q, q ≠ join outputDir (path_basename filePath) → q ≠ mappingPath →
         log_file q = false →
         files w' !! q = files w !! q.
Proof.
  intros Hretry Hchunk Hread Hskip.
  pose proof (processMarkdownFile_processed cfg o filePath outputDir imagesDir mappingPath
                p w content Hread Hskip) as H.
  destruct (processMarkdownFile _ _ _ _ _ _ _ _) as [[r p'] w'].
  destruct H as (_ & _ & _ & Hdown & Hfailed & Hmissing & Hrequests & _ & Hfiles).
  set (l0 := {| l_pass := p; l_world := w; l_downloadedCount := 0;
                l_downloadResults := ∅; l_downloadPromises := [] |}) in *.
  destruct (start_loop_summary imagesDir (extractImageUrls content) l0)
    as (Hjobs & Hcount & Hreq1 & Hfiles1 & Hmissing1 & _).
  set (l1 := fold_left (start imagesDir) (extractImageUrls content) l0) in *.
  rewrite awaitAll_fold, chunks_concat in Hdown, Hfailed, Hmissing, Hrequests, Hfiles
    by done.
  rewrite Hjobs in Hdown, Hfailed, Hmissing, Hrequests, Hfiles. simpl in *.
  destruct (finish_loop_without_attempt cfg o (path_basename filePath) imagesDir
              (absent w imagesDir (extractImageUrls content)) l1 Hretry)
    as (H1 & H2 & H3 & H4).
  simpl in *. rewrite H4 in Hdown, Hfailed. rewrite H1 in Hmissing.
  rewrite H3 in Hrequests.
  split; [congruence|]. split; [lia|]. split; [lia|]. split; [congruence|].
  intros q Hq1 Hq2 _. rewrite (Hfiles q Hq1 Hq2), H2. by rewrite Hfiles1.
Qed.

Lemma no_retry_counts_as_downloaded_witness :
  let cfg := {| maxConcurrent := 5; retryCount := 0 |} in
  (retryCount cfg = 0
   ∧ 0 < maxConcurrent cfg
   ∧ readText Scenarios.one_image "downloads/book/a.md" = Some "See ![fig](http://h/a.png)."
   ∧ isFileProcessed Scenarios.one_image "downloads/book/a.md"
       (join Scenarios.outputFolder (path_basename "downloads/book/a.md"))
       Scenarios.mappingFile = false)
  ∧ let '(r, p', w') :=
      processMarkdownFile cfg Scenarios.online "downloads/book/a.md"
        Scenarios.outputFolder Scenarios.imagesFolder Scenarios.mappingFile
        Scenarios.nothing Scenarios.one_image in
    requests w' = requests Scenarios.one_image
    ∧ downloadedCount r = length (extractImageUrls "See ![fig](http://h/a.png).")
    ∧ failedCount r = 0
    ∧ missingImages p' = missingImages Scenarios.nothing
    ∧ ∀ q, q ≠ join Scenarios.outputFolder (path_basename "downloads/book/a.md") →
           q ≠ Scenarios.mappingFile →
           log_file q = false →
           files w' !! q = files Scenarios.one_image !! q.
Proof.
  intros cfg.
  assert (H1 : retryCount cfg = 0) by reflexivity.
  assert (H2 : 0 < maxConcurrent cfg) by (vm_compute; lia).
  assert (H3 : readText Scenarios.one_image "downloads/book/a.md"
               = Some "See ![fig](http://h/a.png).") by (vm_compute; reflexivity).
  assert (H4 : isFileProcessed Scenarios.one_image "downloads/book/a.md"
                 (join Scenarios.outputFolder (path_basename "downloads/book/a.md"))
                 Scenarios.mappingFile = false) by (vm_compute; reflexivity).
  split; [exact (conj H1 (conj H2 (conj H3 H4)))|].
  exact (no_retry_counts_as_downloaded cfg Scenarios.online "downloads/book/a.md"
           Scenarios.outputFolder Scenarios.imagesFolder Scenarios.mappingFile
           Scenarios.nothing Scenarios.one_image "See ![fig](http://h/a.png)."
           H1 H2 H3 H4).
Defined.

Lemma attempts_unreachable (o : oracle) (url localPath : string) (remaining attempt : nat)
    (w : world) :
  unreachable o → remaining ≠ 0 →
  ∃ message w',
    attempts o url localPath attempt remaining w = (Throw message, w')
    ∧ files w' = files w
    ∧ requests w' = requests w + remaining.
Proof.
  intros Hdown. revert attempt w.
  induction remaining as [|rest IH]; intros attempt w Hne; [done|]. simpl.
  destruct (Hdown (requests w) url) as [message ->].
  destruct rest as [|rest'].
  - eexists _, _. split; [reflexivity|]. simpl. split; [done|lia].
  - destruct (IH (S attempt)
                {| files := files w; requests := S (requests w); ticks := ticks w;
                   trace := trace w ++ [Request (requests w) url] |})
      as (m & w' & -> & Hf & Hr); [done|].
    eexists _, _. split; [reflexivity|]. simpl in *. split; [done|lia].
Qed.

Lemma finish_unreachable (cfg : config) (o : oracle) (fileName imagesDir : string)
    (l : locals) (i : imageInfo) :
  unreachable o → retryCount cfg ≠ 0 →
  let l' := finish cfg o fileName l (downloadOf imagesDir i) in
  files (l_world l') = files (l_world l)
  ∧ requests (l_world l') = requests (l_world l) + retryCount cfg
  ∧ l_downloadedCount l' = l_downloadedCount l
  ∧ (∃ message,
       missingImages (l_pass l')
       = <[nameOf i :=
             {| originalUrl := url i;
                expectedPath := join IMAGES_DIR_NAME (nameOf i);
                localFilePath := join imagesDir (nameOf i);
                error := message;
                sourceFile := fileName |}]> (missingImages (l_pass l)))
  ∧ ∃ v, l_downloadResults l' = <[fullMatch i := v]> (l_downloadResults l)
         ∧ success v = false.
Proof.
  intros Hdown Hretry. unfold finish, settle. simpl.
  destruct (attempts_unreachable o (url i) (join imagesDir (nameOf i)) (retryCount cfg) 1
              (l_world l) Hdown Hretry) as (m & w' & -> & Hf & Hr).
  simpl. repeat split; auto; eexists; eauto.
Qed.

(** While the downloads of a document fail one after the other: no file
    is written, every download made so far is in the ledger, and no
    result says that a download succeeded. *)
Lemma finish_loop_unreachable (cfg : config) (o : oracle) (fileName imagesDir : string)
    (refs : list imageInfo) (l : locals) :
  unreachable o → retryCount cfg ≠ 0 →
  (∀ k v, l_downloadResults l !! k = Some v → success v = false) →
  let l' := fold_left (finish cfg o fileName) (List.map (downloadOf imagesDir) refs) l in
  files (l_world l') = files (l_world l)
  ∧ requests (l_world l') = requests (l_world l) + retryCount cfg * length refs
  ∧ l_downloadedCount l' = l_downloadedCount l
  ∧ (∀ k v, l_downloadResults l' !! k = Some v → success v = false)
  ∧ (∀ k, listed imagesDir (missingImages (l_pass l)) k →
          listed imagesDir (missingImages (l_pass l')) k)
  ∧ ∀ i, i ∈ refs → listed imagesDir (missingImages (l_pass l')) (nameOf i).
Proof.
  intros Hdown Hretry. revert l. induction refs as [|i refs IH]; intros l Hres; simpl.
  { repeat split; auto; [lia|]. intros i Hi. by apply elem_of_nil in Hi. }
  destruct (finish_unreachable cfg o fileName imagesDir l i Hdown Hretry)
    as (Hf & Hr & Hc & [message Hm] & (v & Hv & Hfalse)).
  set (l1 := finish cfg o fileName l (downloadOf imagesDir i)) in *.
  destruct (IH l1) as (Hf' & Hr' & Hc' & Hres' & Hkeep' & Hall').
  { intros k v'. rewrite Hv. intros Hk.
    apply lookup_insert_Some in Hk as [[_ <-]|[_ Hk]]; [done|by apply (Hres k)]. }
  simpl in *. rewrite Hf', Hr', Hc', Hf, Hr, Hc.
  split; [done|]. split; [lia|]. split; [done|]. split; [done|].
  assert (Hnew : listed imagesDir (missingImages (l_pass l1)) (nameOf i)).
  { eexists. rewrite Hm, lookup_insert_eq. done. }
  assert (Hstep : ∀ k, listed imagesDir (missingImages (l_pass l)) k →
                       listed imagesDir (missingImages (l_pass l1)) k).
  { intros k (info & Hk & Hpath). destruct (decide (nameOf i = k)) as [<-|Hne]; [done|].
    exists info. by rewrite Hm, lookup_insert_ne. }
  split; [auto|].
  intros j Hj. apply elem_of_cons in Hj as [->|Hj]; [by apply Hkeep'|by apply Hall'].
Qed.

Lemma rewrite_failed (results : gmap string downloadResult) (refs : list imageInfo)
    (content : string) :
  (∀ k v, results !! k = Some v → success v = false) →
  fold_left (rewrite results) refs content = content.
Proof.
  intros Hres. induction refs as [|i refs IH]; simpl; [done|].
  unfold rewrite at 2. destruct (results !! fullMatch i) as [v|] eqn:E; [|done].
  by rewrite (Hres _ _ E).
Qed.

(** X6.  When every request fails (at least one attempt being made), a
    document none of whose images is on disk is written to the output
    folder as it is, its links untouched; no reference is counted as
    downloaded and all as failed; [RETRY_COUNT] requests are made for each
    reference; every reference has its entry in the ledger, with the path
    of its image file; and, log files apart, no file other than the output
    document and [mapping.json] is written. *)
Theorem failed_downloads_keep_the_links (cfg : config) (o : oracle)
    (filePath outputDir imagesDir mappingPath : string) (p : pass) (w : world)
    (content : string) :
  unreachable o →
  0 < retryCount cfg → 0 < maxConcurrent cfg →
  readText w filePath = Some content →
  isFileProcessed w filePath (join outputDir (path_basename filePath)) mappingPath = false →
  join outputDir (path_basename filePath) ≠ mappingPath →
  (∀ i, i ∈ extractImageUrls content →
        existsSync w (join imagesDir (nameOf i)) = false) →
  let '(r, p', w') :=
    processMarkdownFile cfg o filePath outputDir imagesDir mappingPath p w in
  files w' !! join outputDir (path_basename filePath) = Some (Text content)
  ∧ downloadedCount r = 0
  ∧ failedCount r = length (extractImageUrls content)
  ∧ requests w' = requests w + retryCount cfg * length (extractImageUrls content)
  ∧ (∀ i, i ∈ extractImageUrls content →
          ∃ info, missingImages p' !! nameOf i = Some info
                  ∧ localFilePath info = join imagesDir (nameOf i))
  ∧ ∀ q, q ≠ join outputDir (path_basename filePath) → q ≠ mappingPath →
         log_file q = false →
         files w' !! q = files w !! q.
Proof.
  intros Hdown Hretry Hchunk Hread Hskip Hout Habsent.
  pose proof (processMarkdownFile_processed cfg o filePath outputDir imagesDir mappingPath
                p w content Hread Hskip) as H.
  destruct (processMarkdownFile _ _ _ _ _ _ _ _) as [[r p'] w'].
  destruct H as (_ & _ & _ & Hcount & Hfailed & Hmissing & Hrequests & Htext & Hfiles).
  specialize (Htext Hout).
  set (l0 := {| l_pass := p; l_world := w; l_downloadedCount := 0;
                l_downloadResults := ∅; l_downloadPromises := [] |}) in *.
  destruct (start_loop_summary imagesDir (extractImageUrls content) l0)
    as (Hjobs & Hcount1 & Hreq1 & Hfiles1 & _ & Hres1).
  set (l1 := fold_left (start imagesDir) (extractImageUrls content) l0) in *.
  simpl in Hjobs, Hcount1, Hreq1, Hfiles1, Hres1.
  rewrite (absent_all w imagesDir _ Habsent) in Hjobs, Hcount1, Hres1.
  specialize (Hres1 eq_refl).
  rewrite awaitAll_fold, chunks_concat in Hcount, Hfailed, Hmissing, Hrequests, Htext, Hfiles
    by done.
  rewrite Hjobs in Hcount, Hfailed, Hmissing, Hrequests, Htext, Hfiles.
  destruct (finish_loop_unreachable cfg o (path_basename filePath) imagesDir
              (extractImageUrls content) l1 Hdown)
    as (H1 & H2 & H3 & H4 & _ & H6); [lia| |].
  { intros k v. rewrite Hres1. simpl. by rewrite lookup_empty. }
  simpl in H1, H2, H3, H4, H6.
  rewrite rewrite_failed in Htext by done.
  split; [done|]. split; [lia|]. split; [lia|]. split; [lia|].
  split.
  - intros i Hi. rewrite Hmissing. by apply H6.
  - intros q Hq1 Hq2 _. rewrite (Hfiles q Hq1 Hq2), H1. by rewrite Hfiles1.
Qed.

Lemma failed_downloads_keep_the_links_witness :
  (unreachable Scenarios.offline
   ∧ 0 < retryCount defaultConfig ∧ 0 < maxConcurrent defaultConfig
   ∧ readText Scenarios.one_image "downloads/book/a.md" = Some "See ![fig](http://h/a.png).")
  ∧ let '(r, p', w') :=
      processMarkdownFile defaultConfig Scenarios.offline "downloads/book/a.md"
        Scenarios.outputFolder Scenarios.imagesFolder Scenarios.mappingFile
        Scenarios.nothing Scenarios.one_image in
    files w' !! join Scenarios.outputFolder (path_basename "downloads/book/a.md")
    = Some (Text "See ![fig](http://h/a.png).")
    ∧ downloadedCount r = 0
    ∧ failedCount r = length (extractImageUrls "See ![fig](http://h/a.png).")
    ∧ requests w'
      = requests Scenarios.one_image
        + retryCount defaultConfig * length (extractImageUrls "See ![fig](http://h/a.png).")
    ∧ (∀ i, i ∈ extractImageUrls "See ![fig](http://h/a.png)." →
            ∃ info, missingImages p' !! nameOf i = Some info
                    ∧ localFilePath info = join Scenarios.imagesFolder (nameOf i))
    ∧ ∀ q, q ≠ join Scenarios.outputFolder (path_basename "downloads/book/a.md") →
           q ≠ Scenarios.mappingFile →
           log_file q = false →
           files w' !! q = files Scenarios.one_image !! q.
Proof.
  assert (H1 : unreachable Scenarios.offline) by (intros n url; eexists; reflexivity).
  assert (H2 : 0 < retryCount defaultConfig) by (vm_compute; lia).
  assert (H3 : 0 < maxConcurrent defaultConfig) by (vm_compute; lia).
  assert (H4 : readText Scenarios.one_image "downloads/book/a.md"
               = Some "See ![fig](http://h/a.png).") by (vm_compute; reflexivity).
  split; [exact (conj H1 (conj H2 (conj H3 H4)))|].
  apply (failed_downloads_keep_the_links defaultConfig Scenarios.offline
           "downloads/book/a.md" Scenarios.outputFolder Scenarios.imagesFolder
           Scenarios.mappingFile Scenarios.nothing Scenarios.one_image
           "See ![fig](http://h/a.png)." H1 H2 H3 H4).
  - vm_compute. reflexivity.
  - vm_compute. discriminate.
  - intros i Hi. vm_compute in Hi. apply list_elem_of_singleton in Hi. subst i.
    vm_compute. reflexivity.
Defined.

(** ** What a pass does to the files *)

Lemma readdirSync_elem (w : world) (dir name : string) :
  plain name → is_Some (files w !! join dir name) → name ∈ readdirSync w dir.
Proof.
  intros [Hne Hplain] [c Hc]. unfold readdirSync.
  apply list_elem_of_omap. exists (join dir name). split.
  - apply list_elem_of_fmap. exists (join dir name, c). split; [done|].
    by apply elem_of_map_to_list.
  - unfold entry_of, strip_prefix, join. rewrite <- append_assoc, strip_append.
    rewrite Hplain. by destruct name.
Qed.

Lemma cleanFile_fold_deleted (imagesDir : string) (used : gset string)
    (names : list string) (s : world * nat) (n : string) :
  n ∈ names → n ∉ used →
  files (fst (fold_left (cleanFile imagesDir used) names s)) !! join imagesDir n = None.
Proof.
  intros Hn Hunused.
  assert (Hgone : ∀ names s, files (fst s) !! join imagesDir n = None →
            files (fst (fold_left (cleanFile imagesDir used) names s)) !! join imagesDir n
            = None).
  { clear. induction names as [|m names IH]; intros s Hs; simpl; [done|].
    apply IH. unfold cleanFile. case_bool_decide; [done|]. simpl.
    destruct (decide (join imagesDir m = join imagesDir n)) as [->|Hne].
    - apply lookup_delete_eq.
    - by rewrite lookup_delete_ne. }
  revert s. induction names as [|m names IH]; intros s; simpl.
  { by apply elem_of_nil in Hn. }
  apply elem_of_cons in Hn as [<-|Hn]; [|by apply IH].
  apply Hgone. unfold cleanFile. rewrite bool_decide_eq_false_2 by done. simpl.
  apply lookup_delete_eq.
Qed.

Lemma cleanFile_fold_subset (imagesDir : string) (used : gset string)
    (names : list string) (s : world * nat) (q : string) :
  is_Some (files (fst (fold_left (cleanFile imagesDir used) names s)) !! q) →
  is_Some (files (fst s) !! q).
Proof.
  revert s. induction names as [|m names IH]; intros s; simpl; [done|].
  intros H. apply IH in H. unfold cleanFile in H. case_bool_decide; [done|].
  simpl in H. destruct (decide (join imagesDir m = q)) as [<-|Hne].
  - rewrite lookup_delete_eq in H. by destruct H.
  - by rewrite lookup_delete_ne in H.
Qed.

(** The end of a pass that found documents: the image files the pass did
    not use are deleted, then the mapping and the ledger are persisted. *)
Lemma processFolder_end (cfg : config) (o : oracle) (folderName : string) (w : world)
    (r : folderResult) (p : pass) (w' : world) :
  processFolder cfg o folderName w = Normal (r, p, w') →
  documents w folderName ≠ [] →
  let outputFolderPath := join OUTPUT_DIR folderName in
  let imagesDir := join outputFolderPath IMAGES_DIR_NAME in
  let mappingPath := join outputFolderPath "mapping.json" in
  let t :=
    fold_left (processFile cfg o outputFolderPath imagesDir mappingPath)
      (documents w folderName) (fresh w) in
  let cleaned :=
    fold_left (cleanFile imagesDir (usedImageFiles (t_pass t)))
      (readdirSync (t_world t) imagesDir) (t_world t, 0) in
  p = t_pass t
  ∧ f_total r = length (documents w folderName)
  ∧ f_cleanedCount r = snd cleaned
  ∧ ∀ q, q ≠ mappingPath → q ≠ join outputFolderPath "missing-images.json" →
         files w' !! q = files (fst cleaned) !! q.
Proof.
  intros Hrun Hdocs outputFolderPath imagesDir mappingPath t cleaned.
  subst t cleaned.
  unfold processFolder in Hrun. fold (documents w folderName) in Hrun.
  fold outputFolderPath imagesDir mappingPath in Hrun. fold (fresh w) in Hrun.
  destruct (documents w folderName) as [|file rest]; [done|].
  set (t := fold_left (processFile cfg o outputFolderPath imagesDir mappingPath)
              (file :: rest) (fresh w)) in *.
  destruct (existsSync w mappingPath).
  { destruct (readMapping w mappingPath); discriminate. }
  cbv beta iota delta [mbind completion_bind] in Hrun.
  destruct (fold_left (cleanFile imagesDir (usedImageFiles (t_pass t)))
              (readdirSync (t_world t) imagesDir) (t_world t, 0))
    as [w1 cleanedCount].
  injection Hrun as <- <- <-. simpl.
  split; [done|]. split; [done|]. split; [done|].
  intros q H1 H2. case_bool_decide; simpl.
  - destruct (existsSync _ _); simpl.
    + by rewrite lookup_delete_ne, lookup_insert_ne.
    + by rewrite lookup_insert_ne.
  - by rewrite !lookup_insert_ne.
Qed.

(** An image file that the pass did not use is not there after the pass. *)
Lemma unused_image_is_deleted (cfg : config) (o : oracle) (folderName : string)
    (w : world) (r : folderResult) (p : pass) (w' : world) (name : string) :
  processFolder cfg o folderName w = Normal (r, p, w') →
  documents w folderName ≠ [] →
  plain name → name ∉ usedImageFiles p →
  files w' !! join (join (join OUTPUT_DIR folderName) IMAGES_DIR_NAME) name = None.
Proof.
  intros Hrun Hdocs Hplain Hunused.
  destruct (processFolder_end cfg o folderName w r p w' Hrun Hdocs)
    as (Hp & _ & _ & Hfiles).
  set (out := join OUTPUT_DIR folderName) in *.
  set (imagesDir := join out IMAGES_DIR_NAME) in *.
  set (t := fold_left (processFile cfg o out imagesDir (join out "mapping.json"))
              (documents w folderName) (fresh w)) in *.
  rewrite Hfiles by (apply image_not_mapping || apply image_not_ledger).
  rewrite Hp in Hunused.
  apply eq_None_not_Some. intros Hsome.
  assert (Hlisted : name ∈ readdirSync (t_world t) imagesDir).
  { apply readdirSync_elem; [done|]. by apply cleanFile_fold_subset in Hsome. }
  rewrite (cleanFile_fold_deleted imagesDir _ _ _ name Hlisted Hunused) in Hsome.
  by destruct Hsome.
Qed.

Lemma pass_over_images_run :
  processFolder defaultConfig Scenarios.online "book" Cases.images_from_before
  = Normal (Cases.pass_over_images.1.1, Cases.pass_over_images.1.2,
            Cases.pass_over_images.2)
  ∧ documents Cases.images_from_before "book" ≠ [].
Proof. split; [vm_compute; reflexivity|vm_compute; discriminate]. Qed.

(** X8.  After a pass that ends normally over a folder with documents,
    every file left in the images directory is one that a document of the
    pass uses: the Cleanup Pass has deleted all the others. *)
Theorem cleanup_deletes_unused_images (cfg : config) (o : oracle) (folderName : string)
    (w : world) (r : folderResult) (p : pass) (w' : world) :
  processFolder cfg o folderName w = Normal (r, p, w') →
  documents w folderName ≠ [] →
  ∀ name,
    name ∈ readdirSync w' (join (join OUTPUT_DIR folderName) IMAGES_DIR_NAME) →
    name ∈ usedImageFiles p.
Proof.
  intros Hrun Hdocs name Hname.
  apply readdirSync_plain in Hname as [Hplain Hsome].
  destruct (decide (name ∈ usedImageFiles p)) as [|Hunused]; [done|]. exfalso.
  rewrite (unused_image_is_deleted cfg o folderName w r p w' name Hrun Hdocs Hplain Hunused)
    in Hsome.
  by destruct Hsome.
Qed.

Lemma cleanup_deletes_unused_images_witness :
  (processFolder defaultConfig Scenarios.online "book" Cases.images_from_before
   = Normal (Cases.pass_over_images.1.1, Cases.pass_over_images.1.2,
             Cases.pass_over_images.2)
   ∧ documents Cases.images_from_before "book" ≠ []
   ∧ readdirSync Cases.pass_over_images.2 (join (join OUTPUT_DIR "book") IMAGES_DIR_NAME)
     = ["9ef77880.jpg"])
  ∧ "9ef77880.jpg" ∈ usedImageFiles Cases.pass_over_images.1.2.
Proof.
  destruct pass_over_images_run as [H1 H2].
  assert (H3 : readdirSync Cases.pass_over_images.2
                 (join (join OUTPUT_DIR "book") IMAGES_DIR_NAME) = ["9ef77880.jpg"])
    by (vm_compute; reflexivity).
  split; [exact (conj H1 (conj H2 H3))|].
  apply (cleanup_deletes_unused_images defaultConfig Scenarios.online "book"
           Cases.images_from_before _ _ _ H1 H2).
  rewrite H3. by left.
Defined.

Lemma started_downloadOf (imagesDir : string) (i : imageInfo) :
  started imagesDir (downloadOf imagesDir i).
Proof. done. Qed.

Lemma finish_loop_writes (cfg : config) (o : oracle) (fileName imagesDir : string)
    (ds : list download) (l : locals) (q : string) :
  Forall (started imagesDir) ds →
  (∀ d, d ∈ ds → d_localImagePath d ≠ q) →
  files (l_world (fold_left (finish cfg o fileName) ds l)) !! q = files (l_world l) !! q.
Proof.
  intros Hds. revert l. induction Hds as [|d ds Hd _ IH]; intros l Hq; simpl; [done|].
  rewrite IH by (intros d' Hd'; apply Hq; by right).
  destruct (finish_effect cfg o fileName imagesDir l d Hd)
    as (_ & _ & _ & [(body & Hf & _)|[(_ & Hf & _)|(_ & Hf & _)]]); simpl in *;
    rewrite Hf; [|done|done].
  apply lookup_insert_ne. apply Hq. by left.
Qed.

(** What a pass has done to the files when it has processed some of the
    documents of the folder: nothing outside the output folder, and
    nothing to the image files that were there when it began. *)
Lemma processFile_frame (cfg : config) (o : oracle) (folderName : string) (w : world)
    (t : totals) (file : string) :
  let out := join OUTPUT_DIR folderName in
  let imagesDir := join out IMAGES_DIR_NAME in
  let t' := processFile cfg o out imagesDir (join out "mapping.json") t file in
  file ∈ documents w folderName →
  (∀ q, (∀ x, q ≠ join out x) → files (t_world t') !! q = files (t_world t) !! q)
  ∧ ∀ n, is_Some (files (t_world t) !! join imagesDir n) →
         files (t_world t') !! join imagesDir n = files (t_world t) !! join imagesDir n.
Proof.
  intros out imagesDir t' Hfile.
  destruct (documents_elem w folderName file Hfile) as (name & -> & Hplain & _).
  destruct (processFile_way cfg o out imagesDir (join out "mapping.json") t
              (join (join DOWNLOADS_DIR folderName) name)) as [r Hway].
  fold t' in Hway.
  assert (Hbase : path_basename (join (join DOWNLOADS_DIR folderName) name) = name)
    by (by apply path_basename_join).
  split.
  - intros q Hq.
    destruct (way_frame cfg o _ out imagesDir (join out "mapping.json") _ _ _ _ _ q Hway)
      as [H|[H _]]; [by rewrite Hbase| |done|by destruct (Hq "mapping.json")].
    intros n. unfold imagesDir. rewrite join_join. apply Hq.
  - intros n Hn.
    destruct Hway as [|content r' _ _ _ _ _|content r' _ _ _ _ _ w1 s
                      |content r' _ _ _ _ _ imageUrls l1 l2 newContent w3 s _];
      [done|done| |].
    + subst s w1. simpl. rewrite Hbase.
      rewrite !lookup_insert_ne; [done| |].
      * apply plain_not_image. by destruct Hplain.
      * intros E. symmetry in E. revert E. apply image_not_mapping.
    + subst s w3. simpl. rewrite Hbase. rewrite lookup_insert_ne.
      2:{ apply plain_not_image. by destruct Hplain. }
      set (l0 := {| l_pass := t_pass t; l_world := t_world t; l_downloadedCount := 0;
                    l_downloadResults := ∅; l_downloadPromises := [] |}) in *.
      destruct (start_loop_summary imagesDir imageUrls l0) as (Hjobs & _ & _ & Hfiles & _).
      fold l1 in Hjobs, Hfiles. simpl in Hjobs, Hfiles.
      unfold l2. rewrite awaitAll_fold. rewrite Hbase.
      rewrite (finish_loop_writes cfg o name imagesDir); [by rewrite Hfiles| |].
      * apply Forall_forall. intros d Hd. apply slices_elem in Hd.
        rewrite Hjobs in Hd. apply list_elem_of_fmap in Hd as (i & -> & _).
        apply started_downloadOf.
      * intros d Hd E. apply slices_elem in Hd. rewrite Hjobs in Hd.
        apply list_elem_of_fmap in Hd as (i & -> & Hi). simpl in E.
        apply join_inj in E. subst n.
        apply absent_elem in Hi as [_ Hi]. apply existsSync_None in Hi.
        rewrite Hi in Hn. by destruct Hn.
Qed.

Lemma pass_frame (cfg : config) (o : oracle) (folderName : string) (w : world)
    (docs : list string) :
  let out := join OUTPUT_DIR folderName in
  let imagesDir := join out IMAGES_DIR_NAME in
  let t := fold_left (processFile cfg o out imagesDir (join out "mapping.json")) docs
             (fresh w) in
  (∀ f, f ∈ docs → f ∈ documents w folderName) →
  (∀ q, (∀ x, q ≠ join out x) → files (t_world t) !! q = files w !! q)
  ∧ ∀ n, is_Some (files w !! join imagesDir n) →
         files (t_world t) !! join imagesDir n = files w !! join imagesDir n.
Proof.
  intros out imagesDir t Hdocs. subst t.
  apply (fold_left_invariant _
           (fun t =>
              (∀ q, (∀ x, q ≠ join out x) → files (t_world t) !! q = files w !! q)
              ∧ ∀ n, is_Some (files w !! join imagesDir n) →
                     files (t_world t) !! join imagesDir n = files w !! join imagesDir n)).
  - done.
  - intros t file Hfile [Hout Himg].
    destruct (processFile_frame cfg o folderName w t file (Hdocs file Hfile))
      as [Hout' Himg'].
    split.
    + intros q Hq. by rewrite Hout', Hout.
    + intros n Hn. rewrite Himg', Himg; [done|done|]. by rewrite Himg.
Qed.

(** X9.  A pass that ends normally changes no file outside the output
    folder of the collection, log files apart: the documents of the source
    folder, and the files of every other collection, are as they were. *)
Theorem pass_writes_only_its_output_folder (cfg : config) (o : oracle)
    (folderName : string) (w : world) (r : folderResult) (p : pass) (w' : world) :
  processFolder cfg o folderName w = Normal (r, p, w') →
  ∀ q, (∀ x, q ≠ join (join OUTPUT_DIR folderName) x) →
       log_file q = false →
       files w' !! q = files w !! q.
Proof.
  intros Hrun q Hq _.
  destruct (decide (documents w folderName = [])) as [Hnone|Hdocs].
  { unfold processFolder in Hrun. fold (documents w folderName) in Hrun.
    rewrite Hnone in Hrun. by injection Hrun as _ _ <-. }
  destruct (processFolder_end cfg o folderName w r p w' Hrun Hdocs)
    as (_ & _ & _ & Hfiles).
  rewrite Hfiles by apply Hq.
  rewrite cleanFile_fold.
  - simpl. by apply (pass_frame cfg o folderName w (documents w folderName)).
  - intros n ->. exfalso. revert Hq. rewrite join_join. intros Hq. by eapply Hq.
Qed.

Lemma pass_writes_only_its_output_folder_witness :
  processFolder defaultConfig Scenarios.online "book" Scenarios.two_documents
  = Normal (Scenarios.first_pass.1.1, Scenarios.first_pass.1.2, Scenarios.first_pass.2)
  ∧ files Scenarios.first_pass.2 !! "downloads/book/a.md"
    = files Scenarios.two_documents !! "downloads/book/a.md".
Proof.
  assert (H1 : processFolder defaultConfig Scenarios.online "book" Scenarios.two_documents
               = Normal (Scenarios.first_pass.1.1, Scenarios.first_pass.1.2,
                         Scenarios.first_pass.2)) by (vm_compute; reflexivity).
  split; [exact H1|].
  apply (pass_writes_only_its_output_folder defaultConfig Scenarios.online "book"
           Scenarios.two_documents _ _ _ H1).
  - intros x E. vm_compute in E. discriminate.
  - vm_compute. reflexivity.
Defined.

(** X10.  An image file that was on disk before the pass and that a
    document of the pass uses is the same file after the pass: it is
    neither fetched again nor deleted. *)
Theorem used_images_are_kept (cfg : config) (o : oracle) (folderName : string)
    (w : world) (r : folderResult) (p : pass) (w' : world) :
  processFolder cfg o folderName w = Normal (r, p, w') →
  let imagesDir := join (join OUTPUT_DIR folderName) IMAGES_DIR_NAME in
  ∀ n, n ∈ usedImageFiles p →
       is_Some (files w !! join imagesDir n) →
       files w' !! join imagesDir n = files w !! join imagesDir n.
Proof.
  intros Hrun imagesDir n Hused Hsome.
  destruct (decide (documents w folderName = [])) as [Hnone|Hdocs].
  { unfold processFolder in Hrun. fold (documents w folderName) in Hrun.
    rewrite Hnone in Hrun. by injection Hrun as _ _ <-. }
  destruct (processFolder_end cfg o folderName w r p w' Hrun Hdocs)
    as (Hp & _ & _ & Hfiles).
  rewrite Hfiles by (apply image_not_mapping || apply image_not_ledger).
  rewrite cleanFile_fold.
  - simpl. by apply (pass_frame cfg o folderName w (documents w folderName)).
  - intros m E. apply join_inj in E. subst m. by rewrite <- Hp.
Qed.

Lemma used_images_are_kept_witness :
  (processFolder defaultConfig Scenarios.online "book" Cases.images_from_before
   = Normal (Cases.pass_over_images.1.1, Cases.pass_over_images.1.2,
             Cases.pass_over_images.2)
   ∧ is_Some (files Cases.images_from_before
              !! join (join (join OUTPUT_DIR "book") IMAGES_DIR_NAME) "9ef77880.jpg"))
  ∧ files Cases.pass_over_images.2
      !! join (join (join OUTPUT_DIR "book") IMAGES_DIR_NAME) "9ef77880.jpg"
    = files Cases.images_from_before
        !! join (join (join OUTPUT_DIR "book") IMAGES_DIR_NAME) "9ef77880.jpg".
Proof.
  destruct pass_over_images_run as [H1 _].
  assert (H2 : is_Some (files Cases.images_from_before
                        !! join (join (join OUTPUT_DIR "book") IMAGES_DIR_NAME)
                             "9ef77880.jpg")) by (vm_compute; eauto).
  split; [exact (conj H1 H2)|].
  apply (used_images_are_kept defaultConfig Scenarios.online "book"
           Cases.images_from_before _ _ _ H1); [|exact H2].
  vm_compute. reflexivity.
Defined.

(** ** A second pass over a collection *)

Lemma processFolder_throws (cfg : config) (o : oracle) (folderName : string) (w : world) :
  documents w folderName ≠ [] →
  existsSync w (join (join OUTPUT_DIR folderName) "mapping.json") = true →
  processFolder cfg o folderName w = Throw "log is not a function".
Proof.
  intros Hdocs Hexists. unfold processFolder. fold (documents w folderName).
  destruct (documents w folderName) as [|file rest]; [done|].
  rewrite Hexists. by destruct (readMapping w _).
Qed.

Lemma pass_outside_output (cfg : config) (o : oracle) (folderName : string)
    (w : world) (r : folderResult) (p : pass) (w' : world) (q : string) :
  processFolder cfg o folderName w = Normal (r, p, w') →
  (∀ x, q ≠ join (join OUTPUT_DIR folderName) x) →
  files w' !! q = files w !! q.
Proof.
  intros Hrun Hq.
  destruct (decide (documents w folderName = [])) as [Hnone|Hdocs].
  { unfold processFolder in Hrun. fold (documents w folderName) in Hrun.
    rewrite Hnone in Hrun. by injection Hrun as _ _ <-. }
  destruct (processFolder_end cfg o folderName w r p w' Hrun Hdocs)
    as (_ & _ & _ & Hfiles).
  rewrite Hfiles by apply Hq.
  rewrite cleanFile_fold.
  - simpl. by apply (pass_frame cfg o folderName w (documents w folderName)).
  - intros n ->. exfalso. revert Hq. rewrite join_join. intros Hq. by eapply Hq.
Qed.

Lemma documents_spec (w : world) (folderName file : string) :
  file ∈ documents w folderName
  ↔ ∃ name, file = join (join DOWNLOADS_DIR folderName) name
            ∧ plain name ∧ ends_with ".md" name = true
            ∧ is_Some (files w !! file).
Proof.
  unfold documents. split.
  - intros Hfile. apply list_elem_of_fmap in Hfile as (name & -> & Hname).
    apply list_elem_of_In, filter_In in Hname as [Hname Hmd].
    apply list_elem_of_In, readdirSync_plain in Hname as [Hplain Hsome].
    by exists name.
  - intros (name & -> & Hplain & Hmd & Hsome).
    apply list_elem_of_fmap. exists name. split; [done|].
    apply list_elem_of_In, filter_In. split; [|done].
    apply list_elem_of_In. by apply readdirSync_elem.
Qed.

(** The documents of a folder are still its documents after a pass, and
    after one of them has been edited. *)
Lemma documents_after_pass (cfg : config) (o : oracle) (folderName : string)
    (w : world) (r : folderResult) (p : pass) (w' : world) (file : string) :
  processFolder cfg o folderName w = Normal (r, p, w') →
  file ∈ documents w folderName → file ∈ documents w' folderName.
Proof.
  intros Hrun Hfile. apply documents_spec.
  pose proof Hfile as (name & Hname & Hplain & Hmd & Hsome)%documents_spec.
  exists name. split; [done|]. split; [done|]. split; [done|].
  rewrite (pass_outside_output cfg o folderName w r p w' file Hrun); [done|].
  intros x. by apply (document_not_written w folderName).
Qed.

Lemma documents_edited (w : world) (folderName file text : string) :
  file ∈ documents w folderName →
  file ∈ documents (writeFileSync file (Text text) w) folderName.
Proof.
  intros (name & Hname & Hplain & Hmd & Hsome)%documents_spec. apply documents_spec.
  exists name. split; [done|]. split; [done|]. split; [done|].
  simpl. by rewrite lookup_insert_eq.
Qed.

Lemma pass_leaves_mapping (cfg : config) (o : oracle) (folderName : string)
    (w : world) (r : folderResult) (p : pass) (w' : world) :
  processFolder cfg o folderName w = Normal (r, p, w') →
  f_total r ≠ 0 →
  existsSync w' (join (join OUTPUT_DIR folderName) "mapping.json") = true.
Proof.
  intros Hrun Htotal.
  destruct (processFolder_normal cfg o folderName w r p w' Hrun Htotal)
    as (_ & _ & Hmapping & _).
  apply existsSync_is_Some. unfold readMapping in Hmapping.
  destruct (files w' !! _) as [c|]; [eauto|done].
Qed.

Lemma total_documents (cfg : config) (o : oracle) (folderName : string)
    (w : world) (r : folderResult) (p : pass) (w' : world) :
  processFolder cfg o folderName w = Normal (r, p, w') →
  f_total r ≠ 0 → documents w folderName ≠ [].
Proof.
  intros Hrun Htotal Hnone. unfold processFolder in Hrun.
  fold (documents w folderName) in Hrun. rewrite Hnone in Hrun.
  injection Hrun as <- _ _. by apply Htotal.
Qed.

Lemma synced_run :
  processFolder defaultConfig Scenarios.online "book" Scenarios.one_image
  = Normal (Cases.synced.1.1, Cases.synced.1.2, Cases.synced.2)
  ∧ f_total Cases.synced.1.1 ≠ 0.
Proof. split; [vm_compute; reflexivity|vm_compute; discriminate]. Defined.

(** C3 (the code departs from the claim).  The test of [isFileProcessed]
    is as the claim has it: a document whose fingerprint differs from the
    recorded one is not skipped.  But a pass never applies the test to a
    document that changed between two runs: the first pass leaves
    [mapping.json] in the output folder, and the next pass, finding it,
    applies [log], which is no function, and throws before it looks at a
    document.  So a document that changed since the last pass is not
    processed again: its output stays as the last pass wrote it. *)
Theorem changed_document_is_not_reprocessed :
  (∀ w filePath outputFilePath mappingPath content mapping,
     readText w filePath = Some content →
     readMapping w mappingPath = Some mapping →
     lastProcessedHash mapping ≠ EmptyString →
     lastProcessedHash mapping ≠ calculateFileHash content →
     isFileProcessed w filePath outputFilePath mappingPath = false)
  ∧ (∀ cfg o folderName w r p w' file text cfg' o',
       processFolder cfg o folderName w = Normal (r, p, w') →
       file ∈ documents w folderName →
       processFolder cfg' o' folderName (writeFileSync file (Text text) w')
       = Throw "log is not a function")
  ∧ readText Cases.synced.2 "downloads/book/a.md" = Some "See ![fig](http://h/a.png)."
  ∧ readText Cases.edited "downloads-with-images/book/a.md"
    = Some "See ![fig](images/9ef77880.jpg)."
  ∧ lastProcessedHash (persisted Cases.synced.2 Scenarios.outputFolder)
    = calculateFileHash "See ![fig](http://h/a.png)."
  ∧ calculateFileHash "See the new ![fig](http://h/b.png)."
    ≠ calculateFileHash "See ![fig](http://h/a.png)."
  ∧ isFileProcessed Cases.edited "downloads/book/a.md" "downloads-with-images/book/a.md"
      Scenarios.mappingFile = false
  ∧ processFolder defaultConfig Scenarios.online "book" Cases.edited
    = Throw "log is not a function".
Proof.
  split; [|split].
  - intros w filePath outputFilePath mappingPath content m Hc Hm Hne Hdiff.
    destruct (isFileProcessed w filePath outputFilePath mappingPath) eqn:E; [|done].
    apply isFileProcessed_spec in E as (_ & c & m' & Hc' & Hm' & [H|H] & _);
      simplify_eq; congruence.
  - intros cfg o folderName w r p w' file text cfg' o' Hrun Hfile.
    apply processFolder_throws.
    + pose proof (documents_after_pass cfg o folderName w r p w' file Hrun Hfile) as H.
      apply (documents_edited _ _ _ text) in H.
      intros Hnone. rewrite Hnone in H. by apply elem_of_nil in H.
    + assert (Htotal : f_total r ≠ 0).
      { destruct (decide (documents w folderName = [])) as [Hnone|Hdocs].
        { rewrite Hnone in Hfile. by apply elem_of_nil in Hfile. }
        destruct (processFolder_end cfg o folderName w r p w' Hrun Hdocs) as (_ & -> & _).
        by destruct (documents w folderName). }
      apply existsSync_write.
      by apply (pass_leaves_mapping cfg o folderName w r p w').
  - vm_compute. repeat split; try reflexivity. discriminate.
Qed.

Lemma changed_document_is_not_reprocessed_witness :
  (processFolder defaultConfig Scenarios.online "book" Scenarios.one_image
   = Normal (Cases.synced.1.1, Cases.synced.1.2, Cases.synced.2)
   ∧ "downloads/book/a.md" ∈ documents Scenarios.one_image "book")
  ∧ processFolder defaultConfig Scenarios.offline "book"
      (writeFileSync "downloads/book/a.md" (Text "Another text.") Cases.synced.2)
    = Throw "log is not a function".
Proof.
  destruct synced_run as [H1 _].
  assert (H2 : "downloads/book/a.md" ∈ documents Scenarios.one_image "book")
    by (vm_compute; by left).
  split; [exact (conj H1 H2)|].
  destruct changed_document_is_not_reprocessed as (_ & H & _).
  exact (H defaultConfig Scenarios.online "book" Scenarios.one_image _ _ _
           "downloads/book/a.md" "Another text." defaultConfig Scenarios.offline H1 H2).
Defined.

(** C5 (the code departs from the claim).  A second pass over a collection
    does not skip its documents: after a pass that ended normally over a
    folder with documents, [mapping.json] is there, and every further pass
    over the folder, whatever the configuration and the network, throws at
    the application of [log] before it looks at a document.  In the
    example the document is unchanged, its image is on disk and the test
    of [isFileProcessed] would skip it, but the pass throws. *)
Theorem second_pass_throws :
  (∀ cfg o folderName w r p w' cfg' o',
     processFolder cfg o folderName w = Normal (r, p, w') →
     f_total r ≠ 0 →
     processFolder cfg' o' folderName w' = Throw "log is not a function")
  ∧ readText Cases.synced.2 "downloads/book/a.md"
    = readText Scenarios.one_image "downloads/book/a.md"
  ∧ existsSync Cases.synced.2 "downloads-with-images/book/images/9ef77880.jpg" = true
  ∧ isFileProcessed Cases.synced.2 "downloads/book/a.md" "downloads-with-images/book/a.md"
      Scenarios.mappingFile = true
  ∧ processFolder defaultConfig Scenarios.online "book" Cases.synced.2
    = Throw "log is not a function".
Proof.
  split; [|vm_compute; repeat split; reflexivity].
  intros cfg o folderName w r p w' cfg' o' Hrun Htotal. apply processFolder_throws.
  - pose proof (total_documents cfg o folderName w r p w' Hrun Htotal) as Hdocs.
    destruct (documents w folderName) as [|file rest] eqn:E; [done|].
    assert (Hfile : file ∈ documents w' folderName).
    { apply (documents_after_pass cfg o folderName w r p w'); [done|]. rewrite E. by left. }
    intros Hnone. rewrite Hnone in Hfile. by apply elem_of_nil in Hfile.
  - by apply (pass_leaves_mapping cfg o folderName w r p w').
Qed.

Lemma second_pass_throws_witness :
  (processFolder defaultConfig Scenarios.online "book" Scenarios.one_image
   = Normal (Cases.synced.1.1, Cases.synced.1.2, Cases.synced.2)
   ∧ f_total Cases.synced.1.1 ≠ 0)
  ∧ processFolder defaultConfig Scenarios.offline "book" Cases.synced.2
    = Throw "log is not a function".
Proof.
  destruct synced_run as [H1 H2].
  split; [exact (conj H1 H2)|].
  destruct second_pass_throws as [H _].
  exact (H defaultConfig Scenarios.online "book" Scenarios.one_image _ _ _
           defaultConfig Scenarios.offline H1 H2).
Defined.



(** ** References recorded, failures listed *)

Lemma attempts_events (o : oracle) (url localPath : string) (remaining attempt : nat)
    (w : world) :
  ∃ events,
    trace (snd (attempts o url localPath attempt remaining w)) = trace w ++ events
    ∧ ∀ path ok, DownloadEnd path ok ∉ events.
Proof.
  revert attempt w. induction remaining as [|rest IH]; intros attempt w; simpl.
  { exists []. split; [by rewrite app_nil_r|]. intros path ok. apply not_elem_of_nil. }
  assert (Hone : ∀ path ok, DownloadEnd path ok ∉ [Request (requests w) url]).
  { intros path ok H. apply list_elem_of_singleton in H. discriminate. }
  destruct (got o (requests w) url) as [body|message]; simpl.
  { by exists [Request (requests w) url]. }
  destruct rest as [|rest']; [by exists [Request (requests w) url]|].
  destruct (IH (S attempt)
              {| files := files w; requests := S (requests w); ticks := ticks w;
                 trace := trace w ++ [Request (requests w) url] |})
    as (events & Htrace & Hnone).
  exists (Request (requests w) url :: events). split.
  - rewrite Htrace. simpl. by rewrite <- app_assoc.
  - intros path ok H. apply elem_of_cons in H as [H|H]; [discriminate|].
    by apply Hnone in H.
Qed.

Lemma finish_traced (cfg : config) (o : oracle) (fileName imagesDir : string)
    (w0 : world) (l : locals) (d : download) :
  started imagesDir d →
  traced imagesDir w0 (l_world l) (l_pass l) →
  let l' := finish cfg o fileName l d in
  traced imagesDir w0 (l_world l') (l_pass l').
Proof.
  intros (_ & _ & Hlocal & Hpr) (events & Htrace & Hfailed).
  unfold finish, settle. rewrite Hpr.
  destruct (attempts_events o (url (d_found d)) (d_localImagePath d) (retryCount cfg) 1
              (l_world l)) as (asked & Hasked & Hnone).
  destruct (attempts o (url (d_found d)) (d_localImagePath d) 1 (retryCount cfg) (l_world l))
    as [[v|message] w1]; simpl in *.
  - exists (events ++ asked ++ [DownloadEnd (d_localImagePath d) true]). split.
    { unfold emit. simpl. rewrite Hasked, Htrace. by rewrite <- !app_assoc. }
    intros localPath. split.
    + rewrite !elem_of_app, list_elem_of_singleton.
      intros [H|[H|H]]; [by apply Hfailed|by apply Hnone in H|discriminate].
    + intros H. apply elem_of_app. left. by apply Hfailed.
  - exists (events ++ asked ++ [DownloadEnd (d_localImagePath d) false]). split.
    { unfold emit. simpl. rewrite Hasked, Htrace. by rewrite <- !app_assoc. }
    intros localPath. simpl. rewrite !elem_of_app, list_elem_of_singleton. split.
    + intros [H|[H|H]].
      * apply Hfailed in H as (k & -> & Hk). exists k. split; [done|].
        destruct (decide (d_imageFileName d = k)) as [->|Hne].
        -- by rewrite lookup_insert_eq.
        -- by rewrite lookup_insert_ne.
      * by apply Hnone in H.
      * injection H as ->. exists (d_imageFileName d). split; [done|].
        by rewrite lookup_insert_eq.
    + intros (k & -> & Hk).
      destruct (decide (d_imageFileName d = k)) as [<-|Hne].
      * right. right. by rewrite Hlocal.
      * left. apply Hfailed. exists k. split; [done|].
        by rewrite lookup_insert_ne in Hk.
Qed.

Lemma start_traced (imagesDir : string) (w0 : world) (l : locals) (i : imageInfo) :
  traced imagesDir w0 (l_world l) (l_pass l) →
  let l' := start imagesDir l i in
  traced imagesDir w0 (l_world l') (l_pass l').
Proof.
  intros (events & Htrace & Hfailed).
  destruct (start_effect imagesDir l i) as (_ & Hmissing & _ & _ & _ & Hcase).
  simpl in *.
  destruct Hcase as [(_ & -> & _)|(_ & Hstarted & _)].
  - exists events. split; [done|]. intros localPath. simpl. rewrite Hmissing.
    apply Hfailed.
  - exists (events ++ [DownloadStart (join imagesDir (nameOf i))]). split.
    { rewrite Hstarted, Htrace. by rewrite <- app_assoc. }
    intros localPath. simpl. rewrite Hmissing. split.
    + rewrite elem_of_app, list_elem_of_singleton.
      intros [H|H]; [by apply Hfailed|discriminate].
    + intros H. apply elem_of_app. left. by apply Hfailed.
Qed.

Lemma start_referenced (imagesDir : string) (w0 : world) (folderName : string)
    (l : locals) (i : imageInfo) :
  referenced w0 folderName i →
  entries_referenced w0 folderName (l_pass l) →
  entries_referenced w0 folderName (l_pass (start imagesDir l i)).
Proof.
  intros Hi He k v.
  destruct (start_effect imagesDir l i) as (Hm & _). simpl in Hm. rewrite Hm.
  intros Hk. apply lookup_insert_Some in Hk as [[<- <-]|[_ Hk]]; [|by apply He].
  right. by exists i.
Qed.

Lemma way_recorded (cfg : config) (o : oracle) (w0 : world)
    (folderName file : string) (p : pass) (w : world)
    (r : result) (p' : pass) (w' : world) :
  let outputFolderPath := join OUTPUT_DIR folderName in
  let imagesDir := join outputFolderPath IMAGES_DIR_NAME in
  file ∈ documents w0 folderName →
  files w !! file = files w0 !! file →
  way cfg o file outputFolderPath imagesDir (join outputFolderPath "mapping.json")
    p w r p' w' →
  entries_referenced w0 folderName p → traced imagesDir w0 w p →
  entries_referenced w0 folderName p' ∧ traced imagesDir w0 w' p'.
Proof.
  intros outputFolderPath imagesDir Hfile Hsame Hway He Ht.
  assert (Hmeta : ∀ h q x,
            entries_referenced w0 folderName q → traced imagesDir w0 x q →
            entries_referenced w0 folderName (fst (setMetadata o h q x))
            ∧ traced imagesDir w0 (snd (setMetadata o h q x)) (fst (setMetadata o h q x))).
  { intros h q x Hq1 Hq2. split; [|done].
    intros k v. simpl. intros Hk.
    apply lookup_insert_Some in Hk as [[<- <-]|[_ Hk]]; [by left|by apply Hq1]. }
  destruct Hway as [|content r _ _ _ _ _|content r _ _ _ _ _ w1 s
                    |content r Hread _ _ _ _ imageUrls l1 l2 newContent w3 s _].
  - done.
  - done.
  - subst s. destruct (Hmeta (calculateFileHash content) p w1 He) as [H1 H2]; [done|].
    split; [done|]. exact H2.
  - subst s. apply Hmeta.
    + assert (H1 : entries_referenced w0 folderName (l_pass l1)).
      { apply (fold_left_invariant (start imagesDir)
                 (fun l => entries_referenced w0 folderName (l_pass l))); [done|].
        intros l i Hi Hl. apply start_referenced; [|done].
        exists file, content. split; [done|]. split; [|done].
        rewrite <- Hread. apply readText_ext. by rewrite Hsame. }
      unfold l2. rewrite awaitAll_fold.
      apply (fold_left_invariant (finish cfg o (path_basename file))
               (fun l => entries_referenced w0 folderName (l_pass l))); [done|].
      intros l d Hd Hl.
      destruct (start_loop_files imagesDir imageUrls
                  {| l_pass := p; l_world := w; l_downloadedCount := 0;
                     l_downloadResults := ∅; l_downloadPromises := [] |})
        as [_ Hstarted]; [constructor|].
      fold l1 in Hstarted. rewrite Forall_forall in Hstarted.
      apply slices_elem in Hd.
      destruct (finish_effect cfg o (path_basename file) imagesDir l d (Hstarted d Hd))
        as (Hm & _). simpl in Hm. intros k v. rewrite Hm. apply Hl.
    + assert (H1 : traced imagesDir w0 (l_world l1) (l_pass l1)).
      { apply (fold_left_invariant (start imagesDir)
                 (fun l => traced imagesDir w0 (l_world l) (l_pass l))); [done|].
        intros l i _ Hl. by apply start_traced. }
      assert (H2 : traced imagesDir w0 (l_world l2) (l_pass l2)).
      { unfold l2. rewrite awaitAll_fold.
        apply (fold_left_invariant (finish cfg o (path_basename file))
                 (fun l => traced imagesDir w0 (l_world l) (l_pass l))); [done|].
        intros l d Hd Hl.
        destruct (start_loop_files imagesDir imageUrls
                    {| l_pass := p; l_world := w; l_downloadedCount := 0;
                       l_downloadResults := ∅; l_downloadPromises := [] |})
          as [_ Hstarted]; [constructor|].
        fold l1 in Hstarted. rewrite Forall_forall in Hstarted.
        apply slices_elem in Hd. by apply finish_traced; [apply Hstarted|]. }
      exact H2.
Qed.

Lemma pass_references (cfg : config) (o : oracle) (folderName : string) (w : world) :
  let outputFolderPath := join OUTPUT_DIR folderName in
  let imagesDir := join outputFolderPath IMAGES_DIR_NAME in
  let t :=
    fold_left (processFile cfg o outputFolderPath imagesDir
                 (join outputFolderPath "mapping.json"))
      (documents w folderName) (fresh w) in
  entries_referenced w folderName (t_pass t)
  ∧ traced imagesDir w (t_world t) (t_pass t).
Proof.
  intros outputFolderPath imagesDir.
  apply (fold_left_invariant _
           (fun t => (entries_referenced w folderName (t_pass t)
                      ∧ traced imagesDir w (t_world t) (t_pass t))
                     ∧ ∀ f, f ∈ documents w folderName →
                            files (t_world t) !! f = files w !! f)).
  - split; [split|done].
    + intros k v Hk. simpl in Hk. by rewrite lookup_empty in Hk.
    + exists []. split; [by rewrite app_nil_r|].
      intros localPath. split.
      * intros H. by apply elem_of_nil in H.
      * intros (k & _ & Hk). simpl in Hk. rewrite lookup_empty in Hk. by destruct Hk.
  - intros t file Hfile [[He Ht] Hdocs].
    destruct (processFile_way cfg o outputFolderPath imagesDir
                (join outputFolderPath "mapping.json") t file) as [r Hway].
    split.
    + by apply (way_recorded cfg o w folderName file (t_pass t) (t_world t) r);
        [|apply Hdocs| | |].
    + intros f Hf. rewrite <- (Hdocs f Hf).
      destruct (processFile_frame cfg o folderName w t file Hfile) as [Hframe _].
      apply Hframe. intros x. by apply (document_not_written w folderName).
Qed.

Lemma cleanFile_fold_trace (imagesDir : string) (used : gset string) (names : list string)
    (s : world * nat) :
  trace (fst (fold_left (cleanFile imagesDir used) names s)) = trace (fst s).
Proof.
  revert s. induction names as [|n names IH]; intros s; simpl; [done|].
  rewrite IH. unfold cleanFile. by case_bool_decide.
Qed.

Lemma processFolder_trace (cfg : config) (o : oracle) (folderName : string) (w : world)
    (r : folderResult) (p : pass) (w' : world) :
  processFolder cfg o folderName w = Normal (r, p, w') →
  let outputFolderPath := join OUTPUT_DIR folderName in
  let t :=
    fold_left (processFile cfg o outputFolderPath (join outputFolderPath IMAGES_DIR_NAME)
                 (join outputFolderPath "mapping.json"))
      (documents w folderName) (fresh w) in
  trace w' = trace (t_world t).
Proof.
  intros Hrun outputFolderPath.
  unfold processFolder in Hrun. fold (documents w folderName) in Hrun.
  fold outputFolderPath in Hrun. fold (fresh w) in Hrun.
  destruct (documents w folderName) as [|file rest] eqn:Hdocs.
  { by injection Hrun as _ _ <-. }
  destruct (existsSync w (join outputFolderPath "mapping.json")).
  { destruct (readMapping w _); discriminate. }
  cbv beta iota delta [mbind completion_bind] in Hrun.
  match type of Hrun with
  | context [fold_left (cleanFile ?d ?u) ?names ?s] =>
      pose proof (cleanFile_fold_trace d u names s) as Hclean;
      destruct (fold_left (cleanFile d u) names s) as [w1 cleanedCount]
  end.
  injection Hrun as _ _ <-. transitivity (trace w1); [|exact Hclean].
  case_bool_decide; simpl; [|done].
  by destruct (existsSync _ _).
Qed.

(** C2, as the claim states it, fails: the image of the document cannot
    be downloaded, and the pass leaves it in the ledger and among the asset
    entries of [mapping.json] alike. *)
Lemma failed_download_is_mapped :
  match processFolder defaultConfig Scenarios.offline "book" Scenarios.one_image with
  | Normal (r, p, w') =>
      f_failedCount r = 1
      ∧ network_calls (trace w') = 3
      ∧ existsSync w' "downloads-with-images/book/images/9ef77880.jpg" = false
      ∧ "9ef77880.jpg" ∈ usedImageFiles p
      ∧ is_Some (ledger w' Scenarios.outputFolder !! "9ef77880.jpg")
      ∧ persisted w' Scenarios.outputFolder !! "9ef77880.jpg"
        = Some (Asset "http://h/a.png" "images/9ef77880.jpg")
  | Throw _ => False
  end.
Proof. vm_compute. repeat split; try reflexivity. eexists; reflexivity. Qed.

(** C2, amended.  After a sync pass has persisted its state (it ended
    normally over a folder with documents, [MAX_CONCURRENT] being
    positive), every key of the mapping record except the reserved
    metadata key denotes an asset that a document of the pass references:
    it is the name that the naming function gives to the URL of a
    reference of a document of the folder, and its entry holds that URL,
    whether the download succeeded or not.  The assets whose download
    failed (the call of [downloadImage] threw after its last attempt), and
    no others, are recorded in the failure ledger; they are in the
    used-assets set, and they are also written into the asset entries of
    the mapping record. *)
Theorem mapping_records_references (cfg : config) (o : oracle) (folderName : string)
    (w : world) (r : folderResult) (p : pass) (w' : world) :
  processFolder cfg o folderName w = Normal (r, p, w') →
  f_total r ≠ 0 →
  0 < maxConcurrent cfg →
  let outputFolderPath := join OUTPUT_DIR folderName in
  let imagesDir := join outputFolderPath IMAGES_DIR_NAME in
  (∀ k v, persisted w' outputFolderPath !! k = Some v → k ≠ "_metadata" →
     k ∈ usedImageFiles p
     ∧ ∃ i, referenced w folderName i ∧ k = nameOf i
            ∧ v = Asset (url i) (join IMAGES_DIR_NAME k))
  ∧ ledger w' outputFolderPath = missingImages p
  ∧ (∀ localPath,
       DownloadEnd localPath false ∈ events_since w w'
       ↔ ∃ k, localPath = join imagesDir k ∧ is_Some (ledger w' outputFolderPath !! k))
  ∧ ∀ k info, ledger w' outputFolderPath !! k = Some info →
      k ∈ usedImageFiles p
      ∧ k = generateImageFileName (originalUrl info)
      ∧ is_Some (persisted w' outputFolderPath !! k).
Proof.
  intros Hrun Htotal _. cbv zeta.
  pose proof (processFolder_normal cfg o folderName w r p w' Hrun Htotal) as Hend.
  pose proof (processFolder_trace cfg o folderName w r p w' Hrun) as Htrace.
  pose proof (pass_recorded cfg o (join OUTPUT_DIR folderName)
                (join (join OUTPUT_DIR folderName) IMAGES_DIR_NAME)
                (join (join OUTPUT_DIR folderName) "mapping.json")
                (documents w folderName) w) as Hrecorded.
  pose proof (pass_references cfg o folderName w) as Hreferences.
  cbv zeta in Hend, Htrace, Hrecorded, Hreferences.
  destruct Hend as (_ & Hp & Hmapping & Hledger & _).
  rewrite <- Hp in Hrecorded, Hreferences.
  destruct Hrecorded as [_ Hf].
  destruct Hreferences as [Hr (events & Hevents & Ht)].
  assert (Hpersisted : ∀ k, persisted w' (join OUTPUT_DIR folderName) !! k
            = if decide (k = "_metadata" ∨ k ∈ usedImageFiles p)
              then mapping p !! k else None).
  { intros k. unfold persisted. rewrite Hmapping. simpl. apply cleanedMapping_lookup. }
  split; [|split; [done|split]].
  - intros k v Hk Hne. rewrite Hpersisted in Hk. case_decide as Hused; [|done].
    destruct Hused as [?|Hused]; [done|]. split; [done|].
    by destruct (Hr k v Hk) as [?|?].
  - intros localPath. unfold events_since.
    rewrite Htrace, Hevents, drop_app_length, Hledger. apply Ht.
  - intros k info Hk. rewrite Hledger in Hk.
    destruct (Hf k info Hk) as (Hused & Hmapped & _ & Hname).
    split; [done|]. split; [done|]. rewrite Hpersisted.
    rewrite decide_True by (by right). done.
Qed.

Lemma mapping_records_references_witness :
  (processFolder defaultConfig Scenarios.offline "book" Scenarios.one_image
   = Normal (Scenarios.failed_pass.1.1, Scenarios.failed_pass.1.2, Scenarios.failed_pass.2)
   ∧ f_total Scenarios.failed_pass.1.1 ≠ 0
   ∧ 0 < maxConcurrent defaultConfig
   ∧ DownloadEnd "downloads-with-images/book/images/9ef77880.jpg" false
     ∈ events_since Scenarios.one_image Scenarios.failed_pass.2)
  ∧ ∃ k, "downloads-with-images/book/images/9ef77880.jpg"
         = join (join (join OUTPUT_DIR "book") IMAGES_DIR_NAME) k
         ∧ is_Some (ledger Scenarios.failed_pass.2 (join OUTPUT_DIR "book") !! k).
Proof.
  destruct failed_pass_run as [H1 H2].
  assert (H3 : 0 < maxConcurrent defaultConfig) by (vm_compute; lia).
  assert (H4 : DownloadEnd "downloads-with-images/book/images/9ef77880.jpg" false
               ∈ events_since Scenarios.one_image Scenarios.failed_pass.2).
  { vm_compute. repeat constructor. }
  split; [exact (conj H1 (conj H2 (conj H3 H4)))|].
  destruct (mapping_records_references defaultConfig Scenarios.offline "book"
              Scenarios.one_image _ _ _ H1 H2 H3) as (_ & _ & H & _).
  apply H. exact H4.
Defined.

(** ** What the Recovery Scanner counts, fetches and leaves *)

Lemma fromLedger_fold_names (w : world) (imagesDir : string)
    (entries : list (string * missingImage)) (missing : list FixMissingImages.missingItem) :
  NoDup (fst <$> entries) →
  NoDup (FixMissingImages.fileName <$> missing) →
  (∀ item, item ∈ missing → FixMissingImages.fileName item ∉ fst <$> entries) →
  (∀ item, item ∈ missing →
           existsSync w (join imagesDir (FixMissingImages.fileName item)) = false) →
  let found := fold_left (FixMissingImages.fromLedger w imagesDir) entries missing in
  NoDup (FixMissingImages.fileName <$> found)
  ∧ ∀ item, item ∈ found →
            existsSync w (join imagesDir (FixMissingImages.fileName item)) = false.
Proof.
  revert missing. induction entries as [|[k info] entries IH];
    intros missing Hkeys Hdup Hfresh Habsent; cbn [fold_left]; [done|].
  cbn [fmap list_fmap fst] in Hkeys. apply NoDup_cons in Hkeys as [Hk Hkeys].
  apply IH; [done|..]; unfold FixMissingImages.fromLedger;
    destruct (existsSync w (join imagesDir k)) eqn:E; cbn [negb].
  - done.
  - rewrite fmap_app. cbn [fmap list_fmap FixMissingImages.fileName].
    apply NoDup_app. split; [done|]. split; [|apply NoDup_singleton].
    intros name Hname ->%list_elem_of_singleton.
    apply list_elem_of_fmap in Hname as (item & -> & Hitem).
    apply (Hfresh item Hitem). cbn [fmap list_fmap fst]. by left.
  - intros item Hitem Hin. apply (Hfresh item Hitem). cbn [fmap list_fmap fst]. by right.
  - intros item [Hitem| ->%list_elem_of_singleton]%elem_of_app Hin.
    + apply (Hfresh item Hitem). cbn [fmap list_fmap fst]. by right.
    + done.
  - done.
  - intros item [Hitem| ->%list_elem_of_singleton]%elem_of_app; [by apply Habsent|done].
Qed.

Lemma fromMapping_fold_names (w : world) (imagesDir : string)
    (entries : list (string * mappingValue)) (missing : list FixMissingImages.missingItem) :
  NoDup (FixMissingImages.fileName <$> missing) →
  (∀ item, item ∈ missing →
           existsSync w (join imagesDir (FixMissingImages.fileName item)) = false) →
  let found := fold_left (FixMissingImages.fromMapping w imagesDir) entries missing in
  NoDup (FixMissingImages.fileName <$> found)
  ∧ ∀ item, item ∈ found →
            existsSync w (join imagesDir (FixMissingImages.fileName item)) = false.
Proof.
  revert missing. induction entries as [|[k info] entries IH];
    intros missing Hdup Habsent; cbn [fold_left]; [done|].
  unfold FixMissingImages.fromMapping at 2 4.
  destruct (starts_with "_" k); [by apply IH|].
  destruct (existsSync w (join imagesDir k)) eqn:E; cbn [negb]; [by apply IH|].
  destruct (existsb _ missing) eqn:Hin; [by apply IH|].
  apply IH.
  - rewrite fmap_app. cbn [fmap list_fmap FixMissingImages.fileName].
    apply NoDup_app. split; [done|]. split; [|apply NoDup_singleton].
    intros name Hname ->%list_elem_of_singleton.
    apply list_elem_of_fmap in Hname as (item & Heq & Hitem).
    assert (existsb (λ item, String.eqb (FixMissingImages.fileName item) k) missing = true)
      as Hyes; [|by rewrite Hyes in Hin].
    apply existsb_exists. exists item. split; [by apply list_elem_of_In|].
    rewrite <- Heq. apply String.eqb_refl.
  - intros item [Hitem| ->%list_elem_of_singleton]%elem_of_app; [by apply Habsent|done].
Qed.

(** X11.  What [scanForMissingImages] reports is accurate: no file name
    is listed twice as missing, the image file of every missing item is
    absent, every orphan is a file of the images directory that has no
    entry in [mapping.json], and no name is both missing and orphaned. *)
Theorem scan_reports_are_accurate (w : world) (folderPath : string) :
  let imagesDir := join folderPath IMAGES_DIR_NAME in
  let '(missing, orphaned) := FixMissingImages.scanForMissingImages w folderPath in
  NoDup (FixMissingImages.fileName <$> missing)
  ∧ (∀ item, item ∈ missing →
             existsSync w (join imagesDir (FixMissingImages.fileName item)) = false)
  ∧ (∀ item, item ∈ orphaned →
             FixMissingImages.o_filePath item
             = join imagesDir (FixMissingImages.o_fileName item)
             ∧ existsSync w (FixMissingImages.o_filePath item) = true
             ∧ persisted w folderPath !! FixMissingImages.o_fileName item = None)
  ∧ ∀ item orphan, item ∈ missing → orphan ∈ orphaned →
                   FixMissingImages.fileName item ≠ FixMissingImages.o_fileName orphan.
Proof.
  intros imagesDir. unfold FixMissingImages.scanForMissingImages. cbn zeta.
  fold imagesDir.
  set (missing1 := match readMissing w _ with Some m => _ | None => _ end).
  set (missing2 := match readMapping w _ with Some m => _ | None => _ end).
  set (orphaned := match (if existsSync w _ then _ else _) with Some m => _ | None => _ end).
  assert (H1 : NoDup (FixMissingImages.fileName <$> missing1)
               ∧ ∀ item, item ∈ missing1 →
                   existsSync w (join imagesDir (FixMissingImages.fileName item)) = false).
  { subst missing1. destruct (readMissing w _) as [m|].
    - apply fromLedger_fold_names.
      + apply NoDup_fst_map_to_list.
      + apply NoDup_nil_2.
      + by intros item Hitem%elem_of_nil.
      + by intros item Hitem%elem_of_nil.
    - split; [apply NoDup_nil_2|]. by intros item Hitem%elem_of_nil. }
  assert (H2 : NoDup (FixMissingImages.fileName <$> missing2)
               ∧ ∀ item, item ∈ missing2 →
                   existsSync w (join imagesDir (FixMissingImages.fileName item)) = false).
  { subst missing2. destruct (readMapping w _) as [m|]; [|done].
    destruct H1 as [Hdup Habsent]. by apply fromMapping_fold_names. }
  assert (H3 : ∀ item, item ∈ orphaned →
             FixMissingImages.o_filePath item
             = join imagesDir (FixMissingImages.o_fileName item)
             ∧ existsSync w (FixMissingImages.o_filePath item) = true
             ∧ persisted w folderPath !! FixMissingImages.o_fileName item = None).
  { subst orphaned. unfold persisted. intros item Hitem.
    assert (∀ mapping : gmap string mappingValue,
              item ∈ List.map (λ file, {| FixMissingImages.o_fileName := file;
                                          FixMissingImages.o_filePath := join imagesDir file |})
                       (List.filter (λ file, negb (bool_decide (is_Some (mapping !! file))))
                          (readdirSync w imagesDir)) →
              FixMissingImages.o_filePath item
              = join imagesDir (FixMissingImages.o_fileName item)
              ∧ existsSync w (FixMissingImages.o_filePath item) = true
              ∧ mapping !! FixMissingImages.o_fileName item = None) as Hgen.
    { intros mapping Hin. apply list_elem_of_In, in_map_iff in Hin as (file & <- & Hfile).
      apply filter_In in Hfile as [Hfile Hnot]. apply list_elem_of_In in Hfile.
      apply readdirSync_plain in Hfile as [_ Hsome]. cbn.
      split; [done|]. split; [by apply existsSync_is_Some|].
      apply negb_true_iff, bool_decide_eq_false in Hnot.
      by apply eq_None_not_Some. }
    destruct (existsSync w (join folderPath "mapping.json")) eqn:E.
    - destruct (readMapping w _) as [m|]; [by apply Hgen|by apply elem_of_nil in Hitem].
    - apply Hgen in Hitem. unfold readMapping.
      apply existsSync_None in E. rewrite E. exact Hitem. }
  destruct H2 as [Hdup Habsent]. split; [done|]. split; [done|]. split; [done|].
  intros item orphan Hitem Horphan Heq.
  destruct (H3 orphan Horphan) as (Hpath & Hthere & _).
  rewrite Hpath, <- Heq, (Habsent item Hitem) in Hthere. done.
Qed.

Lemma recovery_unfold (cfg : config) (o : oracle) (folderPath : string) (w : world) :
  let missing := fst (FixMissingImages.scanForMissingImages w folderPath) in
  let orphaned := snd (FixMissingImages.scanForMissingImages w folderPath) in
  let l := fold_left (FixMissingImages.retry cfg o) missing (recovery_start w folderPath) in
  FixMissingImages.processFolder cfg o folderPath w
  = if bool_decide (missing = [] ∧ orphaned = []) then
      ({| FixMissingImages.fixed := 0; FixMissingImages.failed := 0;
          FixMissingImages.orphaned := 0 |}, w)
    else
      ({| FixMissingImages.fixed := FixMissingImages.l_fixedCount l;
          FixMissingImages.failed := FixMissingImages.l_failedCount l;
          FixMissingImages.orphaned := length orphaned |},
       FixMissingImages.updateMissingImagesFile folderPath
         (FixMissingImages.l_missingImages l) (FixMissingImages.l_world l)).
Proof.
  unfold FixMissingImages.processFolder.
  destruct (FixMissingImages.scanForMissingImages w folderPath) as [missing orphaned].
  simpl. destruct missing, orphaned; try done;
    rewrite bool_decide_eq_false_2; try done; by intros [? ?].
Qed.

Lemma tryDownloadImage_requests (cfg : config) (o : oracle) (url localPath : string)
    (w : world) :
  let w' := snd (FixMissingImages.tryDownloadImage cfg o url localPath w) in
  requests w ≤ requests w' ≤ requests w + retryCount cfg.
Proof.
  unfold FixMissingImages.tryDownloadImage. rewrite <- attempts_same.
  pose proof (attempts_requests o url localPath (retryCount cfg) 1
                (emit (DownloadStart localPath) w)) as H.
  destruct (attempts _ _ _ _ _ _) as [r w1]. simpl in *. lia.
Qed.

Lemma retry_counts (cfg : config) (o : oracle) (l : FixMissingImages.locals)
    (item : FixMissingImages.missingItem) :
  let l' := FixMissingImages.retry cfg o l item in
  FixMissingImages.l_fixedCount l' + FixMissingImages.l_failedCount l'
  = S (FixMissingImages.l_fixedCount l + FixMissingImages.l_failedCount l)
  ∧ requests (FixMissingImages.l_world l) ≤ requests (FixMissingImages.l_world l')
  ∧ requests (FixMissingImages.l_world l')
    ≤ requests (FixMissingImages.l_world l) + retryCount cfg
  ∧ ∀ q, is_Some (files (FixMissingImages.l_world l) !! q) →
         is_Some (files (FixMissingImages.l_world l') !! q).
Proof.
  unfold FixMissingImages.retry.
  pose proof (tryDownloadImage_requests cfg o (FixMissingImages.m_originalUrl item)
                (FixMissingImages.m_expectedPath item) (FixMissingImages.l_world l)) as Hr.
  pose proof (tryDownloadImage_files cfg o (FixMissingImages.m_originalUrl item)
                (FixMissingImages.m_expectedPath item) (FixMissingImages.l_world l)) as Hf.
  destruct (FixMissingImages.tryDownloadImage _ _ _ _ _) as [[[]|message] w'];
    simpl in *; (split; [lia|]); (split; [lia|]); (split; [lia|]); intros q Hq.
  - destruct Hf as [body ->]. destruct (decide (FixMissingImages.m_expectedPath item = q))
      as [->|Hne]; [by rewrite lookup_insert_eq|by rewrite lookup_insert_ne].
  - by rewrite Hf.
  - by rewrite Hf.
Qed.

Lemma retry_loop_counts (cfg : config) (o : oracle)
    (missing : list FixMissingImages.missingItem) (l : FixMissingImages.locals) :
  let l' := fold_left (FixMissingImages.retry cfg o) missing l in
  FixMissingImages.l_fixedCount l' + FixMissingImages.l_failedCount l'
  = FixMissingImages.l_fixedCount l + FixMissingImages.l_failedCount l + length missing
  ∧ requests (FixMissingImages.l_world l) ≤ requests (FixMissingImages.l_world l')
  ∧ requests (FixMissingImages.l_world l')
    ≤ requests (FixMissingImages.l_world l) + retryCount cfg * length missing
  ∧ ∀ q, is_Some (files (FixMissingImages.l_world l) !! q) →
         is_Some (files (FixMissingImages.l_world l') !! q).
Proof.
  revert l. induction missing as [|item missing IH]; intros l; simpl.
  { repeat split; auto; lia. }
  destruct (IH (FixMissingImages.retry cfg o l item)) as (H1 & H2 & H3 & H4).
  destruct (retry_counts cfg o l item) as (H1' & H2' & H3' & H4').
  simpl in *. repeat split; auto; nia.
Qed.

(** X12.  The Recovery Scanner counts every missing asset of its scan
    once, as fixed or as failed, reports as many orphans as the scan found,
    and makes at most [RETRY_COUNT] requests for each missing asset. *)
Theorem recovery_tries_each_missing_asset_once (cfg : config) (o : oracle)
    (folderPath : string) (w : world) :
  let '(missing, orphaned) := FixMissingImages.scanForMissingImages w folderPath in
  let '(r, w') := FixMissingImages.processFolder cfg o folderPath w in
  FixMissingImages.fixed r + FixMissingImages.failed r = length missing
  ∧ FixMissingImages.orphaned r = length orphaned
  ∧ requests w ≤ requests w'
  ∧ requests w' ≤ requests w + retryCount cfg * length missing.
Proof.
  pose proof (recovery_unfold cfg o folderPath w) as H. cbv zeta in H.
  destruct (FixMissingImages.scanForMissingImages w folderPath) as [missing orphaned].
  cbn [fst snd] in H. rewrite H. case_bool_decide as Hnone.
  - destruct Hnone as [-> ->]. simpl. lia.
  - destruct (retry_loop_counts cfg o missing (recovery_start w folderPath))
      as (H1 & H2 & H3 & _).
    simpl in *. unfold FixMissingImages.updateMissingImagesFile.
    repeat case_match; simpl; repeat split; lia.
Qed.

(** X13.  The Recovery Scanner deletes no file other than the ledger: a
    file that is not [missing-images.json] and exists before the scanner
    runs exists afterwards. *)
Theorem recovery_deletes_nothing_but_the_ledger (cfg : config) (o : oracle)
    (folderPath : string) (w : world) (q : string) :
  q ≠ join folderPath "missing-images.json" →
  is_Some (files w !! q) →
  is_Some (files (snd (FixMissingImages.processFolder cfg o folderPath w)) !! q).
Proof.
  intros Hq Hsome. rewrite recovery_unfold. simpl. case_bool_decide; [done|]. simpl.
  rewrite files_updated by done.
  by apply (retry_loop_counts cfg o _ (recovery_start w folderPath)).
Qed.

Lemma recovery_deletes_nothing_but_the_ledger_witness :
  (join (join OUTPUT_DIR "book") "mapping.json"
   ≠ join (join OUTPUT_DIR "book") "missing-images.json"
   ∧ is_Some (files Scenarios.failed_pass.2 !! join (join OUTPUT_DIR "book") "mapping.json"))
  ∧ is_Some (files (snd (FixMissingImages.processFolder defaultConfig Scenarios.offline
                           (join OUTPUT_DIR "book") Scenarios.failed_pass.2))
             !! join (join OUTPUT_DIR "book") "mapping.json").
Proof.
  assert (H1 : join (join OUTPUT_DIR "book") "mapping.json"
               ≠ join (join OUTPUT_DIR "book") "missing-images.json")
    by (vm_compute; discriminate).
  assert (H2 : is_Some (files Scenarios.failed_pass.2
                        !! join (join OUTPUT_DIR "book") "mapping.json"))
    by (vm_compute; eauto).
  split; [exact (conj H1 H2)|].
  exact (recovery_deletes_nothing_but_the_ledger defaultConfig Scenarios.offline
           (join OUTPUT_DIR "book") Scenarios.failed_pass.2 _ H1 H2).
Defined.

Lemma fromLedger_present (w : world) (imagesDir : string)
    (entries : list (string * missingImage)) (acc : list FixMissingImages.missingItem) :
  (∀ k info, (k, info) ∈ entries → existsSync w (join imagesDir k) = true) →
  fold_left (FixMissingImages.fromLedger w imagesDir) entries acc = acc.
Proof.
  revert acc. induction entries as [|[k info] entries IH]; intros acc Hall; simpl; [done|].
  rewrite (Hall k info) by (by left). simpl. apply IH.
  intros k' info' H. apply (Hall k' info'). by right.
Qed.

Lemma fromMapping_present (w : world) (imagesDir : string)
    (entries : list (string * mappingValue)) (acc : list FixMissingImages.missingItem) :
  (∀ k v, (k, v) ∈ entries → starts_with "_" k = false →
          existsSync w (join imagesDir k) = true) →
  fold_left (FixMissingImages.fromMapping w imagesDir) entries acc = acc.
Proof.
  revert acc. induction entries as [|[k v] entries IH]; intros acc Hall; simpl; [done|].
  rewrite IH by (intros k' v' H; apply (Hall k' v'); by right).
  destruct (starts_with "_" k) eqn:E; [done|].
  by rewrite (Hall k v) by (by left || done).
Qed.

Lemma filter_none {A} (f : A → bool) (l : list A) :
  (∀ x, x ∈ l → f x = false) → List.filter f l = [].
Proof.
  induction l as [|x l IH]; intros Hall; simpl; [done|].
  rewrite (Hall x) by (by left). apply IH. intros y Hy. apply Hall. by right.
Qed.

(** X14.  On a folder where every file named by the ledger or by an asset
    entry of [mapping.json] is on disk, and every image file has its entry
    in [mapping.json], the Recovery Scanner does nothing: it makes no
    request, writes and deletes no file, log files apart (a ledger whose
    entries are all on disk stays as it is), and returns three zeros. *)
Theorem recovery_of_a_complete_folder_changes_nothing (cfg : config) (o : oracle)
    (folderPath : string) (w : world) :
  let imagesDir := join folderPath IMAGES_DIR_NAME in
  (∀ k, k ∈ dom (ledger w folderPath) → existsSync w (join imagesDir k) = true) →
  (∀ k, k ∈ dom (persisted w folderPath) → starts_with "_" k = false →
        existsSync w (join imagesDir k) = true) →
  (∀ name, name ∈ readdirSync w imagesDir → name ∈ dom (persisted w folderPath)) →
  let '(r, w') := FixMissingImages.processFolder cfg o folderPath w in
  r = {| FixMissingImages.fixed := 0; FixMissingImages.failed := 0;
         FixMissingImages.orphaned := 0 |}
  ∧ requests w' = requests w
  ∧ (∀ q, log_file q = false → files w' !! q = files w !! q).
Proof.
  intros imagesDir Hledger Hmapping Hfiles.
  assert (Hscan : FixMissingImages.scanForMissingImages w folderPath = ([], [])).
  { unfold FixMissingImages.scanForMissingImages. fold imagesDir.
    unfold ledger, persisted in *.
    assert (H1 : match readMissing w (join folderPath "missing-images.json") with
                 | Some missingImages =>
                     fold_left (FixMissingImages.fromLedger w imagesDir)
                       (map_to_list missingImages) []
                 | None => []
                 end = []).
    { destruct (readMissing w _) as [m|]; [|done]. simpl in Hledger.
      apply fromLedger_present. intros k info Hk. apply Hledger.
      apply elem_of_map_to_list in Hk. apply elem_of_dom. eauto. }
    rewrite H1. clear H1. f_equal.
    - destruct (readMapping w _) as [m|]; [|done]. simpl in Hmapping.
      apply fromMapping_present. intros k v Hk. apply Hmapping.
      apply elem_of_map_to_list in Hk. apply elem_of_dom. eauto.
    - destruct (existsSync w (join folderPath "mapping.json")) eqn:Hexists.
      + destruct (readMapping w _) as [m|]; [|done]. simpl in Hfiles.
        rewrite filter_none; [done|].
        intros name Hname. apply Hfiles, elem_of_dom in Hname.
        by rewrite bool_decide_eq_true_2.
      + apply existsSync_None in Hexists. unfold readMapping in Hfiles.
        rewrite Hexists in Hfiles. simpl in Hfiles.
        destruct (readdirSync w imagesDir) as [|name rest]; [done|].
        specialize (Hfiles name (list_elem_of_here _ _)).
        rewrite dom_empty_L in Hfiles. by apply not_elem_of_empty in Hfiles. }
  unfold FixMissingImages.processFolder. rewrite Hscan. done.
Qed.

Lemma stale_ledger_complete :
  let imagesDir := join (join OUTPUT_DIR "book") IMAGES_DIR_NAME in
  (∀ k, k ∈ dom (ledger Cases.stale_ledger (join OUTPUT_DIR "book")) →
        existsSync Cases.stale_ledger (join imagesDir k) = true)
  ∧ (∀ k, k ∈ dom (persisted Cases.stale_ledger (join OUTPUT_DIR "book")) →
          starts_with "_" k = false →
          existsSync Cases.stale_ledger (join imagesDir k) = true)
  ∧ (∀ name, name ∈ readdirSync Cases.stale_ledger imagesDir →
             name ∈ dom (persisted Cases.stale_ledger (join OUTPUT_DIR "book"))).
Proof.
  intros imagesDir.
  assert (Hkeys : ∀ {A} (m : gmap string A) k,
            k ∈ dom m → k ∈ List.map fst (map_to_list m)).
  { intros A m k Hk. apply elem_of_dom in Hk as [v Hk].
    apply list_elem_of_fmap. exists (k, v). split; [done|]. by apply elem_of_map_to_list. }
  split; [|split].
  - intros k Hk. apply Hkeys in Hk. vm_compute in Hk.
    apply list_elem_of_singleton in Hk. subst k. vm_compute. reflexivity.
  - intros k Hk Hname. apply Hkeys in Hk. vm_compute in Hk.
    repeat (apply elem_of_cons in Hk as [Hk|Hk];
            [subst k; first [vm_compute in Hname; discriminate|vm_compute; reflexivity]|]).
    by apply elem_of_nil in Hk.
  - intros name Hname. vm_compute in Hname.
    apply list_elem_of_singleton in Hname. subst name. vm_compute. reflexivity.
Qed.

Lemma recovery_of_a_complete_folder_changes_nothing_witness :
  is_Some (ledger Cases.stale_ledger (join OUTPUT_DIR "book") !! "9ef77880.jpg")
  ∧ let '(r, w') :=
      FixMissingImages.processFolder defaultConfig Scenarios.online
        (join OUTPUT_DIR "book") Cases.stale_ledger in
    r = {| FixMissingImages.fixed := 0; FixMissingImages.failed := 0;
           FixMissingImages.orphaned := 0 |}
    ∧ requests w' = requests Cases.stale_ledger
    ∧ (∀ q, log_file q = false → files w' !! q = files Cases.stale_ledger !! q).
Proof.
  split; [vm_compute; eauto|].
  destruct stale_ledger_complete as (H1 & H2 & H3).
  exact (recovery_of_a_complete_folder_changes_nothing defaultConfig Scenarios.online
           (join OUTPUT_DIR "book") Cases.stale_ledger H1 H2 H3).
Defined.

Lemma tryDownloadImage_reachable (cfg : config) (o : oracle) (url localPath : string)
    (w : world) :
  reachable o → retryCount cfg ≠ 0 →
  ∃ body w',
    FixMissingImages.tryDownloadImage cfg o url localPath w = (Normal true, w')
    ∧ files w' = <[localPath := Text body]> (files w).
Proof.
  intros Hup Hretry. unfold FixMissingImages.tryDownloadImage.
  destruct (retryCount cfg) as [|rest]; [done|]. simpl.
  destruct (Hup (requests w) url) as [body ->]. simpl. eauto.
Qed.

Lemma retry_loop_reachable (cfg : config) (o : oracle)
    (missing : list FixMissingImages.missingItem) (l : FixMissingImages.locals) :
  reachable o → retryCount cfg ≠ 0 →
  let l' := fold_left (FixMissingImages.retry cfg o) missing l in
  FixMissingImages.l_failedCount l' = FixMissingImages.l_failedCount l
  ∧ (∀ item, item ∈ missing →
       is_Some (files (FixMissingImages.l_world l')
                !! FixMissingImages.m_expectedPath item))
  ∧ ∀ k, k ∈ dom (FixMissingImages.l_missingImages l') →
         k ∈ dom (FixMissingImages.l_missingImages l)
         ∧ k ∉ List.map FixMissingImages.fileName missing.
Proof.
  intros Hup Hretry. revert l. induction missing as [|item missing IH]; intros l; simpl.
  { split; [done|]. split; [|split; [done|apply not_elem_of_nil]].
    intros item Hitem. by apply elem_of_nil in Hitem. }
  destruct (IH (FixMissingImages.retry cfg o l item)) as (H1 & H2 & H3).
  pose proof (retry_loop_counts cfg o missing (FixMissingImages.retry cfg o l item))
    as (_ & _ & _ & Hkeep).
  simpl in *. rewrite H1. clear H1.
  unfold FixMissingImages.retry in *.
  destruct (tryDownloadImage_reachable cfg o (FixMissingImages.m_originalUrl item)
              (FixMissingImages.m_expectedPath item) (FixMissingImages.l_world l)
              Hup Hretry) as (body & w' & Htry & Hfiles).
  rewrite Htry in *. simpl in *. split; [done|]. split.
  - intros item' Hitem'. apply elem_of_cons in Hitem' as [->|Hitem']; [|by apply H2].
    apply Hkeep. by rewrite Hfiles, lookup_insert_eq.
  - intros k Hk. apply H3 in Hk as [Hk Hnot].
    rewrite dom_delete_L, elem_of_difference, elem_of_singleton in Hk.
    destruct Hk as [Hk Hne]. split; [done|].
    apply not_elem_of_cons. split; [done|done].
Qed.

Lemma fromMapping_fold_covers (w : world) (imagesDir : string)
    (entries : list (string * mappingValue)) (acc : list FixMissingImages.missingItem)
    (k : string) (v : mappingValue) :
  (k, v) ∈ entries → starts_with "_" k = false →
  existsSync w (join imagesDir k) = false →
  k ∈ List.map FixMissingImages.fileName
        (fold_left (FixMissingImages.fromMapping w imagesDir) entries acc).
Proof.
  assert (Hkeep : ∀ entries acc,
            k ∈ List.map FixMissingImages.fileName acc →
            k ∈ List.map FixMissingImages.fileName
                  (fold_left (FixMissingImages.fromMapping w imagesDir) entries acc)).
  { clear. induction entries as [|[k' v'] entries IH]; intros acc Hk; simpl; [done|].
    apply IH. destruct (starts_with "_" k'); [done|].
    destruct (negb (existsSync w (join imagesDir k'))); [|done].
    destruct (existsb _ acc); [done|].
    rewrite List.map_app. apply elem_of_app. by left. }
  intros Hin Hname Habsent. revert acc.
  induction entries as [|[k' v'] entries IH]; intros acc; simpl.
  { by apply elem_of_nil in Hin. }
  apply elem_of_cons in Hin as [[= <- <-]|Hin]; [|by apply IH].
  apply Hkeep. rewrite Hname, Habsent. simpl.
  destruct (existsb _ acc) eqn:E.
  - apply existsb_exists in E as (item & Hitem & Heq).
    apply String.eqb_eq in Heq. rewrite <- Heq.
    apply list_elem_of_fmap. exists item. split; [done|]. by apply list_elem_of_In.
  - rewrite List.map_app. apply elem_of_app. right. by left.
Qed.

(** X15.  When every request is answered with a body and at least one
    attempt is made, the Recovery Scanner on a ledger written by the Sync
    Engine fixes every missing asset: none is counted as failed, every file
    named by the ledger or by an asset entry of [mapping.json] is on disk
    afterwards, and the entries left in the ledger are entries whose file
    was already on disk before. *)
Theorem recovery_fetches_every_missing_asset (cfg : config) (o : oracle)
    (folderPath : string) (w : world) :
  reachable o → 0 < retryCount cfg →
  ledger_as_written w folderPath →
  let imagesDir := join folderPath IMAGES_DIR_NAME in
  let '(r, w') := FixMissingImages.processFolder cfg o folderPath w in
  FixMissingImages.failed r = 0
  ∧ (∀ k, k ∈ dom (ledger w folderPath) → existsSync w' (join imagesDir k) = true)
  ∧ (∀ k, k ∈ dom (persisted w folderPath) → starts_with "_" k = false →
          existsSync w' (join imagesDir k) = true)
  ∧ ∀ k, k ∈ dom (ledger w' folderPath) →
         k ∈ dom (ledger w folderPath) ∧ existsSync w (join imagesDir k) = true.
Proof.
  intros Hup Hretry Hwf imagesDir.
  pose proof (recovery_unfold cfg o folderPath w) as H. cbv zeta in H.
  destruct (FixMissingImages.scanForMissingImages w folderPath)
    as [missing orphaned] eqn:Hscan.
  destruct (scan_missing w folderPath missing orphaned Hwf Hscan) as (Hitems & _ & Hlisted).
  fold imagesDir in Hitems, Hlisted.
  assert (Hmapped : ∀ k, k ∈ dom (persisted w folderPath) → starts_with "_" k = false →
            existsSync w (join imagesDir k) = false →
            k ∈ List.map FixMissingImages.fileName missing).
  { intros k Hk Hname Habsent. unfold persisted in Hk.
    unfold FixMissingImages.scanForMissingImages in Hscan. fold imagesDir in Hscan.
    injection Hscan as <- _.
    destruct (readMapping w (join folderPath "mapping.json")) as [m|]; simpl in Hk.
    - apply elem_of_dom in Hk as [v Hk].
      apply (fromMapping_fold_covers w imagesDir _ _ k v); [|done|done].
      by apply elem_of_map_to_list.
    - rewrite dom_empty_L in Hk. by apply not_elem_of_empty in Hk. }
  cbn [fst snd] in H. rewrite H. clear H.
  case_bool_decide as Hnone.
  { destruct Hnone as [-> ->]. simpl in Hlisted, Hmapped.
    split; [done|]. split; [|split].
    - intros k Hk. destruct (existsSync w (join imagesDir k)) eqn:E; [done|].
      by apply (Hlisted k Hk), elem_of_nil in E.
    - intros k Hk Hname. destruct (existsSync w (join imagesDir k)) eqn:E; [done|].
      by apply (Hmapped k Hk Hname), elem_of_nil in E.
    - intros k Hk. split; [done|].
      destruct (existsSync w (join imagesDir k)) eqn:E; [done|].
      by apply (Hlisted k Hk), elem_of_nil in E. }
  destruct (retry_loop_reachable cfg o missing (recovery_start w folderPath) Hup)
    as (Hfailed & Hwritten & Hleft); [lia|].
  pose proof (retry_loop_counts cfg o missing (recovery_start w folderPath))
    as (_ & _ & _ & Hkeep).
  set (l := fold_left (FixMissingImages.retry cfg o) missing (recovery_start w folderPath))
    in *.
  assert (Hthere : ∀ k, k ∈ List.map FixMissingImages.fileName missing →
            is_Some (files (FixMissingImages.l_world l) !! join imagesDir k)).
  { intros k Hk. apply list_elem_of_fmap in Hk as (item & -> & Hitem).
    rewrite Forall_forall in Hitems. rewrite <- (Hitems item Hitem). by apply Hwritten. }
  assert (Hafter : ∀ k,
            existsSync w (join imagesDir k) = true
            ∨ k ∈ List.map FixMissingImages.fileName missing →
            existsSync
              (FixMissingImages.updateMissingImagesFile folderPath
                 (FixMissingImages.l_missingImages l) (FixMissingImages.l_world l))
              (join imagesDir k) = true).
  { intros k Hk. apply existsSync_is_Some.
    rewrite files_updated by apply image_not_ledger.
    destruct Hk as [Hk|Hk]; [|by apply Hthere].
    apply Hkeep. by apply existsSync_is_Some. }
  split; [done|]. split; [|split].
  - intros k Hk. apply Hafter.
    destruct (existsSync w (join imagesDir k)) eqn:E; [by left|right; by apply Hlisted].
  - intros k Hk Hname. apply Hafter.
    destruct (existsSync w (join imagesDir k)) eqn:E; [by left|right; by apply Hmapped].
  - intros k. rewrite ledger_updated. intros Hk. apply Hleft in Hk as [Hk Hnot].
    assert (Hk' : k ∈ dom (ledger w folderPath)).
    { unfold ledger. simpl in Hk.
      by destruct (readMissing w (join folderPath "missing-images.json")). }
    split; [done|]. destruct (existsSync w (join imagesDir k)) eqn:E; [done|].
    destruct Hnot. by apply Hlisted.
Qed.

Lemma recovery_fetches_every_missing_asset_witness :
  (reachable Scenarios.online
   ∧ 0 < retryCount defaultConfig
   ∧ ledger_as_written Scenarios.failed_pass.2 (join OUTPUT_DIR "book")
   ∧ existsSync Scenarios.failed_pass.2
       (join (join (join OUTPUT_DIR "book") IMAGES_DIR_NAME) "9ef77880.jpg") = false)
  ∧ let '(r, w') :=
      FixMissingImages.processFolder defaultConfig Scenarios.online
        (join OUTPUT_DIR "book") Scenarios.failed_pass.2 in
    FixMissingImages.failed r = 0
    ∧ (∀ k, k ∈ dom (ledger Scenarios.failed_pass.2 (join OUTPUT_DIR "book")) →
            existsSync w' (join (join (join OUTPUT_DIR "book") IMAGES_DIR_NAME) k) = true)
    ∧ (∀ k, k ∈ dom (persisted Scenarios.failed_pass.2 (join OUTPUT_DIR "book")) →
            starts_with "_" k = false →
            existsSync w' (join (join (join OUTPUT_DIR "book") IMAGES_DIR_NAME) k) = true)
    ∧ ∀ k, k ∈ dom (ledger w' (join OUTPUT_DIR "book")) →
           k ∈ dom (ledger Scenarios.failed_pass.2 (join OUTPUT_DIR "book"))
           ∧ existsSync Scenarios.failed_pass.2
               (join (join (join OUTPUT_DIR "book") IMAGES_DIR_NAME) k) = true.
Proof.
  destruct failed_pass_run as [Hrun Htotal].
  assert (H1 : reachable Scenarios.online) by (intros n url; eexists; reflexivity).
  assert (H2 : 0 < retryCount defaultConfig) by (vm_compute; lia).
  assert (H3 : ledger_as_written Scenarios.failed_pass.2 (join OUTPUT_DIR "book")).
  { exact (sync_ledger_as_written defaultConfig Scenarios.offline "book"
             Scenarios.one_image _ _ _ Hrun Htotal). }
  assert (H4 : existsSync Scenarios.failed_pass.2
                 (join (join (join OUTPUT_DIR "book") IMAGES_DIR_NAME) "9ef77880.jpg")
               = false) by (vm_compute; reflexivity).
  split; [exact (conj H1 (conj H2 (conj H3 H4)))|].
  exact (recovery_fetches_every_missing_asset defaultConfig Scenarios.online
           (join OUTPUT_DIR "book") Scenarios.failed_pass.2 H1 H2 H3).
Defined.

(** X16.  After a pass of the Sync Engine that ends normally over a
    folder with documents (two documents with the same fingerprint having
    the same text), the scan of the Recovery Scanner finds no orphan in the
    output folder: every image file has its entry in [mapping.json]. *)
Theorem scan_after_a_pass_finds_no_orphan (cfg : config) (o : oracle)
    (folderName : string) (w : world) (r : folderResult) (p : pass) (w' : world) :
  processFolder cfg o folderName w = Normal (r, p, w') →
  documents w folderName ≠ [] →
  fingerprints_faithful w folderName →
  snd (FixMissingImages.scanForMissingImages w' (join OUTPUT_DIR folderName)) = [].
Proof.
  intros Hrun Hdocs Hfaithful.
  destruct (processFolder_end cfg o folderName w r p w' Hrun Hdocs) as (_ & Htotal & _).
  assert (Hne : f_total r ≠ 0).
  { rewrite Htotal. by destruct (documents w folderName). }
  destruct (processFolder_normal cfg o folderName w r p w' Hrun Hne)
    as (Habsent & Hp & Hmapping & _).
  destruct (pass_used_mapped cfg o folderName w Hfaithful Habsent) as (Hused & _).
  rewrite <- Hp in Hused.
  unfold FixMissingImages.scanForMissingImages. simpl.
  assert (Hexists : existsSync w' (join (join OUTPUT_DIR folderName) "mapping.json") = true).
  { apply existsSync_is_Some. unfold readMapping in Hmapping.
    destruct (files w' !! _) as [c|]; [eauto|done]. }
  rewrite Hexists, Hmapping. rewrite filter_none; [done|].
  intros name Hname.
  apply readdirSync_plain in Hname as [Hplain Hsome].
  assert (Hin : name ∈ usedImageFiles p).
  { destruct (decide (name ∈ usedImageFiles p)) as [|Hunused]; [done|]. exfalso.
    rewrite (unused_image_is_deleted cfg o folderName w r p w' name Hrun Hdocs
               Hplain Hunused) in Hsome.
    by destruct Hsome. }
  rewrite bool_decide_eq_true_2; [done|].
  rewrite cleanedMapping_lookup. rewrite decide_True by (by right). by apply Hused.
Qed.

Lemma scan_after_a_pass_finds_no_orphan_witness :
  (processFolder defaultConfig Scenarios.online "book" Cases.images_from_before
   = Normal (Cases.pass_over_images.1.1, Cases.pass_over_images.1.2,
             Cases.pass_over_images.2)
   ∧ documents Cases.images_from_before "book" ≠ [])
  ∧ snd (FixMissingImages.scanForMissingImages Cases.pass_over_images.2
           (join OUTPUT_DIR "book")) = [].
Proof.
  destruct pass_over_images_run as [H1 H2].
  split; [exact (conj H1 H2)|].
  apply (scan_after_a_pass_finds_no_orphan defaultConfig Scenarios.online "book"
           Cases.images_from_before _ _ _ H1 H2).
  intros f1 f2 c1 c2 Hf1 Hf2. vm_compute in Hf1, Hf2.
  apply list_elem_of_singleton in Hf1, Hf2. subst f1 f2.
  intros Hc1 Hc2 _. vm_compute in Hc1, Hc2. congruence.
Defined.

(** ** The names of the chapter files *)

Lemma every_app (f : ascii → bool) (a b : string) :
  every f (a +:+ b) = every f a && every f b.
Proof. induction a as [|c a IH]; simpl; [done|]. by rewrite IH, andb_assoc. Qed.

Lemma replacement_spec (c : ascii) :
  (reserved c = true
   ∧ String.length (FileNames.replacement c) = 3
   ∧ every (fun d => negb (reserved d)) (FileNames.replacement c) = true)
  ∨ (reserved c = false ∧ FileNames.replacement c = str1 c).
Proof.
  destruct c as [[] [] [] [] [] [] [] []];
    first [left; split; [reflexivity|split; reflexivity]|right; split; reflexivity].
Qed.

Lemma every_impl (f g : ascii → bool) (s : string) :
  (∀ c, f c = true → g c = true) → every f s = true → every g s = true.
Proof.
  intros Hfg. induction s as [|c s IH]; simpl; [done|].
  intros H. apply andb_true_iff in H as [Hc Hs]. by rewrite (Hfg c Hc), IH.
Qed.

Lemma replaceFileName_clean (fileName : string) :
  every (fun c => negb (reserved c)) (FileNames.replaceFileName fileName) = true.
Proof.
  induction fileName as [|c rest IH]; simpl; [done|].
  rewrite every_app, IH, andb_true_r.
  destruct (replacement_spec c) as [(_ & _ & H)|[Hc ->]]; [done|].
  simpl. by rewrite Hc.
Qed.

Lemma replaceFileName_id (fileName : string) :
  every (fun c => negb (reserved c)) fileName = true →
  FileNames.replaceFileName fileName = fileName.
Proof.
  induction fileName as [|c x IH]; simpl; [done|].
  intros H. apply andb_true_iff in H as [Hc Hx]. apply negb_true_iff in Hc.
  destruct (replacement_spec c) as [(Hr & _)|[_ ->]]; [congruence|].
  simpl. by rewrite IH.
Qed.

(** X17.  A name returned by [replaceFileName] holds none of the nine
    characters that the function replaces; in particular it holds no [/],
    so it names a file directly under the folder of the book. *)
Theorem replaceFileName_leaves_no_reserved_character (fileName : string) :
  every (fun c => negb (reserved c)) (FileNames.replaceFileName fileName) = true
  ∧ includes "/" (FileNames.replaceFileName fileName) = false.
Proof.
  split; [apply replaceFileName_clean|].
  apply (every_not_includes "/"), (every_impl (fun c => negb (reserved c))).
  - intros c Hc. destruct (is_char c "/") eqn:E; [|done].
    apply Ascii.eqb_eq in E. subst c. vm_compute in Hc. discriminate.
  - apply replaceFileName_clean.
Qed.

(** X18.  [replaceFileName] works character by character: the name of a
    concatenation is the concatenation of the names, a name without any of
    the nine characters is returned as it is, and replacing twice is
    replacing once. *)
Theorem replaceFileName_composes (a b : string) :
  FileNames.replaceFileName (a +:+ b)
  = FileNames.replaceFileName a +:+ FileNames.replaceFileName b
  ∧ (every (fun c => negb (reserved c)) a = true → FileNames.replaceFileName a = a)
  ∧ FileNames.replaceFileName (FileNames.replaceFileName a) = FileNames.replaceFileName a.
Proof.
  split; [|split; [apply replaceFileName_id|apply replaceFileName_id, replaceFileName_clean]].
  induction a as [|c x IH]; simpl; [done|]. by rewrite IH, append_assoc.
Qed.

Lemma replaceFileName_composes_witness :
  every (fun c => negb (reserved c)) "1.Introduction.md" = true
  ∧ FileNames.replaceFileName ("a/b" +:+ "?.md")
    = FileNames.replaceFileName "a/b" +:+ FileNames.replaceFileName "?.md"
  ∧ FileNames.replaceFileName "1.Introduction.md" = "1.Introduction.md".
Proof.
  assert (H : every (fun c => negb (reserved c)) "1.Introduction.md" = true)
    by reflexivity.
  split; [exact H|]. split.
  - exact (proj1 (replaceFileName_composes "a/b" "?.md")).
  - exact (proj1 (proj2 (replaceFileName_composes "1.Introduction.md" EmptyString)) H).
Defined.

(** ** Requests that are tried again *)

Lemma loop_retried {A} (requestFn : nat → completion A) (maxRetries retryDelay : nat)
    (remaining attempt : nat) (lastError : option string) (s : Retry.state) :
  attempt + remaining = S maxRetries → 0 < attempt →
  (remaining = 0 → lastError = None) →
  ∃ n, n ≤ remaining
       ∧ (n = 0 → remaining = 0)
       ∧ retried requestFn maxRetries retryDelay attempt lastError s
           (fst (Retry.loop requestFn maxRetries retryDelay attempt remaining lastError s))
           (snd (Retry.loop requestFn maxRetries retryDelay attempt remaining lastError s))
           n.
Proof.
  revert attempt lastError s.
  induction remaining as [|rest IH]; intros attempt lastError s Hsum Hpos Hlast; simpl.
  { rewrite (Hlast eq_refl). exists 0. split; [done|]. split; [done|].
    unfold retried. simpl. rewrite Nat.mul_0_r, !Nat.add_0_r.
    split; [done|]. split; [done|]. split; [intros j Hj; lia|done]. }
  assert (Hone : ∀ e,
            match e with
            | Retry.Returned a => requestFn (Retry.calls s) = Normal a
            | Retry.Thrown (Some error) =>
                attempt = maxRetries ∧ requestFn (Retry.calls s) = Throw error
            | Retry.Thrown None => False
            end →
            retried requestFn maxRetries retryDelay attempt lastError s e
              {| Retry.calls := S (Retry.calls s); Retry.waited := Retry.waited s |} 1).
  { intros e He. unfold retried. simpl. rewrite Nat.mul_0_r, !Nat.add_0_r.
    split; [lia|]. split; [done|]. split; [intros j Hj; lia|].
    destruct e as [a|[err|]]; [split; [lia|done]| |done].
    destruct He as [-> He]. split; [lia|]. split; [lia|done]. }
  destruct (requestFn (Retry.calls s)) as [a|error] eqn:Hcall; simpl.
  { exists 1. split; [lia|]. split; [lia|]. by apply (Hone (Retry.Returned a)). }
  destruct (attempt =? maxRetries) eqn:Hmax; simpl.
  { apply Nat.eqb_eq in Hmax. exists 1. split; [lia|]. split; [lia|].
    by apply (Hone (Retry.Thrown (Some error))). }
  apply Nat.eqb_neq in Hmax. clear Hone.
  destruct (IH (S attempt) (Some error)
              {| Retry.calls := S (Retry.calls s);
                 Retry.waited := Retry.waited s + retryDelay * attempt |})
    as (n & Hn & Hzero & Hcalls & Hwait & Hfail & Hend); [lia|lia|intros ->; lia|].
  simpl in Hcalls, Hwait, Hfail, Hend.
  destruct (Retry.loop _ _ _ _ _ _ _) as [e s']. simpl in *.
  assert (Hn0 : 0 < n).
  { destruct e as [a|[err|]]; [by destruct Hend|by destruct Hend|by destruct Hend]. }
  exists (S n). split; [lia|]. split; [lia|]. unfold retried.
  split; [lia|]. split.
  { rewrite Hwait. replace (S n - 1) with (S (n - 1)) by lia. simpl. lia. }
  split.
  { intros j Hj. destruct j as [|j].
    - rewrite Nat.add_0_r. eauto.
    - destruct (Hfail j) as [err Herr]; [lia|]. exists err. rewrite <- Herr. f_equal. lia. }
  replace (Retry.calls s + (S n - 1)) with (S (Retry.calls s) + (n - 1)) by lia.
  destruct e as [a|[err|]].
  - destruct Hend as [_ Hend]. split; [lia|done].
  - destruct Hend as (_ & Hend1 & Hend2). split; [lia|]. split; [lia|done].
  - destruct Hend as [-> _]. lia.
Qed.

(** X19.  [requestWithRetry] calls [requestFn] until a call succeeds, at
    most [maxRetries] times: all the calls before the last one threw.  It
    waits [retryDelay * k] after the [k]-th failure when another call
    follows.  It returns the value of the first call that succeeds, throws
    the error of the last call when [maxRetries] calls have failed, and
    throws [undefined] without a call when [maxRetries] is [0]. *)
Theorem requestWithRetry_stops_at_the_first_success {A}
    (requestFn : nat → completion A) (maxRetries retryDelay : nat) (s : Retry.state) :
  let '(e, s') := Retry.requestWithRetry requestFn maxRetries retryDelay s in
  ∃ n, n ≤ maxRetries
       ∧ Retry.calls s' = Retry.calls s + n
       ∧ Retry.waited s' = Retry.waited s + retryDelay * sum_from 1 (n - 1)
       ∧ (∀ j, j + 1 < n → ∃ error, requestFn (Retry.calls s + j) = Throw error)
       ∧ match e with
         | Retry.Returned a => 0 < n ∧ requestFn (Retry.calls s + (n - 1)) = Normal a
         | Retry.Thrown (Some error) =>
             n = maxRetries ∧ 0 < n ∧ requestFn (Retry.calls s + (n - 1)) = Throw error
         | Retry.Thrown None => n = 0 ∧ maxRetries = 0
         end.
Proof.
  unfold Retry.requestWithRetry.
  destruct (loop_retried requestFn maxRetries retryDelay maxRetries 1 None s)
    as (n & Hn & Hzero & Hcalls & Hwait & Hfail & Hend); [lia|lia|done|].
  destruct (Retry.loop _ _ _ _ _ _ _) as [e s']. simpl in *.
  exists n. repeat (split; [done|]).
  destruct e as [a|[err|]]; [done| |].
  - destruct Hend as (H1 & H2 & H3). split; [lia|]. split; [done|done].
  - destruct Hend as [-> _]. split; [done|]. by apply Hzero.
Qed.

(** ** Chapters that are already on disk *)

(** X20.  [shouldDownloadFile] asks for no download of the content that has
    just been written to the path, and asks for one once the file has been
    removed; for a path that holds a text it asks for no download exactly
    when the SHA-256 fingerprints of that text and of the new content are
    equal. *)
Theorem shouldDownloadFile_skips_what_it_wrote (w : world) (filePath content : string) :
  BatchDownload.shouldDownloadFile (writeFileSync filePath (Text content) w)
    filePath content
  = {| BatchDownload.shouldDownload := false; BatchDownload.why := BatchDownload.contentSame |}
  ∧ BatchDownload.shouldDownloadFile (unlinkSync filePath w) filePath content
    = {| BatchDownload.shouldDownload := true;
         BatchDownload.why := BatchDownload.fileMissing |}
  ∧ (∀ existing, readText w filePath = Some existing →
       (BatchDownload.shouldDownload
          (BatchDownload.shouldDownloadFile w filePath content) = false
        ↔ calculateFileHash existing = calculateFileHash content)).
Proof.
  unfold BatchDownload.shouldDownloadFile, existsSync, readText. split; [|split].
  - simpl. rewrite lookup_insert_eq. rewrite bool_decide_eq_true_2 by eauto. simpl.
    by rewrite String.eqb_refl.
  - simpl. rewrite lookup_delete_eq. rewrite bool_decide_eq_false_2; [done|].
    by intros [? ?].
  - intros existing Hread. destruct (files w !! filePath) as [[text| |]|] eqn:E;
      [|done|done|done]. injection Hread as ->.
    rewrite bool_decide_eq_true_2 by eauto. simpl.
    destruct (String.eqb _ _) eqn:Heq; simpl.
    + apply String.eqb_eq in Heq. done.
    + apply String.eqb_neq in Heq. done.
Qed.

(** ** The chapters of a book *)

Lemma pretty_go_digits (x : N) (s : string) :
  every digit s = true → every digit (pretty_N_go x s) = true.
Proof.
  revert s. induction (N.lt_wf_0 x) as [x _ IH]. intros s Hs.
  destruct (decide (x = 0%N)) as [->|Hx]; [by rewrite pretty_N_go_0|].
  rewrite pretty_N_go_step by lia. apply IH; [apply N.div_lt; lia|].
  cbn [every]. rewrite Hs, andb_true_r.
  unfold pretty_N_char. by repeat case_match.
Qed.

Lemma pretty_digits (n : nat) : every digit (pretty n) = true.
Proof.
  unfold pretty, pretty_nat, pretty, pretty_N.
  case_decide; [reflexivity|]. by apply pretty_go_digits.
Qed.

Lemma digits_dot_inj (d1 d2 a b : string) :
  every digit d1 = true → every digit d2 = true →
  d1 +:+ "." +:+ a = d2 +:+ "." +:+ b → d1 = d2.
Proof.
  revert d2. induction d1 as [|c d1 IH]; intros [|c2 d2]; cbn [every String.append].
  - done.
  - intros _ H2 [= <- _]. done.
  - intros H1 _ [= -> _]. done.
  - intros [_ H1]%andb_true_iff [_ H2]%andb_true_iff [= -> H]. f_equal. by apply IH.
Qed.

Lemma sectionPath_index (bookName : string) (x y : Api.section) :
  BatchDownload.sectionPath bookName x = BatchDownload.sectionPath bookName y →
  Api.index x = Api.index y.
Proof.
  unfold BatchDownload.sectionPath. intros H.
  apply append_inv_head in H. apply (append_inv_head "/") in H.
  apply digits_dot_inj in H; [|apply pretty_digits..].
  by apply (inj pretty) in H.
Qed.

Lemma NoDup_fmap_through {A B C} (f : A → B) (g : A → C) (l : list A) :
  (∀ x y, g x = g y → f x = f y) → NoDup (f <$> l) → NoDup (g <$> l).
Proof.
  intros Hfg. induction l as [|x l IH]; cbn [fmap list_fmap]; [constructor|].
  rewrite !NoDup_cons. intros [Hx Hl]. split; [|by apply IH].
  intros (y & Hy & Hin)%list_elem_of_fmap. apply Hx.
  apply list_elem_of_fmap. exists y. split; [by apply Hfg|done].
Qed.

Lemma imap_index {A} (f : nat → A → Api.section) (k : nat) (l : list A) :
  (∀ i a, Api.index (f i a) = i + k) →
  Api.index <$> imap f l = seq k (length l).
Proof.
  revert f k. induction l as [|a l IH]; intros f k Hf; [done|].
  cbn [imap fmap list_fmap length seq]. f_equal; [apply (Hf 0)|].
  apply IH. intros i b. unfold compose. rewrite Hf. lia.
Qed.

(** The sections that [getBookInfo] returns are numbered from one, so
    their files differ. *)
Lemma getBookInfo_indexes (cfg : config) (o : Api.api) (bookId : string)
    (s s1 : Retry.state) (bookName : string) (sections : list Api.section) :
  Api.getBookInfo cfg o bookId s = (Normal (bookName, sections), s1) →
  NoDup (Api.index <$> sections).
Proof.
  unfold Api.getBookInfo. intros H.
  destruct (Retry.requestWithRetry _ _ _ _) as [[[data|]|error] s'];
    [|done|by destruct error].
  injection H as _ <- _.
  rewrite (imap_index _ 1); [apply NoDup_seq|]. intros i a. reflexivity.
Qed.

Lemma getBookInfo_paths (cfg : config) (o : Api.api) (bookId : string)
    (s s1 : Retry.state) (bookName : string) (sections : list Api.section) (b : string) :
  Api.getBookInfo cfg o bookId s = (Normal (bookName, sections), s1) →
  NoDup (BatchDownload.sectionPath b <$> sections).
Proof.
  intros H. apply (NoDup_fmap_through Api.index); [apply sectionPath_index|].
  by eapply getBookInfo_indexes.
Qed.

Lemma NoDup_fmap_filter {A B} (f : A → B) (P : A → bool) (l : list A) :
  NoDup (f <$> l) → NoDup (f <$> List.filter P l).
Proof.
  induction l as [|x l IH]; cbn [fmap list_fmap List.filter]; [done|].
  rewrite NoDup_cons. intros [Hx Hl]. destruct (P x); [|by apply IH].
  cbn [fmap list_fmap]. apply NoDup_cons. split; [|by apply IH].
  intros (y & Hy & Hin)%list_elem_of_fmap. apply Hx.
  apply list_elem_of_fmap. exists y. split; [done|].
  apply list_elem_of_In in Hin. apply filter_In in Hin as [Hin _].
  by apply list_elem_of_In.
Qed.

Lemma loop_steady {A} (requestFn : nat → completion A) (maxRetries retryDelay : nat)
    (remaining attempt : nat) (lastError : option string) (s : Retry.state) :
  (∀ n m, requestFn n = requestFn m) →
  attempt + remaining = maxRetries + 1 → 0 < remaining →
  fst (Retry.loop requestFn maxRetries retryDelay attempt remaining lastError s)
  = match requestFn 0 with
    | Normal a => Retry.Returned a
    | Throw error => Retry.Thrown (Some error)
    end.
Proof.
  intros Hsteady. revert attempt lastError s.
  induction remaining as [|rest IH]; intros attempt lastError s Hsum Hpos; [lia|].
  cbn [Retry.loop]. rewrite (Hsteady (Retry.calls s) 0).
  destruct (requestFn 0) as [a|error]; [done|].
  destruct (attempt =? maxRetries) eqn:E; [done|].
  apply Nat.eqb_neq in E. by rewrite IH by lia.
Qed.

Lemma requestWithRetry_steady {A} (requestFn : nat → completion A)
    (maxRetries retryDelay : nat) (s : Retry.state) :
  (∀ n m, requestFn n = requestFn m) →
  fst (Retry.requestWithRetry requestFn maxRetries retryDelay s)
  = if maxRetries =? 0 then Retry.Thrown None
    else match requestFn 0 with
         | Normal a => Retry.Returned a
         | Throw error => Retry.Thrown (Some error)
         end.
Proof.
  intros Hsteady. unfold Retry.requestWithRetry.
  destruct maxRetries as [|k]; [done|].
  rewrite loop_steady by (done || lia). done.
Qed.

Lemma getSection_steady (cfg : config) (o : Api.api) (sectionId : string)
    (s : Retry.state) :
  steady o →
  match fst (Api.getSection cfg o sectionId s) with
  | Normal info => chapter cfg o sectionId = Some (Api.content info)
  | Throw _ => chapter cfg o sectionId = None
  end.
Proof.
  intros Hsteady. unfold Api.getSection, chapter.
  pose proof (requestWithRetry_steady (λ n, Api.section_get o n sectionId)
                (retryCount cfg) Api.RETRY_DELAY s) as H.
  destruct (Retry.requestWithRetry _ _ _ _) as [e s']. cbn [fst] in H.
  rewrite H by (intros n m; apply Hsteady). clear H.
  destruct (retryCount cfg =? 0); [done|].
  by destruct (Api.section_get o 0 sectionId) as [[data|]|error].
Qed.

Lemma getBookInfo_steady (cfg : config) (o : Api.api) (bookId : string)
    (s s' : Retry.state) :
  steady o →
  fst (Api.getBookInfo cfg o bookId s) = fst (Api.getBookInfo cfg o bookId s').
Proof.
  intros Hsteady. unfold Api.getBookInfo.
  pose proof (requestWithRetry_steady (λ n, Api.booklet_get o n bookId)
                (retryCount cfg) Api.RETRY_DELAY s) as H.
  pose proof (requestWithRetry_steady (λ n, Api.booklet_get o n bookId)
                (retryCount cfg) Api.RETRY_DELAY s') as H'.
  destruct (Retry.requestWithRetry _ _ _ s) as [e s1].
  destruct (Retry.requestWithRetry _ _ _ s') as [e' s1'].
  cbn [fst] in H, H'.
  rewrite H, H' by (intros n m; apply Hsteady).
  destruct (retryCount cfg =? 0); [done|].
  by destruct (Api.booklet_get o 0 bookId) as [[data|]|error].
Qed.

Lemma shouldDownloadFile_skips (w : world) (filePath content : string) :
  BatchDownload.shouldDownload (BatchDownload.shouldDownloadFile w filePath content) = false
  ↔ ∃ text, readText w filePath = Some text
            ∧ calculateFileHash text = calculateFileHash content.
Proof.
  unfold BatchDownload.shouldDownloadFile, existsSync, readText.
  destruct (files w !! filePath) as [[text| |]|] eqn:E.
  - rewrite bool_decide_eq_true_2 by eauto. cbn [negb].
    destruct (String.eqb _ _) eqn:Heq; cbn [negb BatchDownload.shouldDownload].
    + apply String.eqb_eq in Heq. split; [eauto|done].
    + apply String.eqb_neq in Heq. split; [done|]. by intros (t & [= <-] & H).
  - rewrite bool_decide_eq_true_2 by eauto. cbn [negb BatchDownload.shouldDownload].
    split; [done|]. by intros (t & ? & _).
  - rewrite bool_decide_eq_true_2 by eauto. cbn [negb BatchDownload.shouldDownload].
    split; [done|]. by intros (t & ? & _).
  - rewrite bool_decide_eq_false_2 by (by intros [? ?]).
    cbn [negb BatchDownload.shouldDownload]. split; [done|]. by intros (t & ? & _).
Qed.

(** One turn of the loop of [downloadBook], whatever the API answers: the
    world is as it was or the file of the section has been written, and
    one counter at most has moved with [downloadedCount]. *)
Lemma downloadSection_counts (cfg : config) (o : Api.api) (bookName : string)
    (l : BatchDownload.locals) (x : Api.section) :
  let l' := BatchDownload.downloadSection cfg o bookName l x in
  (BatchDownload.l_world l' = BatchDownload.l_world l
   ∨ ∃ c, BatchDownload.l_world l'
          = writeFileSync (BatchDownload.sectionPath bookName x) (Text c)
              (BatchDownload.l_world l))
  ∧ BatchDownload.l_downloadedCount l' + BatchDownload.l_skippedCount l'
    ≤ S (BatchDownload.l_downloadedCount l + BatchDownload.l_skippedCount l)
  ∧ BatchDownload.l_downloadedCount l ≤ BatchDownload.l_downloadedCount l'
  ∧ BatchDownload.l_skippedCount l ≤ BatchDownload.l_skippedCount l'
  ∧ BatchDownload.l_updatedCount l ≤ BatchDownload.l_updatedCount l'
  ∧ BatchDownload.l_updatedCount l' + BatchDownload.l_downloadedCount l
    ≤ BatchDownload.l_updatedCount l + BatchDownload.l_downloadedCount l'.
Proof.
  unfold BatchDownload.downloadSection.
  destruct (Api.getSection _ _ _ _) as [[info|error] s]; cbn zeta.
  - destruct (negb _); cbn.
    + split; [by left|lia].
    + split; [right; eauto|]. destruct (_ && _); lia.
  - cbn. split; [by left|lia].
Qed.

(** One turn of the loop with a steady API. *)
Lemma downloadSection_steady (cfg : config) (o : Api.api) (bookName : string)
    (l : BatchDownload.locals) (x : Api.section) :
  steady o →
  let l' := BatchDownload.downloadSection cfg o bookName l x in
  let path := BatchDownload.sectionPath bookName x in
  match chapter cfg o (Api.id x) with
  | None =>
      BatchDownload.l_world l' = BatchDownload.l_world l
      ∧ BatchDownload.l_downloadedCount l' = BatchDownload.l_downloadedCount l
      ∧ BatchDownload.l_skippedCount l' = BatchDownload.l_skippedCount l
      ∧ BatchDownload.l_updatedCount l' = BatchDownload.l_updatedCount l
  | Some c =>
      ((∃ text, readText (BatchDownload.l_world l) path = Some text
                ∧ calculateFileHash text = calculateFileHash c)
       ∧ BatchDownload.l_world l' = BatchDownload.l_world l
       ∧ BatchDownload.l_downloadedCount l' = BatchDownload.l_downloadedCount l
       ∧ BatchDownload.l_skippedCount l' = S (BatchDownload.l_skippedCount l)
       ∧ BatchDownload.l_updatedCount l' = BatchDownload.l_updatedCount l)
      ∨ (BatchDownload.l_world l'
         = writeFileSync path (Text c) (BatchDownload.l_world l)
         ∧ BatchDownload.l_downloadedCount l' = S (BatchDownload.l_downloadedCount l)
         ∧ BatchDownload.l_skippedCount l' = BatchDownload.l_skippedCount l
         ∧ ¬ ∃ text, readText (BatchDownload.l_world l) path = Some text
                     ∧ calculateFileHash text = calculateFileHash c)
  end.
Proof.
  intros Hsteady. cbn zeta. unfold BatchDownload.downloadSection.
  pose proof (getSection_steady cfg o (Api.id x) (BatchDownload.l_requests l) Hsteady) as H.
  destruct (Api.getSection _ _ _ _) as [[info|error] s]; cbn [fst] in H; rewrite H.
  - cbn zeta.
    destruct (BatchDownload.shouldDownload _) eqn:E; cbn [negb].
    + right. cbn. repeat (split; [done|]).
      intros Hfile%shouldDownloadFile_skips. by rewrite Hfile in E.
    + left. apply shouldDownloadFile_skips in E. cbn. done.
  - cbn. done.
Qed.

Lemma up_to_date_ext (cfg : config) (o : Api.api) (bookName : string) (w w' : world)
    (x : Api.section) :
  files w' !! BatchDownload.sectionPath bookName x
  = files w !! BatchDownload.sectionPath bookName x →
  up_to_date cfg o bookName w x → up_to_date cfg o bookName w' x.
Proof.
  intros Hsame H c Hc. destruct (H c Hc) as (text & Hread & Hhash).
  exists text. split; [|done]. unfold readText in *. by rewrite Hsame.
Qed.

(** The loop of [downloadBook], whatever the API answers. *)
Lemma downloadSections_counts (cfg : config) (o : Api.api) (bookName : string)
    (secs : list Api.section) (l : BatchDownload.locals) :
  let l' := fold_left (BatchDownload.downloadSection cfg o bookName) secs l in
  (∀ q, is_Some (files (BatchDownload.l_world l) !! q) →
        is_Some (files (BatchDownload.l_world l') !! q))
  ∧ BatchDownload.l_downloadedCount l' + BatchDownload.l_skippedCount l'
    ≤ BatchDownload.l_downloadedCount l + BatchDownload.l_skippedCount l + length secs
  ∧ BatchDownload.l_updatedCount l' + BatchDownload.l_downloadedCount l
    ≤ BatchDownload.l_updatedCount l + BatchDownload.l_downloadedCount l'.
Proof.
  revert l. induction secs as [|x secs IH]; intros l; cbn [fold_left length].
  - cbn zeta. split; [done|lia].
  - specialize (IH (BatchDownload.downloadSection cfg o bookName l x)).
    destruct (downloadSection_counts cfg o bookName l x) as (Hw & H1 & H2 & H3 & H4 & H5).
    cbn zeta in *. destruct IH as (IHw & IH1 & IH2).
    split; [|lia]. intros q Hq. apply IHw.
    destruct Hw as [->|[c ->]]; [done|]. cbn [files writeFileSync].
    destruct (decide (q = BatchDownload.sectionPath bookName x)) as [->|Hne].
    + rewrite lookup_insert_eq. eauto.
    + by rewrite lookup_insert_ne.
Qed.

(** The loop of [downloadBook] with a steady API, over sections whose
    files differ: afterwards the file of every section is up to date, no
    other file has changed, and every section for which the API gives a
    text has been counted once, as downloaded or as skipped. *)
Lemma downloadSections_steady (cfg : config) (o : Api.api) (bookName : string)
    (secs : list Api.section) (l : BatchDownload.locals) :
  steady o →
  NoDup (BatchDownload.sectionPath bookName <$> secs) →
  let l' := fold_left (BatchDownload.downloadSection cfg o bookName) secs l in
  (∀ x, x ∈ secs → up_to_date cfg o bookName (BatchDownload.l_world l') x)
  ∧ (∀ q, (∀ x, x ∈ secs → available cfg o x = true →
                q ≠ BatchDownload.sectionPath bookName x) →
          files (BatchDownload.l_world l') !! q = files (BatchDownload.l_world l) !! q)
  ∧ BatchDownload.l_downloadedCount l' + BatchDownload.l_skippedCount l'
    = BatchDownload.l_downloadedCount l + BatchDownload.l_skippedCount l
      + length (List.filter (available cfg o) secs).
Proof.
  intros Hsteady. revert l.
  induction secs as [|x secs IH]; intros l Hdup; cbn [fold_left].
  { cbn zeta. split; [by intros x Hx%elem_of_nil|]. split; [done|]. cbn. lia. }
  cbn [fmap list_fmap] in Hdup. apply NoDup_cons in Hdup as [Hx Hdup].
  specialize (IH (BatchDownload.downloadSection cfg o bookName l x) Hdup).
  cbn zeta in *. destruct IH as (IHup & IHframe & IHcount).
  pose proof (downloadSection_steady cfg o bookName l x Hsteady) as Hstep.
  cbn zeta in Hstep.
  assert (Hrest : files (BatchDownload.l_world
                           (fold_left (BatchDownload.downloadSection cfg o bookName) secs
                              (BatchDownload.downloadSection cfg o bookName l x)))
                  !! BatchDownload.sectionPath bookName x
                  = files (BatchDownload.l_world
                             (BatchDownload.downloadSection cfg o bookName l x))
                    !! BatchDownload.sectionPath bookName x).
  { apply IHframe. intros y Hy _ Heq. apply Hx. apply list_elem_of_fmap. eauto. }
  cbn [List.filter]. unfold available at 2.
  destruct (chapter cfg o (Api.id x)) as [c|] eqn:Hc.
  - rewrite bool_decide_eq_true_2 by eauto. cbn [length].
    split; [|split].
    + intros y [->|Hy]%elem_of_cons; [|by apply IHup].
      eapply up_to_date_ext; [exact Hrest|].
      intros c' Hc'. rewrite Hc in Hc'. injection Hc' as <-.
      destruct Hstep as [(Hfile & -> & _)|(-> & _)]; [done|].
      exists c. split; [|done]. unfold readText. cbn [files writeFileSync].
      by rewrite lookup_insert_eq.
    + intros q Hq. rewrite IHframe by (intros y Hy; apply Hq; by right).
      destruct Hstep as [(_ & -> & _)|(-> & _)]; [done|].
      cbn [files writeFileSync]. rewrite lookup_insert_ne; [done|].
      intros <-. eapply Hq; [by left| |done].
      unfold available. rewrite Hc. by apply bool_decide_eq_true_2.
    + destruct Hstep as [(_ & _ & H1 & H2 & _)|(_ & H1 & H2 & _)]; lia.
  - rewrite bool_decide_eq_false_2 by (by intros [? ?]).
    destruct Hstep as (Hw & H1 & H2 & _).
    split; [|split].
    + intros y [->|Hy]%elem_of_cons; [|by apply IHup].
      intros c' Hc'. by rewrite Hc in Hc'.
    + intros q Hq. rewrite IHframe by (intros y Hy; apply Hq; by right).
      by rewrite Hw.
    + lia.
Qed.

(** The loop of [downloadBook] with a steady API when the file of every
    section is up to date: nothing is written, every section for which
    the API gives a text is counted as skipped. *)
Lemma downloadSections_again (cfg : config) (o : Api.api) (bookName : string)
    (secs : list Api.section) (l : BatchDownload.locals) :
  steady o →
  (∀ x, x ∈ secs → up_to_date cfg o bookName (BatchDownload.l_world l) x) →
  let l' := fold_left (BatchDownload.downloadSection cfg o bookName) secs l in
  BatchDownload.l_world l' = BatchDownload.l_world l
  ∧ BatchDownload.l_downloadedCount l' = BatchDownload.l_downloadedCount l
  ∧ BatchDownload.l_updatedCount l' = BatchDownload.l_updatedCount l
  ∧ BatchDownload.l_skippedCount l'
    = BatchDownload.l_skippedCount l + length (List.filter (available cfg o) secs).
Proof.
  intros Hsteady. revert l.
  induction secs as [|x secs IH]; intros l Hup; cbn [fold_left].
  { cbn. repeat split; lia. }
  pose proof (downloadSection_steady cfg o bookName l x Hsteady) as Hstep.
  cbn zeta in Hstep.
  cbn [List.filter]. unfold available at 1.
  destruct (chapter cfg o (Api.id x)) as [c|] eqn:Hc.
  - rewrite bool_decide_eq_true_2 by eauto. cbn [length].
    destruct Hstep as [(_ & Hw & H1 & H2 & H3)|(Hw & H1 & H2)].
    + specialize (IH (BatchDownload.downloadSection cfg o bookName l x)).
      cbn zeta in IH. rewrite Hw, H1, H2, H3 in IH.
      destruct IH as (-> & -> & -> & ->); [intros y Hy; apply Hup; by right|].
      repeat split; lia.
    + destruct H2 as [_ Hnot]. destruct Hnot.
      apply (Hup x); [by left|done].
  - rewrite bool_decide_eq_false_2 by (by intros [? ?]).
    destruct Hstep as (Hw & H1 & H2 & H3).
    specialize (IH (BatchDownload.downloadSection cfg o bookName l x)).
    cbn zeta in IH. rewrite Hw, H1, H2, H3 in IH.
    destruct IH as (-> & -> & -> & ->); [intros y Hy; apply Hup; by right|].
    repeat split; lia.
Qed.

(** X21.  [downloadBook] deletes no file.  When it succeeds, the sections
    it counts as downloaded or skipped are at most the finished sections,
    and those it counts as updated are among the downloaded ones; when it
    fails, it names the book as its caller did and, log files apart, has
    written nothing. *)
Theorem downloadBook_counts (cfg : config) (o : Api.api) (book : Api.book)
    (w : world) (s : Retry.state) :
  let '(r, w', s') := BatchDownload.downloadBook cfg o book w s in
  (∀ q, is_Some (files w !! q) → is_Some (files w' !! q))
  ∧ match r with
    | BatchDownload.Success _ downloadedCount skippedCount updatedCount totalSections =>
        downloadedCount + skippedCount ≤ totalSections
        ∧ updatedCount ≤ downloadedCount
    | BatchDownload.Failure bookName _ =>
        bookName = Api.name book
        ∧ ∀ q, log_file q = false → files w' !! q = files w !! q
    end.
Proof.
  unfold BatchDownload.downloadBook.
  destruct (Api.getBookInfo _ _ _ _) as [[[bookName sections]|message] s1]; [|done].
  cbn zeta.
  destruct (downloadSections_counts cfg o bookName (List.filter BatchDownload.finished sections)
              {| BatchDownload.l_world := w; BatchDownload.l_requests := s1;
                 BatchDownload.l_downloadedCount := 0;
                 BatchDownload.l_skippedCount := 0;
                 BatchDownload.l_updatedCount := 0 |}) as (Hw & H1 & H2).
  cbn in Hw, H1, H2. split; [exact Hw|]. lia.
Qed.

(** X22.  With an API whose answers do not change, [downloadBook] on a
    book whose information is received succeeds and counts every finished
    section for which the API gives a text once, as downloaded or as
    skipped; afterwards the file of every finished section holds a text
    with the fingerprint of the text of the API, the file of a section
    still in progress is as it was, and so is every file that is neither
    the file of a section of the book nor a log file. *)
Theorem downloadBook_brings_chapters_up_to_date (cfg : config) (o : Api.api)
    (book : Api.book) (w : world) (s s1 : Retry.state) (bookName : string)
    (sections : list Api.section) :
  steady o →
  Api.getBookInfo cfg o (Api.value book) s = (Normal (bookName, sections), s1) →
  let '(r, w', _) := BatchDownload.downloadBook cfg o book w s in
  (∃ downloadedCount skippedCount updatedCount,
      r = BatchDownload.Success bookName downloadedCount skippedCount updatedCount
            (length (List.filter BatchDownload.finished sections))
      ∧ downloadedCount + skippedCount
        = length (List.filter (available cfg o)
                    (List.filter BatchDownload.finished sections)))
  ∧ (∀ x, x ∈ sections → BatchDownload.finished x = true →
          up_to_date cfg o bookName w' x)
  ∧ (∀ x, x ∈ sections → BatchDownload.finished x = false →
          files w' !! BatchDownload.sectionPath bookName x
          = files w !! BatchDownload.sectionPath bookName x)
  ∧ (∀ q, (∀ x, x ∈ sections → q ≠ BatchDownload.sectionPath bookName x) →
          log_file q = false →
          files w' !! q = files w !! q).
Proof.
  intros Hsteady Hinfo.
  pose proof (getBookInfo_paths cfg o _ s s1 bookName sections bookName Hinfo) as Hdup.
  unfold BatchDownload.downloadBook. rewrite Hinfo. cbn zeta.
  destruct (downloadSections_steady cfg o bookName
              (List.filter BatchDownload.finished sections)
              {| BatchDownload.l_world := w; BatchDownload.l_requests := s1;
                 BatchDownload.l_downloadedCount := 0;
                 BatchDownload.l_skippedCount := 0;
                 BatchDownload.l_updatedCount := 0 |} Hsteady)
    as (Hup & Hframe & Hcount); [by apply NoDup_fmap_filter|].
  cbn in Hup, Hframe, Hcount.
  split; [eauto 10|]. split; [|split].
  - intros x Hx Hfin. apply Hup.
    apply list_elem_of_In, filter_In. split; [by apply list_elem_of_In|done].
  - intros x Hx Hfin. apply Hframe. intros y Hy _ Heq.
    apply list_elem_of_In, filter_In in Hy as [Hy Hfiny]. apply list_elem_of_In in Hy.
    assert (x = y) as ->; [|congruence].
    apply list_elem_of_lookup in Hx as [i Hi]. apply list_elem_of_lookup in Hy as [j Hj].
    assert (i = j) as ->; [|congruence].
    apply (NoDup_lookup (BatchDownload.sectionPath bookName <$> sections) i j
             (BatchDownload.sectionPath bookName x) Hdup); rewrite list_lookup_fmap.
    + by rewrite Hi.
    + rewrite Hj. cbn. by rewrite Heq.
  - intros q Hq _. apply Hframe. intros y Hy _.
    apply list_elem_of_In, filter_In in Hy as [Hy _]. apply Hq. by apply list_elem_of_In.
Qed.

Lemma shelf_steady : steady Cases.shelf.
Proof. intros n m sectionId. split; reflexivity. Qed.

Lemma downloadBook_brings_chapters_up_to_date_witness :
  (steady Cases.shelf
   ∧ Api.getBookInfo defaultConfig Cases.shelf (Api.value Cases.the_book) Cases.no_request
     = (Normal ("Book",
                [{| Api.id := "s1"; Api.title := "What is a <div>?"; Api.status := 1;
                    Api.index := 1 |};
                 {| Api.id := "s2"; Api.title := "Draft"; Api.status := 0;
                    Api.index := 2 |};
                 {| Api.id := "s3"; Api.title := "The end"; Api.status := 1;
                    Api.index := 3 |}]),
        {| Retry.calls := 1; Retry.waited := 0 |}))
  ∧ up_to_date defaultConfig Cases.shelf "Book" Cases.first_download.1.2
      {| Api.id := "s1"; Api.title := "What is a <div>?"; Api.status := 1;
         Api.index := 1 |}.
Proof.
  assert (H1 := shelf_steady).
  assert (H2 : Api.getBookInfo defaultConfig Cases.shelf (Api.value Cases.the_book)
                 Cases.no_request
               = (Normal ("Book",
                          [{| Api.id := "s1"; Api.title := "What is a <div>?";
                              Api.status := 1; Api.index := 1 |};
                           {| Api.id := "s2"; Api.title := "Draft"; Api.status := 0;
                              Api.index := 2 |};
                           {| Api.id := "s3"; Api.title := "The end"; Api.status := 1;
                              Api.index := 3 |}]),
                  {| Retry.calls := 1; Retry.waited := 0 |}))
    by (vm_compute; reflexivity).
  split; [exact (conj H1 H2)|].
  pose proof (downloadBook_brings_chapters_up_to_date defaultConfig Cases.shelf
                Cases.the_book (Scenarios.world_of []) Cases.no_request _ _ _ H1 H2) as H.
  unfold Cases.first_download.
  destruct (BatchDownload.downloadBook _ _ _ _ _) as [[r w'] s'].
  destruct H as (_ & Hup & _). apply Hup; [by left|reflexivity].
Defined.

(** X23.  With an API whose answers do not change, [downloadBook] run
    again after it succeeded writes nothing, log files apart: no section
    is counted as downloaded or updated, and the sections it skips are
    those that the first run downloaded or skipped. *)
Theorem downloadBook_twice (cfg : config) (o : Api.api) (book : Api.book)
    (w w1 : world) (s s1 : Retry.state) (bookName : string)
    (downloadedCount skippedCount updatedCount totalSections : nat) :
  steady o →
  BatchDownload.downloadBook cfg o book w s
  = (BatchDownload.Success bookName downloadedCount skippedCount updatedCount
       totalSections, w1, s1) →
  let '(r, w2, _) := BatchDownload.downloadBook cfg o book w1 s1 in
  r = BatchDownload.Success bookName 0 (downloadedCount + skippedCount) 0 totalSections
  ∧ ∀ q, log_file q = false → files w2 !! q = files w1 !! q.
Proof.
  intros Hsteady Hrun. unfold BatchDownload.downloadBook in *.
  pose proof (getBookInfo_steady cfg o (Api.value book) s s1 Hsteady) as Hsame.
  destruct (Api.getBookInfo cfg o (Api.value book) s) as [[[name sections]|message] s0]
    eqn:Hinfo; [|done].
  destruct (Api.getBookInfo cfg o (Api.value book) s1) as [r2 s2] eqn:Hinfo2.
  cbn [fst] in Hsame. subst r2. cbn zeta in *.
  pose proof (getBookInfo_paths cfg o _ s s0 name sections name Hinfo) as Hdup.
  destruct (downloadSections_steady cfg o name
              (List.filter BatchDownload.finished sections)
              {| BatchDownload.l_world := w; BatchDownload.l_requests := s0;
                 BatchDownload.l_downloadedCount := 0;
                 BatchDownload.l_skippedCount := 0;
                 BatchDownload.l_updatedCount := 0 |} Hsteady)
    as (Hup & _ & Hcount); [by apply NoDup_fmap_filter|].
  injection Hrun as <- Hd Hk Hu <- Hw Hs.
  rewrite Hw in Hup. rewrite Hd, Hk in Hcount. cbn in Hup, Hcount.
  destruct (downloadSections_again cfg o name
              (List.filter BatchDownload.finished sections)
              {| BatchDownload.l_world := w1; BatchDownload.l_requests := s2;
                 BatchDownload.l_downloadedCount := 0;
                 BatchDownload.l_skippedCount := 0;
                 BatchDownload.l_updatedCount := 0 |} Hsteady Hup)
    as (H1 & H2 & H3 & H4).
  cbn in H1, H2, H3, H4. rewrite H1, H2, H3, H4, <- Hcount. done.
Qed.

Lemma downloadBook_twice_witness :
  (steady Cases.shelf
   ∧ BatchDownload.downloadBook defaultConfig Cases.shelf Cases.the_book
       (Scenarios.world_of []) Cases.no_request
     = (BatchDownload.Success "Book" 1 0 0 2,
        Cases.first_download.1.2, Cases.first_download.2))
  ∧ let '(r, w2, _) :=
      BatchDownload.downloadBook defaultConfig Cases.shelf Cases.the_book
        Cases.first_download.1.2 Cases.first_download.2 in
    r = BatchDownload.Success "Book" 0 (1 + 0) 0 2
    ∧ ∀ q, log_file q = false → files w2 !! q = files Cases.first_download.1.2 !! q.
Proof.
  assert (H1 := shelf_steady).
  assert (H2 : BatchDownload.downloadBook defaultConfig Cases.shelf Cases.the_book
                 (Scenarios.world_of []) Cases.no_request
               = (BatchDownload.Success "Book" 1 0 0 2,
                  Cases.first_download.1.2, Cases.first_download.2))
    by (vm_compute; reflexivity).
  split; [exact (conj H1 H2)|].
  exact (downloadBook_twice defaultConfig Cases.shelf Cases.the_book
           (Scenarios.world_of []) Cases.first_download.1.2 Cases.no_request
           Cases.first_download.2 "Book" 1 0 0 2 H1 H2).
Defined.

Lemma downloadBook_result (cfg : config) (o : Api.api) (book : Api.book)
    (w w' : world) (s s' : Retry.state) (r : BatchDownload.bookResult) :
  BatchDownload.downloadBook cfg o book w s = (r, w', s') →
  (∀ q, is_Some (files w !! q) → is_Some (files w' !! q))
  ∧ match r with
    | BatchDownload.Success _ downloadedCount _ updatedCount _ =>
        updatedCount ≤ downloadedCount
    | BatchDownload.Failure _ _ => w' = w
    end.
Proof.
  unfold BatchDownload.downloadBook.
  destruct (Api.getBookInfo _ _ _ _) as [[[bookName sections]|message] s1].
  - cbn zeta. intros [= <- <- <-].
    destruct (downloadSections_counts cfg o bookName
                (List.filter BatchDownload.finished sections)
                {| BatchDownload.l_world := w; BatchDownload.l_requests := s1;
                   BatchDownload.l_downloadedCount := 0;
                   BatchDownload.l_skippedCount := 0;
                   BatchDownload.l_updatedCount := 0 |}) as (Hw & _ & H2).
    cbn in Hw, H2. split; [exact Hw|lia].
  - by intros [= <- <- <-].
Qed.

Lemma mainLoop_counts (cfg : config) (o : Api.api) (requestDelay : nat)
    (books : list Api.book) (r : BatchDownload.run) :
  let r' := BatchDownload.mainLoop cfg o requestDelay books r in
  BatchDownload.success (BatchDownload.r_results r')
  + BatchDownload.failed (BatchDownload.r_results r')
  = BatchDownload.success (BatchDownload.r_results r)
    + BatchDownload.failed (BatchDownload.r_results r) + length books
  ∧ BatchDownload.skipped (BatchDownload.r_results r')
    = BatchDownload.skipped (BatchDownload.r_results r)
  ∧ BatchDownload.total (BatchDownload.r_results r')
    = BatchDownload.total (BatchDownload.r_results r)
  ∧ BatchDownload.totalUpdated (BatchDownload.r_results r')
    + BatchDownload.totalDownloaded (BatchDownload.r_results r)
    ≤ BatchDownload.totalUpdated (BatchDownload.r_results r)
      + BatchDownload.totalDownloaded (BatchDownload.r_results r')
  ∧ ∀ q, is_Some (files (BatchDownload.r_world r) !! q) →
         is_Some (files (BatchDownload.r_world r') !! q).
Proof.
  revert r. induction books as [|book rest IH]; intros r; cbn [BatchDownload.mainLoop length].
  { cbn zeta. repeat split; (lia || done). }
  specialize (IH (BatchDownload.mainStep cfg o requestDelay r book (bool_decide (rest = [])))).
  cbn zeta in *. destruct IH as (IH1 & IH2 & IH3 & IH4 & IH5).
  unfold BatchDownload.mainStep in *.
  destruct (BatchDownload.downloadBook cfg o book (BatchDownload.r_world r)
              (BatchDownload.r_requests r)) as [[result w'] s'] eqn:Hbook.
  apply downloadBook_result in Hbook as [Hw Hres].
  destruct result as [name d k u t|name e]; cbn in *.
  - repeat split; try lia. intros q Hq. by apply IH5, Hw.
  - repeat split; try lia. intros q Hq. by apply IH5, Hw.
Qed.

(** X24.  [main] of [batch-download.js] deletes no file.  In the
    statistics it prints, every book is counted once, as a success or as a
    failure, no book is ever counted as skipped, and the chapters updated
    are among the chapters downloaded; when the list of the books cannot
    be fetched it ends without writing any file, log files apart. *)
Theorem main_statistics (cfg : config) (o : Api.api) (requestDelay : nat)
    (w : world) (s : Retry.state) :
  let '(r, w', s') := BatchDownload.main cfg o requestDelay w s in
  (∀ q, is_Some (files w !! q) → is_Some (files w' !! q))
  ∧ match r with
    | Normal res =>
        BatchDownload.success res + BatchDownload.failed res = BatchDownload.total res
        ∧ BatchDownload.skipped res = 0
        ∧ BatchDownload.totalUpdated res ≤ BatchDownload.totalDownloaded res
    | Throw _ => ∀ q, log_file q = false → files w' !! q = files w !! q
    end.
Proof.
  unfold BatchDownload.main.
  destruct (Api.getBooks cfg o s) as [[books|message] s1]; [|done].
  cbn zeta.
  destruct (mainLoop_counts cfg o requestDelay books
              {| BatchDownload.r_results :=
                   {| BatchDownload.total := length books; BatchDownload.success := 0;
                      BatchDownload.failed := 0; BatchDownload.skipped := 0;
                      BatchDownload.totalDownloaded := 0; BatchDownload.totalUpdated := 0;
                      BatchDownload.totalSkipped := 0 |};
                 BatchDownload.r_world := w; BatchDownload.r_requests := s1 |})
    as (H1 & H2 & H3 & H4 & H5).
  cbn in H1, H2, H3, H4, H5. split; [exact H5|]. lia.
Qed.

(** ** The chapters that main.js writes *)

Lemma getSection_answer (cfg : config) (o : Api.api) (sectionId : string)
    (s : Retry.state) :
  steady o →
  match fst (Api.getSection cfg o sectionId s) with
  | Normal info => answer cfg o sectionId = Some info
  | Throw _ => answer cfg o sectionId = None
  end.
Proof.
  intros Hsteady. unfold Api.getSection, answer.
  pose proof (requestWithRetry_steady (λ n, Api.section_get o n sectionId)
                (retryCount cfg) Api.RETRY_DELAY s) as H.
  destruct (Retry.requestWithRetry _ _ _ _) as [e s']. cbn [fst] in H.
  rewrite H by (intros n m; apply Hsteady). clear H.
  destruct (retryCount cfg =? 0); [done|].
  by destruct (Api.section_get o 0 sectionId) as [[data|]|error].
Qed.

Lemma Main_sectionPath_index (bookName : string) (x y : Api.section)
    (a b : Api.sectionInfo) :
  Main.sectionPath bookName x a = Main.sectionPath bookName y b →
  Api.index x = Api.index y.
Proof.
  unfold Main.sectionPath. intros H.
  apply append_inv_head in H. apply (append_inv_head "/") in H.
  apply digits_dot_inj in H; [|apply pretty_digits..].
  by apply (inj pretty) in H.
Qed.

(** The loop of [main.js] with a steady API, over sections whose numbers
    differ: it ends normally when the API gives a text for every section;
    the sections before the first one without text have their file, with
    the text of the API; no other file has changed. *)
Lemma writeSections_steady (cfg : config) (o : Api.api) (bookName : string)
    (secs : list Api.section) (w : world) (s : Retry.state) :
  steady o →
  NoDup (Api.index <$> secs) →
  let '(r, w', _) := Main.writeSections cfg o bookName secs w s in
  (r = Normal () ↔ Forall (λ y, is_Some (answer cfg o (Api.id y))) secs)
  ∧ (∀ i x, secs !! i = Some x →
            Forall (λ y, is_Some (answer cfg o (Api.id y))) (firstn (S i) secs) →
            ∃ info, answer cfg o (Api.id x) = Some info
                    ∧ files w' !! Main.sectionPath bookName x info
                      = Some (Text (Api.content info)))
  ∧ (∀ q, (∀ i x info, secs !! i = Some x →
                       Forall (λ y, is_Some (answer cfg o (Api.id y))) (firstn (S i) secs) →
                       answer cfg o (Api.id x) = Some info →
                       q ≠ Main.sectionPath bookName x info) →
          files w' !! q = files w !! q).
Proof.
  intros Hsteady. revert w s.
  induction secs as [|x secs IH]; intros w s Hdup; cbn [Main.writeSections].
  { split; [split; [constructor|done]|]. split; [|done]. by intros i x Hx. }
  cbn [fmap list_fmap] in Hdup. apply NoDup_cons in Hdup as [Hx Hdup].
  pose proof (getSection_answer cfg o (Api.id x) s Hsteady) as Hanswer.
  destruct (Api.getSection cfg o (Api.id x) s) as [[info|message] s1]; cbn [fst] in Hanswer.
  - specialize (IH (writeFileSync (Main.sectionPath bookName x info)
                      (Text (Api.content info)) w) s1 Hdup).
    destruct (Main.writeSections _ _ _ _ _ _) as [[r w'] s'].
    destruct IH as (IHr & IHfiles & IHframe).
    assert (Hhere : files w' !! Main.sectionPath bookName x info
                    = Some (Text (Api.content info))).
    { rewrite IHframe; [cbn [files writeFileSync]; by rewrite lookup_insert_eq|].
      intros i y info' Hy _ _ Heq. apply Main_sectionPath_index in Heq.
      apply Hx. rewrite Heq. apply list_elem_of_fmap. exists y. split; [done|].
      by eapply list_elem_of_lookup_2. }
    split; [|split].
    + rewrite Forall_cons, IHr. split; [|tauto]. intros H. split; [|done].
      rewrite Hanswer. eauto.
    + intros [|i] y Hy Hall.
      * injection Hy as <-. eauto.
      * cbn [firstn] in Hall. apply Forall_cons in Hall as [_ Hall]. by apply (IHfiles i).
    + intros q Hq. rewrite IHframe.
      * cbn [files writeFileSync]. rewrite lookup_insert_ne; [done|].
        intros <-. apply (Hq 0 x info); [done| |done |done].
        cbn [firstn]. apply Forall_cons. split; [|constructor]. rewrite Hanswer. eauto.
      * intros i y info' Hy Hall Hinfo. apply (Hq (S i) y info'); [done| |done].
        cbn [firstn]. apply Forall_cons. split; [|done]. rewrite Hanswer. eauto.
  - split; [|split].
    + split; [done|]. intros [Hsome _]%Forall_cons. rewrite Hanswer in Hsome.
      by destruct Hsome.
    + intros i y Hy Hall. destruct secs; cbn [firstn] in Hall;
        apply Forall_cons in Hall as [Hsome _]; rewrite Hanswer in Hsome;
        by destruct Hsome.
    + done.
Qed.

(** X25.  With an API whose answers do not change, [main] of [main.js],
    once it has the list of the books and the information of the book that
    the user chose, ends normally exactly when the API gives a text for
    every finished section.  It stops at the first finished section without
    text: the finished sections before it have their file, with the text of
    the API, and no other file has changed, log files apart. *)
Theorem main_stops_at_the_first_failure (cfg : config) (o : Api.api)
    (prompt : list Api.book → string) (w : world) (s s1 s2 : Retry.state)
    (books : list Api.book) (bookName : string) (sections : list Api.section) :
  steady o →
  Api.getBooks cfg o s = (Normal books, s1) →
  Api.getBookInfo cfg o (prompt books) s1 = (Normal (bookName, sections), s2) →
  let finishSections := List.filter Main.finished sections in
  let received := λ y, is_Some (answer cfg o (Api.id y)) in
  let '(r, w', _) := Main.main cfg o prompt w s in
  (r = Normal () ↔ Forall received finishSections)
  ∧ (∀ i x, finishSections !! i = Some x →
            Forall received (firstn (S i) finishSections) →
            ∃ info, answer cfg o (Api.id x) = Some info
                    ∧ files w' !! Main.sectionPath bookName x info
                      = Some (Text (Api.content info)))
  ∧ (∀ q, (∀ i x info, finishSections !! i = Some x →
                       Forall received (firstn (S i) finishSections) →
                       answer cfg o (Api.id x) = Some info →
                       q ≠ Main.sectionPath bookName x info) →
          log_file q = false →
          files w' !! q = files w !! q).
Proof.
  intros Hsteady Hbooks Hinfo finishSections received.
  unfold Main.main. rewrite Hbooks. cbn zeta. rewrite Hinfo.
  pose proof (writeSections_steady cfg o bookName (List.filter Main.finished sections)
                w s2 Hsteady) as H.
  cbv zeta in H.
  destruct (Main.writeSections _ _ _ _ _ _) as [[r w'] s'].
  destruct H as (H1 & H2 & H3).
  { apply NoDup_fmap_filter. by eapply getBookInfo_indexes. }
  split; [exact H1|]. split; [exact H2|]. intros q Hq _. by apply H3.
Qed.

Lemma main_stops_at_the_first_failure_witness :
  (steady Cases.shelf
   ∧ Api.getBooks defaultConfig Cases.shelf Cases.no_request
     = (Normal [Cases.the_book], {| Retry.calls := 1; Retry.waited := 0 |})
   ∧ Api.getBookInfo defaultConfig Cases.shelf "7001"
       {| Retry.calls := 1; Retry.waited := 0 |}
     = (Normal ("Book",
                [{| Api.id := "s1"; Api.title := "What is a <div>?"; Api.status := 1;
                    Api.index := 1 |};
                 {| Api.id := "s2"; Api.title := "Draft"; Api.status := 0;
                    Api.index := 2 |};
                 {| Api.id := "s3"; Api.title := "The end"; Api.status := 1;
                    Api.index := 3 |}]),
        {| Retry.calls := 2; Retry.waited := 0 |}))
  ∧ ∃ info,
      answer defaultConfig Cases.shelf "s1" = Some info
      ∧ files (Main.main defaultConfig Cases.shelf (λ _, "7001")
                 (Scenarios.world_of []) Cases.no_request).1.2
        !! Main.sectionPath "Book"
             {| Api.id := "s1"; Api.title := "What is a <div>?"; Api.status := 1;
                Api.index := 1 |} info
        = Some (Text (Api.content info)).
Proof.
  assert (H1 := shelf_steady).
  assert (H2 : Api.getBooks defaultConfig Cases.shelf Cases.no_request
               = (Normal [Cases.the_book], {| Retry.calls := 1; Retry.waited := 0 |}))
    by (vm_compute; reflexivity).
  assert (H3 : Api.getBookInfo defaultConfig Cases.shelf "7001"
                 {| Retry.calls := 1; Retry.waited := 0 |}
               = (Normal ("Book",
                          [{| Api.id := "s1"; Api.title := "What is a <div>?";
                              Api.status := 1; Api.index := 1 |};
                           {| Api.id := "s2"; Api.title := "Draft"; Api.status := 0;
                              Api.index := 2 |};
                           {| Api.id := "s3"; Api.title := "The end"; Api.status := 1;
                              Api.index := 3 |}]),
                  {| Retry.calls := 2; Retry.waited := 0 |}))
    by (vm_compute; reflexivity).
  split; [exact (conj H1 (conj H2 H3))|].
  pose proof (main_stops_at_the_first_failure defaultConfig Cases.shelf (λ _, "7001")
                (Scenarios.world_of []) Cases.no_request _ _ _ _ _ H1 H2 H3) as H.
  cbv zeta in H.
  destruct (Main.main _ _ _ _ _) as [[r w'] s']. cbn [fst snd].
  destruct H as (_ & Hfiles & _).
  apply (Hfiles 0 {| Api.id := "s1"; Api.title := "What is a <div>?"; Api.status := 1;
                     Api.index := 1 |}); [reflexivity|].
  apply Forall_cons. split; [|constructor]. vm_compute. eauto.
Defined.

(** ** The messages that are logged *)

Lemma currentLogLevel_cases (LOG_LEVEL : option string) :
  Logger.currentLogLevel LOG_LEVEL = Logger.Level 1
  ∨ Logger.currentLogLevel LOG_LEVEL = Logger.Level 2
  ∨ Logger.currentLogLevel LOG_LEVEL = Logger.Level 3
  ∨ (Logger.currentLogLevel LOG_LEVEL = Logger.Inherited
     ∧ Logger.LOG_LEVELS (Logger.logLevel LOG_LEVEL) = Logger.Inherited).
Proof.
  unfold Logger.currentLogLevel.
  change (Logger.LOG_LEVELS "INFO") with (Logger.Level 1).
  generalize (Logger.logLevel LOG_LEVEL). intros key.
  unfold Logger.LOG_LEVELS.
  destruct (String.eqb key "DEBUG"); [left; reflexivity|].
  destruct (String.eqb key "INFO"); [left; reflexivity|].
  destruct (String.eqb key "WARN"); [right; left; reflexivity|].
  destruct (String.eqb key "ERROR"); [right; right; left; reflexivity|].
  destruct (existsb (String.eqb key) Logger.prototype).
  - right; right; right. split; reflexivity.
  - left; reflexivity.
Qed.

Lemma LOG_LEVELS_named (key : string) :
  (key = "DEBUG" ∧ Logger.LOG_LEVELS key = Logger.Level 0)
  ∨ (key = "INFO" ∧ Logger.LOG_LEVELS key = Logger.Level 1)
  ∨ (key = "WARN" ∧ Logger.LOG_LEVELS key = Logger.Level 2)
  ∨ (key = "ERROR" ∧ Logger.LOG_LEVELS key = Logger.Level 3)
  ∨ (key ≠ "WARN" ∧ key ≠ "ERROR"
     ∧ (Logger.LOG_LEVELS key = Logger.Inherited
        ∨ Logger.LOG_LEVELS key = Logger.Undefined)).
Proof.
  unfold Logger.LOG_LEVELS.
  destruct (String.eqb key "DEBUG") eqn:E1; [apply String.eqb_eq in E1; auto|].
  destruct (String.eqb key "INFO") eqn:E2; [apply String.eqb_eq in E2; auto|].
  destruct (String.eqb key "WARN") eqn:E3; [apply String.eqb_eq in E3; auto 6|].
  destruct (String.eqb key "ERROR") eqn:E4; [apply String.eqb_eq in E4; auto 6|].
  apply String.eqb_neq in E3, E4.
  do 4 right. split; [done|]. split; [done|].
  destruct (existsb (String.eqb key) Logger.prototype); auto.
Qed.

(** X26.  An [ERROR] message is always logged.  A [DEBUG] message is dropped
    even when [LOG_LEVEL] is [DEBUG]: the level [0] of [DEBUG] is falsy and
    [||] replaces it with the level of [INFO]; it is logged only when
    [LOG_LEVEL] names a property that [LOG_LEVELS] inherits from
    [Object.prototype].  An [INFO] message is dropped exactly when
    [LOG_LEVEL] is [WARN] or [ERROR]. *)
Theorem debug_messages_are_dropped (LOG_LEVEL : option string)
    (timestamp message : string) :
  Logger.error LOG_LEVEL timestamp message
  = Some (Logger.formatMessage timestamp "ERROR" message)
  ∧ Logger.debug (Some "DEBUG") timestamp message = None
  ∧ (Logger.debug LOG_LEVEL timestamp message = None
     ↔ Logger.LOG_LEVELS (Logger.logLevel LOG_LEVEL) ≠ Logger.Inherited)
  ∧ (Logger.info LOG_LEVEL timestamp message = None
     ↔ Logger.logLevel LOG_LEVEL = "WARN" ∨ Logger.logLevel LOG_LEVEL = "ERROR").
Proof.
  unfold Logger.error, Logger.debug, Logger.info, Logger.log.
  change (Logger.LOG_LEVELS "ERROR") with (Logger.Level 3).
  change (Logger.LOG_LEVELS "DEBUG") with (Logger.Level 0).
  change (Logger.LOG_LEVELS "INFO") with (Logger.Level 1).
  split; [|split; [reflexivity|split]].
  - destruct (currentLogLevel_cases LOG_LEVEL) as [->|[->|[->|[-> _]]]]; reflexivity.
  - destruct (currentLogLevel_cases LOG_LEVEL) as [H|[H|[H|[H H']]]]; rewrite H;
      cbn [Logger.less Nat.ltb Nat.leb].
    + split; [|done]. intros _ E. revert H. unfold Logger.currentLogLevel.
      rewrite E. discriminate.
    + split; [|done]. intros _ E. revert H. unfold Logger.currentLogLevel.
      rewrite E. discriminate.
    + split; [|done]. intros _ E. revert H. unfold Logger.currentLogLevel.
      rewrite E. discriminate.
    + split; [discriminate|]. by intros E.
  - unfold Logger.currentLogLevel.
    change (Logger.LOG_LEVELS "INFO") with (Logger.Level 1).
    destruct (LOG_LEVELS_named (Logger.logLevel LOG_LEVEL))
      as [[E ->]|[[E ->]|[[E ->]|[[E ->]|(E3 & E4 & [->| ->])]]]];
      cbn [Logger.or_else Logger.less Nat.ltb Nat.leb].
    + rewrite E. split; [discriminate|]. intros [|]; discriminate.
    + rewrite E. split; [discriminate|]. intros [|]; discriminate.
    + split; [auto|done].
    + split; [auto|done].
    + split; [discriminate|]. intros [|]; done.
    + split; [discriminate|]. intros [|]; done.
Qed.
